(** * Noise-Map: the layers panel (scripts/layers.js)

    A shallow embedding of the layer registry, the CSV ingestion path, the
    label-field policy, the repo-layer preloader and the repo-layer grouping
    of [scripts/layers.js], with the properties its specification states.

    JavaScript values are modelled as far as the script looks at them:
    numbers are binary64 floats, objects are lists of own properties kept in
    creation order, exceptions are an explicit completion.  A plain object
    inherits the members of [Object.prototype]: a lookup [o[k]] that finds
    no own property answers with the inherited member, and what a handler
    assigns on an object it reached that way is kept in the state.  The
    prototype is taken to be as the language defines it when the page
    starts; what the collaborators ([LayerStyle], Leaflet, PapaParse, proj4,
    [fetch]) do is a parameter. *)

From Stdlib Require Import List String Ascii Bool Arith NArith Lia Floats Permutation.
Import ListNotations.
Local Open Scope string_scope.
Local Open Scope list_scope.

Set Implicit Arguments.
Set Warnings "-register-all".

(* ================================================================== *)
(** ** Completions: a call returns normally or throws *)

Definition Exn := string.

Inductive Completion (A : Type) : Type :=
| Normal (a : A)
| Throw (e : Exn).

Arguments Normal {A} a.
Arguments Throw {A} e.

Definition cbind {A B} (c : Completion A) (k : A -> Completion B) : Completion B :=
  match c with
  | Normal a => k a
  | Throw e => Throw e
  end.

(** [try { c } catch { h }] *)
Definition try_catch {A} (c : Completion A) (h : Exn -> Completion A) : Completion A :=
  match c with
  | Normal a => Normal a
  | Throw e => h e
  end.

Declare Scope completion_scope.
Delimit Scope completion_scope with completion.
Notation "x <- c ;; k" := (cbind c (fun x => k))
  (at level 61, c at next level, right associativity) : completion_scope.
Notation "' pat <- c ;; k" := (cbind c (fun x => match x with pat => k end))
  (at level 61, pat pattern, c at next level, right associativity) : completion_scope.

(* ================================================================== *)
(** ** Values *)

(** An ordinary object: its own properties, in the order they were created. *)
Definition JsObject (V : Type) := list (string * V).

Inductive Value : Type :=
| VUndefined
| VNull
| VBool (b : bool)
| VNumber (f : float)
| VString (s : string)
| VArray (items : list Value)
| VObject (props : list (string * Value)).

Definition str_empty (s : string) : bool :=
  match s with
  | EmptyString => true
  | String _ _ => false
  end.

Definition is_nil {A} (l : list A) : bool :=
  match l with
  | [] => true
  | _ :: _ => false
  end.

(** ToBoolean *)
Definition truthy (v : Value) : bool :=
  match v with
  | VUndefined | VNull => false
  | VBool b => b
  | VNumber f => negb (PrimFloat.is_zero f || PrimFloat.is_nan f)
  | VString s => negb (str_empty s)
  | VArray _ | VObject _ => true
  end.

(** [Number.isFinite(v)]: false for everything that is not a number. *)
Definition Number_isFinite (v : Value) : bool :=
  match v with
  | VNumber f => PrimFloat.is_finite f
  | _ => false
  end.

(** [a || b] on values *)
Definition or_else (a b : Value) : Value := if truthy a then a else b.

(* ------------------------------------------------------------------ *)
(** *** Property keys that are array indices

    A key is an array index when it is the canonical decimal spelling of an
    integer in [0, 2^32 - 2].  Such keys are enumerated first, in ascending
    numeric order, whatever the order they were created in. *)

Definition digit_of (c : ascii) : option N :=
  let n := N_of_ascii c in
  if (48 <=? n)%N && (n <=? 57)%N then Some (n - 48)%N else None.

Fixpoint parse_digits (s : string) (acc : N) : option N :=
  match s with
  | EmptyString => Some acc
  | String c r =>
      match digit_of c with
      | Some d => parse_digits r (acc * 10 + d)%N
      | None => None
      end
  end.

Definition array_index (k : string) : option N :=
  match k with
  | EmptyString => None
  | String c r =>
      if (Ascii.eqb c "0"%char) && negb (str_empty r) then None
      else match parse_digits k 0%N with
           | Some n => if (n <? 4294967295)%N then Some n else None
           | None => None
           end
  end.

Definition is_array_index (k : string) : bool :=
  match array_index k with
  | Some _ => true
  | None => false
  end.

(* ------------------------------------------------------------------ *)
(** *** Own properties: get, set, delete, enumeration *)

Section Objects.
Variable V : Type.

(** [o[k]] ([None] is [undefined]) *)
Fixpoint obj_get (o : JsObject V) (k : string) : option V :=
  match o with
  | [] => None
  | (k', v) :: r => if String.eqb k' k then Some v else obj_get r k
  end.

Definition obj_has (o : JsObject V) (k : string) : bool :=
  match obj_get o k with
  | Some _ => true
  | None => false
  end.

(** [o[k] = v]: an existing property keeps its place, a new one is created
    last. *)
Fixpoint obj_set (o : JsObject V) (k : string) (v : V) : JsObject V :=
  match o with
  | [] => [(k, v)]
  | (k', v') :: r =>
      if String.eqb k' k then (k, v) :: r else (k', v') :: obj_set r k v
  end.

(** [delete o[k]] *)
Definition obj_delete (o : JsObject V) (k : string) : JsObject V :=
  filter (fun p => negb (String.eqb (fst p) k)) o.

Definition obj_keys (o : JsObject V) : list string := map fst o.

(** Insertion of one indexed property into a list sorted by index. *)
Fixpoint insert_by_index (n : N) (p : string * V) (l : list (N * (string * V)))
  : list (N * (string * V)) :=
  match l with
  | [] => [(n, p)]
  | (m, q) :: r =>
      if (n <? m)%N then (n, p) :: (m, q) :: r
      else (m, q) :: insert_by_index n p r
  end.

Fixpoint index_props (o : JsObject V) : list (N * (string * V)) :=
  match o with
  | [] => []
  | p :: r =>
      match array_index (fst p) with
      | Some n => insert_by_index n p (index_props r)
      | None => index_props r
      end
  end.

Definition named_props (o : JsObject V) : JsObject V :=
  filter (fun p => negb (is_array_index (fst p))) o.

(** The order in which [for (k in o)] and object spread visit the own
    properties: array indices ascending, then the other keys in creation
    order. *)
Definition enumeration_order (o : JsObject V) : JsObject V :=
  map snd (index_props o) ++ named_props o.

Definition own_keys (o : JsObject V) : list string :=
  map fst (enumeration_order o).

(** No two own properties share a key. *)
Definition wf_obj (o : JsObject V) : Prop := NoDup (obj_keys o).
End Objects.

(** The members a plain object inherits from [Object.prototype], each with
    the [length] of the function it names; [__proto__] answers the
    prototype object itself, which has no [length].  None of them is
    enumerable. *)
Definition object_prototype_members : JsObject (option nat) :=
  [ ("constructor", Some 1); ("hasOwnProperty", Some 1); ("isPrototypeOf", Some 1);
    ("propertyIsEnumerable", Some 1); ("toLocaleString", Some 0); ("toString", Some 0);
    ("valueOf", Some 0); ("__defineGetter__", Some 2); ("__defineSetter__", Some 2);
    ("__lookupGetter__", Some 1); ("__lookupSetter__", Some 1); ("__proto__", None) ].

Definition builtin_member (k : string) : option (option nat) :=
  obj_get object_prototype_members k.

(** [{...o}] *)
Definition spread {V} (o : JsObject V) : JsObject V :=
  fold_left (fun acc p => obj_set acc (fst p) (snd p)) (enumeration_order o) [].

(** [v.k] for a value [v]; reading a property of [undefined] or [null]
    throws.  Only own properties of objects are looked up. *)
Definition get_prop (v : Value) (k : string) : Completion Value :=
  match v with
  | VUndefined | VNull => Throw "TypeError: cannot read properties of undefined or null"
  | VObject o =>
      match obj_get o k with
      | Some x => Normal x
      | None => Normal VUndefined
      end
  | _ => Normal VUndefined
  end.

(** Truthiness of [v.length] for a truthy [v]. *)
Definition length_truthy (v : Value) : bool :=
  match v with
  | VArray l => negb (is_nil l)
  | VString s => negb (str_empty s)
  | VObject o =>
      match obj_get o "length" with
      | Some x => truthy x
      | None => false
      end
  | _ => false
  end.

(* ================================================================== *)
(** ** Data model *)

(** The side channel [layer.__ema] of a renderable handle: which optional
    callbacks it carries. *)
Record Ema : Type := {
  ema_type : string;
  has_setOpacity : bool;
  has_updateZoomStyles : bool;
  has_setActive : bool
}.

(** A circle marker of an uploaded CSV layer, with its bound popup. *)
Record Marker : Type := {
  marker_lat : Value;
  marker_lon : Value;
  marker_popup : string
}.

(** A renderable layer handle.  [handle] is the identity of the object, the
    only thing the map surface compares. *)
Record Layer : Type := {
  handle : nat;
  markers : list Marker;
  ema : option Ema
}.

(** A feature object held by the registry: [addr] is the identity of the
    object, [fval] its content. *)
Record Feature : Type := {
  addr : nat;
  fval : Value
}.

(** The [features] member of an entry: an array of feature objects, or any
    other value ([Array.isArray] tells them apart). *)
Inductive Features : Type :=
| FeatArray (fs : list Feature)
| FeatOther (v : Value).

Inductive Meta : Type :=
| RepoMeta (type : option string) (url : string) (labelField : option string)
| UploadMeta (source fileName : string) (labelField : option string).

Record LayerConfig : Type := {
  cfg_id : string;
  cfg_name : string;
  cfg_type : option string;
  cfg_url : string;
  cfg_labelField : option string;
  cfg_metaUrl : option string
}.

Record GroupDefinition : Type := {
  group_id : string;
  group_title : string
}.

(** [active] is [None] for an entry that carries no such flag. *)
Record LayerEntry : Type := {
  entry_id : string;
  entry_name : string;
  layer : option Layer;
  features : Features;
  active : option bool;
  opacity : float;
  meta : Meta
}.

Inductive Event : Type :=
| EvLog (msg : string)
| EvWarn (msg : string)
| EvAlert (msg : string)
| EvFetch (url : string)
| EvDispatch (name : string)
| EvSetOpacity (h : nat) (v : float)
| EvSetActive (h : nat) (b : bool).

(** The two assignments a row handler makes on the object it finds:
    [obj.active = isOn] and [obj.opacity = val]. *)
Inductive PropWrite : Type :=
| WActive (b : bool)
| WOpacity (v : float).

Definition write_key (w : PropWrite) : string :=
  match w with
  | WActive _ => "active"
  | WOpacity _ => "opacity"
  end.

Definition write_value (w : PropWrite) : Value :=
  match w with
  | WActive b => VBool b
  | WOpacity v => VNumber v
  end.

(** [window.UserLayerManager] with its two partitions, the map surface (the
    handles attached to it and the handles with a zoomend listener), the next
    unused object identity, what the script emitted so far, and [foreign]:
    the assignments handlers made on objects they reached through the
    prototype chain, oldest first, each with the name of the inherited
    member that answered ([__proto__] is [Object.prototype] itself). *)
Record State : Type := {
  uploaded : JsObject LayerEntry;
  repo : JsObject LayerEntry;
  map_layers : list nat;
  zoom_listeners : list nat;
  heap_next : nat;
  log : list Event;
  foreign : list (string * PropWrite)
}.

Definition init_state : State :=
  {| uploaded := []; repo := []; map_layers := []; zoom_listeners := [];
     heap_next := 0; log := []; foreign := [] |}.

Record File : Type := {
  file_name : string;
  file_text : string
}.

(** What a format handler returns: [{ layer, features }]. *)
Record IngestResult : Type := {
  res_layer : option Layer;
  res_features : Value
}.

(** What [LayerStyle.createLayerFromGeoJson] returns. *)
Record Built : Type := {
  built_layer : option Layer;
  built_features : Value
}.

Record LatLon : Type := {
  lat : Value;
  lon : Value
}.

(** The collaborators and host functions the script calls but does not
    define.  An absent global is [None]. *)
Record World : Type := {
  proj4 : option (string -> string -> list Value -> Completion Value);
  parseFloat : Value -> float;
  Papa_parse : option (string -> list (JsObject Value));
  makePopupHtml : option (string -> JsObject Value -> string);
  defaultPopupHtml : JsObject Value -> string;
  new_layer_handle : string -> nat;
  fetch : string -> Completion string;
  response_json : string -> Completion Value;
  createLayerFromGeoJson : LayerConfig -> Value -> Completion Built;
  guessLabelProperty : option (Value -> Completion (option string))
}.

(* ------------------------------------------------------------------ *)
(** *** State updates *)

Definition set_uploaded (s : State) (u : JsObject LayerEntry) : State :=
  {| uploaded := u; repo := repo s; map_layers := map_layers s;
     zoom_listeners := zoom_listeners s; heap_next := heap_next s; log := log s;
     foreign := foreign s |}.

Definition set_repo (s : State) (r : JsObject LayerEntry) : State :=
  {| uploaded := uploaded s; repo := r; map_layers := map_layers s;
     zoom_listeners := zoom_listeners s; heap_next := heap_next s; log := log s;
     foreign := foreign s |}.

Definition set_map_layers (s : State) (m : list nat) : State :=
  {| uploaded := uploaded s; repo := repo s; map_layers := m;
     zoom_listeners := zoom_listeners s; heap_next := heap_next s; log := log s;
     foreign := foreign s |}.

Definition set_zoom_listeners (s : State) (z : list nat) : State :=
  {| uploaded := uploaded s; repo := repo s; map_layers := map_layers s;
     zoom_listeners := z; heap_next := heap_next s; log := log s;
     foreign := foreign s |}.

Definition set_heap_next (s : State) (n : nat) : State :=
  {| uploaded := uploaded s; repo := repo s; map_layers := map_layers s;
     zoom_listeners := zoom_listeners s; heap_next := n; log := log s;
     foreign := foreign s |}.

Definition emit (ev : Event) (s : State) : State :=
  {| uploaded := uploaded s; repo := repo s; map_layers := map_layers s;
     zoom_listeners := zoom_listeners s; heap_next := heap_next s;
     log := log s ++ [ev]; foreign := foreign s |}.

(** An assignment on the inherited member found under the name [m]. *)
Definition write_member (m : string) (w : PropWrite) (s : State) : State :=
  {| uploaded := uploaded s; repo := repo s; map_layers := map_layers s;
     zoom_listeners := zoom_listeners s; heap_next := heap_next s; log := log s;
     foreign := foreign s ++ [(m, w)] |}.

(* ------------------------------------------------------------------ *)
(** *** Looking an id up in a partition: [part[id]]

    The partitions are plain objects.  A lookup answers with the own entry;
    failing that with the property a handler has put on [Object.prototype]
    (a boolean under "active", a number under "opacity"); failing that with
    the built-in member of that name; and with [undefined] otherwise. *)

Inductive Found : Type :=
| FOwn (e : LayerEntry)
| FValue (v : Value)
| FMember (name : string)
| FUndefined.

(** The assignments made on [Object.prototype] itself. *)
Definition proto_writes (s : State) : list PropWrite :=
  map snd (filter (fun p => String.eqb (fst p) "__proto__") (foreign s)).

(** [Object.prototype[k]] for a property the handlers created: the value
    assigned last. *)
Definition proto_value (s : State) (k : string) : option Value :=
  fold_left (fun acc w => if String.eqb (write_key w) k then Some (write_value w) else acc)
            (proto_writes s) None.

Definition lookup (s : State) (part : JsObject LayerEntry) (k : string) : Found :=
  match obj_get part k with
  | Some e => FOwn e
  | None =>
      match proto_value s k with
      | Some v => FValue v
      | None =>
          match builtin_member k with
          | Some _ => FMember k
          | None => FUndefined
          end
      end
  end.

(** ToBoolean of what a lookup found: entries, functions and the prototype
    object are objects. *)
Definition found_truthy (f : Found) : bool :=
  match f with
  | FOwn _ | FMember _ => true
  | FValue v => truthy v
  | FUndefined => false
  end.

(** The properties created on [Object.prototype], in creation order: they
    are enumerable, so [for (k in o)] visits them after the own properties
    of [o], unless [o] has an own property of that name. *)
Fixpoint created_keys (ws : list PropWrite) (seen : list string) : list string :=
  match ws with
  | [] => []
  | w :: r =>
      if existsb (String.eqb (write_key w)) seen then created_keys r seen
      else write_key w :: created_keys r (write_key w :: seen)
  end.

Definition inherited_keys (s : State) : list string := created_keys (proto_writes s) [].

Definition for_in_keys (s : State) (part : JsObject LayerEntry) : list string :=
  own_keys part ++ filter (fun k => negb (obj_has part k)) (inherited_keys s).

Definition with_active (e : LayerEntry) (a : bool) : LayerEntry :=
  {| entry_id := entry_id e; entry_name := entry_name e; layer := layer e;
     features := features e; active := Some a; opacity := opacity e;
     meta := meta e |}.

Definition with_opacity (e : LayerEntry) (v : float) : LayerEntry :=
  {| entry_id := entry_id e; entry_name := entry_name e; layer := layer e;
     features := features e; active := active e; opacity := v;
     meta := meta e |}.

(** [map.hasLayer], [layer.addTo(map)], [map.removeLayer] *)
Definition hasLayer (s : State) (l : Layer) : bool :=
  existsb (Nat.eqb (handle l)) (map_layers s).

Definition addTo (l : Layer) (s : State) : State :=
  if hasLayer s l then s else set_map_layers s (map_layers s ++ [handle l]).

Definition removeLayer (l : Layer) (s : State) : State :=
  set_map_layers s (filter (fun h => negb (Nat.eqb h (handle l))) (map_layers s)).

(** [l.__ema?.setOpacity(v)] and its optional-call variant
    [l.__ema?.setOpacity?.(v)]: the first throws when [__ema] is there
    without the callback. *)
Definition ema_setOpacity (l : Layer) (v : float) (s : State) : Completion State :=
  match ema l with
  | None => Normal s
  | Some m =>
      if has_setOpacity m then Normal (emit (EvSetOpacity (handle l) v) s)
      else Throw "TypeError: setOpacity is not a function"
  end.

Definition ema_setOpacity_opt (l : Layer) (v : float) (s : State) : State :=
  match ema l with
  | Some m => if has_setOpacity m then emit (EvSetOpacity (handle l) v) s else s
  | None => s
  end.

Definition ema_setActive_opt (l : Layer) (b : bool) (s : State) : State :=
  match ema l with
  | Some m => if has_setActive m then emit (EvSetActive (handle l) b) s else s
  | None => s
  end.

(** Fresh identities for the elements of a newly created feature array. *)
Fixpoint tag_from (n : nat) (vs : list Value) : list Feature :=
  match vs with
  | [] => []
  | v :: r => {| addr := n; fval := v |} :: tag_from (S n) r
  end.

Definition store_features (n : nat) (v : Value) : Features * nat :=
  match v with
  | VArray vs => (FeatArray (tag_from n vs), n + List.length vs)
  | _ => (FeatOther v, n)
  end.

(* ================================================================== *)
(** ** The registry's aggregate query *)

Definition flag_truthy (a : option bool) : bool :=
  match a with
  | Some true => true
  | _ => false
  end.

(** One turn of [for (const id in part) { const d = part[id]; if (d?.active
    && Array.isArray(d.features)) out.push(...d.features); }].  For an
    inherited boolean or number [d.features] is [undefined]: nothing is
    pushed. *)
Definition push_active (s : State) (part : JsObject LayerEntry) (out : list Feature)
           (id : string) : list Feature :=
  match lookup s part id with
  | FOwn d =>
      if flag_truthy (active d) then
        match features d with
        | FeatArray fs => out ++ fs
        | FeatOther _ => out
        end
      else out
  | FValue _ | FMember _ | FUndefined => out
  end.

Definition collect_active (s : State) (part : JsObject LayerEntry) (out : list Feature)
  : list Feature :=
  fold_left (push_active s part) (for_in_keys s part) out.

Definition getAllActiveFeatures (s : State) : list Feature :=
  collect_active s (repo s) (collect_active s (uploaded s) []).

(* ================================================================== *)
(** ** CSV handling.  Default projection: EPSG:32620 (UTM WGS84 20N) *)

Definition utm20 : string := "+proj=utm +zone=20 +datum=WGS84 +units=m +no_defs".
Definition wgs84 : string := "+proj=longlat +datum=WGS84 +no_defs".

Definition char_at (s : string) (i : nat) : Value :=
  match String.get i s with
  | Some c => VString (String c EmptyString)
  | None => VUndefined
  end.

(** [const [a, b] = v]: arrays and strings are iterable, a missing element is
    [undefined]; destructuring anything else throws. *)
Definition destructure_pair (v : Value) : Completion (Value * Value) :=
  match v with
  | VArray l => Normal (nth 0 l VUndefined, nth 1 l VUndefined)
  | VString s => Normal (char_at s 0, char_at s 1)
  | _ => Throw "TypeError: value is not iterable"
  end.

Definition utmToLatLon32620 (W : World) (easting northing : Value)
  : Completion (option LatLon) :=
  match proj4 W with
  | None => Normal None
  | Some p =>
      try_catch
        (r <- p utm20 wgs84 [easting; northing] ;;
         ' (lo, la) <- destructure_pair r ;;
         if negb (Number_isFinite la) || negb (Number_isFinite lo) then Normal None
         else Normal (Some {| lat := la; lon := lo |}))%completion
        (fun _ => Normal None)
  end.

(** [r.k] on a parsed row *)
Definition row_field (r : JsObject Value) (k : string) : Value :=
  match obj_get r k with
  | Some v => v
  | None => VUndefined
  end.

Definition csv_properties (file : File) (r : JsObject Value) : JsObject Value :=
  obj_set (obj_set (spread r) "__sourceFile" (VString (file_name file)))
          "__assumedCRS" (VString "EPSG:32620").

Definition csv_feature (file : File) (r : JsObject Value) (ll : LatLon) : Value :=
  VObject
    [ ("type", VString "Feature");
      ("geometry", VObject [ ("type", VString "Point");
                             ("coordinates", VArray [lon ll; lat ll]) ]);
      ("properties", VObject (csv_properties file r)) ].

Definition csv_marker (W : World) (file : File) (r : JsObject Value) (ll : LatLon) : Marker :=
  {| marker_lat := lat ll;
     marker_lon := lon ll;
     marker_popup := match makePopupHtml W with
                     | Some f => f (file_name file) r
                     | None => defaultPopupHtml W r
                     end |}.

(** The body of [for (const r of rows)]: [None] is [continue], otherwise the
    marker and the feature that are pushed. *)
Definition csv_row (W : World) (file : File) (r : JsObject Value)
  : Completion (option (Marker * Value)) :=
  let e := parseFloat W (row_field r "Easting") in
  let n := parseFloat W (row_field r "Northing") in
  if negb (PrimFloat.is_finite e) || negb (PrimFloat.is_finite n) then Normal None
  else
    (ll <- utmToLatLon32620 W (VNumber e) (VNumber n) ;;
     match ll with
     | None => Normal None
     | Some ll => Normal (Some (csv_marker W file r ll, csv_feature file r ll))
     end)%completion.

Fixpoint csv_loop (W : World) (file : File) (rows : list (JsObject Value))
         (ms : list Marker) (fs : list Value) : Completion (list Marker * list Value) :=
  match rows with
  | [] => Normal (ms, fs)
  | r :: rest =>
      (o <- csv_row W file r ;;
       match o with
       | None => csv_loop W file rest ms fs
       | Some (m, f) => csv_loop W file rest (ms ++ [m]) (fs ++ [f])
       end)%completion
  end.

Definition csv_ema : Ema :=
  {| ema_type := "upload_csv"; has_setOpacity := true;
     has_updateZoomStyles := true; has_setActive := false |}.

(** The alerts raised, and the result ([None] is [null]). *)
Definition handleCsvUpload (W : World) (file : File)
  : list Event * Completion (option IngestResult) :=
  match Papa_parse W with
  | None => ([EvAlert "PapaParse is missing. Ensure papaparse is loaded."], Normal None)
  | Some parse =>
      ([], (' (ms, fs) <- csv_loop W file (parse (file_text file)) [] [] ;;
            Normal (Some {| res_layer :=
                              Some {| handle := new_layer_handle W (file_name file);
                                      markers := ms; ema := Some csv_ema |};
                            res_features := VArray fs |}))%completion)
  end.

(* ================================================================== *)
(** ** The label field used for styling and tooltips *)

Definition string_truthy (o : option string) : bool :=
  match o with
  | Some s => negb (str_empty s)
  | None => false
  end.

(** [cfg.type === t] *)
Definition type_is (cfg : LayerConfig) (t : string) : bool :=
  match cfg_type cfg with
  | Some x => String.eqb x t
  | None => false
  end.

Definition computeLabelField (W : World) (cfg : LayerConfig) (feats : Value)
  : Completion (option string) :=
  if negb (truthy feats) || negb (length_truthy feats) then Normal None
  else if string_truthy (cfg_labelField cfg) then Normal (cfg_labelField cfg)
  else if type_is cfg "municipality" then Normal (Some "NAME_1")
  else if type_is cfg "zone" then Normal (Some "zone")
  else match guessLabelProperty W with
       | Some guess => guess feats
       | None => Normal None
       end.

(* ================================================================== *)
(** ** Repo layer grouping *)

(** [cfg.type || "other"] *)
Definition group_key (cfg : LayerConfig) : string :=
  match cfg_type cfg with
  | Some t => if str_empty t then "other" else t
  | None => "other"
  end.

(** [groups[t]] on the mapping under construction, a plain object: the own
    bucket, or the member of [Object.prototype] of that name (with its
    [length]), or [undefined].  The grouping runs once, while the panel is
    built and before any handler is attached, so the prototype is as the
    language defines it. *)
Inductive GroupFound : Type :=
| GOwn (l : list LayerConfig)
| GMember (arity : option nat)
| GUndefined.

Definition group_lookup (groups : JsObject (list LayerConfig)) (t : string) : GroupFound :=
  match obj_get groups t with
  | Some l => GOwn l
  | None =>
      match builtin_member t with
      | Some a => GMember a
      | None => GUndefined
      end
  end.

(** [if (!groups[t]) groups[t] = []; groups[t].push(cfg);]: an inherited
    member is truthy and has no [push]. *)
Definition group_step (groups : JsObject (list LayerConfig)) (cfg : LayerConfig)
  : Completion (JsObject (list LayerConfig)) :=
  let t := group_key cfg in
  let groups1 := match group_lookup groups t with
                 | GUndefined => obj_set groups t []
                 | GOwn _ | GMember _ => groups
                 end in
  match group_lookup groups1 t with
  | GOwn l => Normal (obj_set groups1 t (l ++ [cfg]))
  | GMember _ => Throw "TypeError: groups[t].push is not a function"
  | GUndefined => Throw "TypeError: cannot read properties of undefined"
  end.

Definition groupRepoLayers (config : list LayerConfig)
  : Completion (JsObject (list LayerConfig)) :=
  fold_left (fun acc cfg => (groups <- acc ;; group_step groups cfg)%completion)
            config (Normal []).

(** One turn of [for (const g of groupOrder)]: the block appended to the
    panel, if any.  [!list || !list.length] lets an inherited function of
    [length] 0 and the prototype object pass as empty; on any other
    inherited function [list.filter] is not a function. *)
Definition panel_block (repoGroups : JsObject (list LayerConfig)) (g : GroupDefinition)
  : Completion (list (GroupDefinition * list LayerConfig)) :=
  match group_lookup repoGroups (group_id g) with
  | GUndefined => Normal []
  | GOwn l =>
      if is_nil l then Normal []
      else
        let visibleList := filter (fun cfg => negb (type_is cfg "roads")) l in
        if is_nil visibleList then Normal [] else Normal [(g, visibleList)]
  | GMember None => Normal []
  | GMember (Some n) =>
      if Nat.eqb n 0 then Normal []
      else Throw "TypeError: list.filter is not a function"
  end.

(** The blocks appended before the loop ends or throws, and how it ends. *)
Fixpoint panel_loop (repoGroups : JsObject (list LayerConfig))
         (groupOrder : list GroupDefinition)
  : list (GroupDefinition * list LayerConfig) * Completion unit :=
  match groupOrder with
  | [] => ([], Normal tt)
  | g :: rest =>
      match panel_block repoGroups g with
      | Throw e => ([], Throw e)
      | Normal b =>
          let (bs, c) := panel_loop repoGroups rest in (b ++ bs, c)
      end
  end.

Definition render_panel (config : list LayerConfig) (groupOrder : list GroupDefinition)
  : list (GroupDefinition * list LayerConfig) * Completion unit :=
  match groupRepoLayers config with
  | Throw e => ([], Throw e)
  | Normal repoGroups => panel_loop repoGroups groupOrder
  end.

(** The group blocks of the panel, each with the rows it shows. *)
Definition panel_groups (config : list LayerConfig) (groupOrder : list GroupDefinition)
  : list (GroupDefinition * list LayerConfig) :=
  fst (render_panel config groupOrder).

(* ================================================================== *)
(** ** Handlers: state and exceptions together

    A throw keeps the writes made before it, which is what [try]/[catch]
    and an event handler that dies half-way leave behind. *)

Definition Eff (A : Type) : Type := State -> Completion A * State.

Definition eret {A} (a : A) : Eff A := fun s => (Normal a, s).

Definition ebind {A B} (m : Eff A) (k : A -> Eff B) : Eff B :=
  fun s =>
    match m s with
    | (Normal a, s') => k a s'
    | (Throw e, s') => (Throw e, s')
    end.

Definition lift {A} (c : Completion A) : Eff A := fun s => (c, s).

Definition gets {A} (f : State -> A) : Eff A := fun s => (Normal (f s), s).

Definition modify (f : State -> State) : Eff unit := fun s => (Normal tt, f s).

Definition etry {A} (m : Eff A) (h : Exn -> Eff A) : Eff A :=
  fun s =>
    match m s with
    | (Normal a, s') => (Normal a, s')
    | (Throw e, s') => h e s'
    end.

(** Running a handler to its end: an exception that escapes it is reported
    by the host and changes nothing more. *)
Definition exec {A} (m : Eff A) (s : State) : State := snd (m s).

Declare Scope eff_scope.
Delimit Scope eff_scope with eff.
Notation "x <- c ;; k" := (ebind c (fun x => k))
  (at level 61, c at next level, right associativity) : eff_scope.
Notation "c ;;; k" := (ebind c (fun _ => k))
  (at level 61, right associativity) : eff_scope.

(** [obj.layer.m(...)]: reading a member of an absent layer throws. *)
Definition the_layer (l : option Layer) : Completion Layer :=
  match l with
  | Some x => Normal x
  | None => Throw "TypeError: cannot read properties of undefined"
  end.

(** 0.6 and 0.7 as the doubles they denote *)
Definition opacity_roads : float := 0x1.3333333333333p-1%float.
Definition opacity_default : float := 0x1.6666666666666p-1%float.

(* ------------------------------------------------------------------ *)
(** *** The panel's event handlers *)

(** The config literal [{ type: "uploaded" }]; its other members are
    absent. *)
Definition upload_cfg : LayerConfig :=
  {| cfg_id := ""; cfg_name := ""; cfg_type := Some "uploaded"; cfg_url := "";
     cfg_labelField := None; cfg_metaUrl := None |}.

(** The entry written by [window.UserLayerManager.uploaded[id] = { ... }] *)
Definition uploaded_entry (name id : string) (result : IngestResult) (fs : Features)
           (labelField : option string) : LayerEntry :=
  {| entry_id := id; entry_name := name; layer := res_layer result;
     features := fs; active := Some false; opacity := opacity_default;
     meta := UploadMeta "upload" name labelField |}.

Definition commit_uploaded (name id : string) (result : IngestResult)
           (labelField : option string) (s : State) : State :=
  let (fs, n) := store_features (heap_next s) (res_features result) in
  set_heap_next
    (set_uploaded s (obj_set (uploaded s) id (uploaded_entry name id result fs labelField)))
    n.

(** The upload click handler, from the point where a handler has returned
    [result] for the file and [uid("upload")] has produced [id]. *)
Definition upload_commit (W : World) (name id : string) (result : IngestResult) : Eff unit :=
  (uploadLabelField <- lift (computeLabelField W upload_cfg (res_features result)) ;;
   modify (commit_uploaded name id result uploadLabelField))%eff.

(** What the row handlers do once [obj] is an inherited member or an
    inherited primitive rather than an entry.  [obj.active = isOn] and
    [obj.opacity = val] land on the member (on a primitive they are
    dropped: the script is not in strict mode); [obj.layer] is [undefined],
    so the toggle dies on [obj.layer.addTo] or inside [map.removeLayer], and
    the slider's [obj.layer?.__ema?.setOpacity] is [undefined]. *)
Definition assign_inherited (o : Found) (w : PropWrite) : Eff unit :=
  match o with
  | FMember m => modify (write_member m w)
  | FOwn _ | FValue _ | FUndefined => eret tt
  end.

Definition toggle_inherited (o : Found) (isOn : bool) : Eff unit :=
  (assign_inherited o (WActive isOn) ;;;
   l <- lift (the_layer None) ;;
   if isOn then modify (addTo l) else modify (removeLayer l))%eff.

Definition toggle_uploaded (id : string) (isOn : bool) (slider : float) : Eff unit :=
  (o <- gets (fun s => lookup s (uploaded s) id) ;;
   if negb (found_truthy o) then eret tt
   else
     match o with
     | FOwn obj =>
         modify (fun s => set_uploaded s (obj_set (uploaded s) id (with_active obj isOn))) ;;;
         l <- lift (the_layer (layer obj)) ;;
         if isOn then
           modify (addTo l) ;;;
           (fun s => match ema_setOpacity l slider s with
                     | Normal s' => (Normal tt, s')
                     | Throw e => (Throw e, s)
                     end)
         else modify (removeLayer l)
     | FValue _ | FMember _ | FUndefined => toggle_inherited o isOn
     end)%eff.

Definition slider_uploaded (id : string) (val : float) : Eff unit :=
  (o <- gets (fun s => lookup s (uploaded s) id) ;;
   if negb (found_truthy o) then eret tt
   else
     match o with
     | FOwn obj =>
         modify (fun s => set_uploaded s (obj_set (uploaded s) id (with_opacity obj val))) ;;;
         if flag_truthy (active obj) then
           match layer obj with
           | Some l => modify (ema_setOpacity_opt l val)
           | None => eret tt
           end
         else eret tt
     | FValue _ | FMember _ | FUndefined => assign_inherited o (WOpacity val)
     end)%eff.

Definition onRemove (id : string) : Eff unit :=
  (o <- gets (fun s => lookup s (uploaded s) id) ;;
   if negb (found_truthy o) then eret tt
   else
     match o with
     | FOwn obj =>
         match layer obj with
         | Some l => modify (fun s => if hasLayer s l then removeLayer l s else s)
         | None => eret tt
         end
     | FValue _ | FMember _ | FUndefined => eret tt
     end ;;;
     modify (fun s => set_uploaded s (obj_delete (uploaded s) id)))%eff.

Definition toggle_repo (cfg : LayerConfig) (isOn : bool) (slider : float) : Eff unit :=
  (o <- gets (fun s => lookup s (repo s) (cfg_id cfg)) ;;
   if negb (found_truthy o)
   then modify (emit (EvAlert ("Layer not ready yet: " ++ cfg_name cfg)))
   else
     match o with
     | FOwn obj =>
         modify (fun s => set_repo s (obj_set (repo s) (cfg_id cfg) (with_active obj isOn))) ;;;
         l <- lift (the_layer (layer obj)) ;;
         if isOn then
           modify (addTo l) ;;;
           (fun s => match ema_setOpacity l slider s with
                     | Normal s' => (Normal tt, s')
                     | Throw e => (Throw e, s)
                     end)
         else modify (removeLayer l)
     | FValue _ | FMember _ | FUndefined => toggle_inherited o isOn
     end)%eff.

Definition slider_repo (cfg : LayerConfig) (val : float) : Eff unit :=
  (o <- gets (fun s => lookup s (repo s) (cfg_id cfg)) ;;
   if negb (found_truthy o) then eret tt
   else
     match o with
     | FOwn obj =>
         modify (fun s => set_repo s (obj_set (repo s) (cfg_id cfg) (with_opacity obj val))) ;;;
         if flag_truthy (active obj) then
           match layer obj with
           | Some l => modify (ema_setOpacity_opt l val)
           | None => eret tt
           end
         else eret tt
     | FValue _ | FMember _ | FUndefined => assign_inherited o (WOpacity val)
     end)%eff.

(** The events the panel can deliver. *)
Inductive Op : Type :=
| OpUpload (name id : string) (result : IngestResult)
| OpToggleUploaded (id : string) (isOn : bool) (slider : float)
| OpSliderUploaded (id : string) (val : float)
| OpRemove (id : string)
| OpToggleRepo (cfg : LayerConfig) (isOn : bool) (slider : float)
| OpSliderRepo (cfg : LayerConfig) (val : float).

Definition run_op (W : World) (op : Op) (s : State) : State :=
  match op with
  | OpUpload name id result => exec (upload_commit W name id result) s
  | OpToggleUploaded id isOn slider => exec (toggle_uploaded id isOn slider) s
  | OpSliderUploaded id val => exec (slider_uploaded id val) s
  | OpRemove id => exec (onRemove id) s
  | OpToggleRepo cfg isOn slider => exec (toggle_repo cfg isOn slider) s
  | OpSliderRepo cfg val => exec (slider_repo cfg val) s
  end.

Definition run_ops (W : World) (ops : list Op) (s : State) : State :=
  fold_left (fun st op => run_op W op st) ops s.

(* ------------------------------------------------------------------ *)
(** *** The preloader *)

(** The entry written by [window.UserLayerManager.repo[cfg.id] = { ... }] *)
Definition repo_entry (cfg : LayerConfig) (built : Built) (fs : Features)
           (labelField : option string) : LayerEntry :=
  {| entry_id := cfg_id cfg; entry_name := cfg_name cfg;
     layer := built_layer built; features := fs; active := Some false;
     opacity := if type_is cfg "roads" then opacity_roads else opacity_default;
     meta := RepoMeta (cfg_type cfg) (cfg_url cfg) labelField |}.

Definition commit_repo (cfg : LayerConfig) (built : Built) (feats : Value)
           (labelField : option string) (s : State) : State :=
  let (fs, n) := store_features (heap_next s) feats in
  set_heap_next
    (set_repo s (obj_set (repo s) (cfg_id cfg) (repo_entry cfg built fs labelField)))
    n.

(** [built.features || (data.features || [])] *)
Definition preload_feats (built : Built) (data : Value) : Completion Value :=
  if truthy (built_features built) then Normal (built_features built)
  else (df <- get_prop data "features" ;; Normal (or_else df (VArray [])))%completion.

(** What the [try] block computes before it writes to the registry. *)
Definition preload_build (W : World) (cfg : LayerConfig) (resp : Completion string)
  : Completion (Built * Value * option string) :=
  (body <- resp ;;
   data <- response_json W body ;;
   built <- createLayerFromGeoJson W cfg data ;;
   feats <- preload_feats built data ;;
   labelField <- computeLabelField W cfg feats ;;
   Normal (built, feats, labelField))%completion.

(** The [try]/[catch] of one config, from the point where the awaited fetch
    has settled with [resp]. *)
Definition preload_resume (W : World) (cfg : LayerConfig) (resp : Completion string) : Eff unit :=
  etry
    (b <- lift (preload_build W cfg resp) ;;
     let '(built, feats, labelField) := b in
     modify (commit_repo cfg built feats labelField) ;;;
     l <- lift (the_layer (built_layer built)) ;;
     match ema l with
     | Some m =>
         if has_updateZoomStyles m
         then modify (fun s => set_zoom_listeners s (zoom_listeners s ++ [handle l]))
         else eret tt
     | None => eret tt
     end)%eff
    (fun _ => modify (emit (EvWarn ("❌ Failed to preload repo layer: " ++ cfg_name cfg)))).

(** The loop over the configured registry.  While the fetch of one config is
    awaited the panel's handlers may run: [sched] gives, per attempted
    config, the events delivered in the meantime. *)
Fixpoint preload_loop (W : World) (registry : list LayerConfig) (sched : list (list Op))
         (s : State) : State :=
  match registry with
  | [] => s
  | cfg :: rest =>
      if found_truthy (lookup s (repo s) (cfg_id cfg)) then preload_loop W rest sched s
      else
        let s1 := emit (EvFetch (cfg_url cfg)) s in
        let s2 := run_ops W (hd [] sched) s1 in
        preload_loop W rest (tl sched)
                     (exec (preload_resume W cfg (fetch W (cfg_url cfg))) s2)
  end.

Definition roadsId : string := "major_roads".

(** Force Major Roads always ON.  "major_roads" is not the name of an
    inherited member, so [repo[roadsId]] is the own entry or [undefined]. *)
Definition force_roads (s : State) : State :=
  match obj_get (repo s) roadsId with
  | Some roadsObj =>
      match layer roadsObj with
      | Some l =>
          let s1 := set_repo s (obj_set (repo s) roadsId (with_active roadsObj true)) in
          let s2 := if hasLayer s1 l then s1 else addTo l s1 in
          ema_setOpacity_opt l opacity_roads (ema_setActive_opt l true s2)
      | None => s
      end
  | None => s
  end.

Definition preload_finish (s : State) : State :=
  force_roads
    (emit (EvDispatch "layers:repoPreloaded") (emit (EvLog "✅ Repo layers preloaded") s)).

Definition preloadRepoLayers_sched (W : World) (registry : list LayerConfig)
           (sched : list (list Op)) (s : State) : State :=
  preload_finish (preload_loop W registry sched s).

(** The preloader left to itself: no panel event arrives while it runs. *)
Definition preloadRepoLayers (W : World) (registry : list LayerConfig) (s : State) : State :=
  preloadRepoLayers_sched W registry [] s.

(** Everything that can happen to the registry. *)
Inductive Action : Type :=
| ActOp (op : Op)
| ActPreload (registry : list LayerConfig) (sched : list (list Op)).

Definition run_action (W : World) (a : Action) (s : State) : State :=
  match a with
  | ActOp op => run_op W op s
  | ActPreload registry sched => preloadRepoLayers_sched W registry sched s
  end.

Definition run_actions (W : World) (acts : list Action) (s : State) : State :=
  fold_left (fun st a => run_action W a st) acts s.

(* ================================================================== *)
(** ** Reference definitions the properties are stated against *)

(** What one entry adds to the aggregate query. *)
Definition contribution (d : LayerEntry) : list Feature :=
  match active d, features d with
  | Some true, FeatArray fs => fs
  | _, _ => []
  end.

Definition concat_active (part : JsObject LayerEntry) : list Feature :=
  flat_map (fun p => contribution (snd p)) part.

(** Active entries concatenated, uploaded then repo, each partition in the
    order its entries were inserted. *)
Definition active_in_insertion_order (s : State) : list Feature :=
  concat_active (uploaded s) ++ concat_active (repo s).

(** The same with each partition in property enumeration order. *)
Definition active_in_enumeration_order (s : State) : list Feature :=
  concat_active (enumeration_order (uploaded s))
  ++ concat_active (enumeration_order (repo s)).

Definition no_index_keys {V} (o : JsObject V) : Prop :=
  forall k, In k (obj_keys o) -> is_array_index k = false.

(* ------------------------------------------------------------------ *)
(** *** Fixtures: a small world and a few configs to run the script on *)

Definition demo_layer (h : nat) : Layer :=
  {| handle := h; markers := [];
     ema := Some {| ema_type := "geojson"; has_setOpacity := true;
                    has_updateZoomStyles := true; has_setActive := true |} |}.

Definition demo_file : File := {| file_name := "points.csv"; file_text := "" |}.

Definition demo_row : JsObject Value :=
  [ ("Station", VString "N-14"); ("Easting", VString "500000");
    ("Northing", VString "1200000") ].

(** A row of a file that has a column called [__sourceFile]. *)
Definition demo_tagged_row : JsObject Value :=
  [ ("Easting", VString "500000"); ("Northing", VString "1200000");
    ("__sourceFile", VString "field-notes") ].

(** A row whose easting is not a number. *)
Definition demo_bad_row : JsObject Value :=
  [ ("Station", VString "N-15"); ("Easting", VString "n/a");
    ("Northing", VString "1200000") ].

(** Every file parses to the three rows above, every fetch of a non-empty
    url answers with the url as body, every body parses to a collection with
    one feature named after it, and the builder hands back a layer whose
    handle is the length of the config id. *)
Definition demo_world : World :=
  {| proj4 := Some (fun _ _ xy =>
                      match xy with
                      | [VNumber x; VNumber y] =>
                          Normal (VArray [VNumber (x / 100000)%float;
                                          VNumber (y / 100000)%float])
                      | _ => Throw "proj4: bad coordinates"
                      end);
     parseFloat := fun v =>
                     match v with
                     | VString "500000" => 500000%float
                     | VString "1200000" => 1200000%float
                     | VString "Infinity" => infinity
                     | _ => nan
                     end;
     Papa_parse := Some (fun _ => [demo_row; demo_bad_row; demo_tagged_row]);
     makePopupHtml := None;
     defaultPopupHtml := fun _ => "popup";
     new_layer_handle := fun name => String.length name;
     fetch := fun url => if str_empty url then Throw "fetch failed" else Normal url;
     response_json := fun body =>
                        Normal (VObject [("type", VString "FeatureCollection");
                                         ("features", VArray [VString body])]);
     createLayerFromGeoJson := fun cfg _ =>
                                 Normal {| built_layer := Some (demo_layer (String.length (cfg_id cfg)));
                                           built_features := VUndefined |};
     guessLabelProperty := Some (fun _ => Normal (Some "name")) |}.

Definition demo_cfg (id type url : string) : LayerConfig :=
  {| cfg_id := id; cfg_name := id; cfg_type := Some type; cfg_url := url;
     cfg_labelField := None; cfg_metaUrl := None |}.

(** Two repo layers whose ids are the array indices 2 and 1, preloaded in
    that order and then switched on from the panel. *)
Definition demo_indexed_registry : list LayerConfig :=
  [demo_cfg "2" "zone" "two.geojson"; demo_cfg "1" "zone" "one.geojson"].

Definition demo_indexed_state : State :=
  run_actions demo_world
    [ ActPreload demo_indexed_registry [];
      ActOp (OpToggleRepo (demo_cfg "2" "zone" "two.geojson") true opacity_default);
      ActOp (OpToggleRepo (demo_cfg "1" "zone" "one.geojson") true opacity_default) ]
    init_state.

(** Three configured layers, the last of which cannot be fetched, and one
    uploaded layer with two features. *)
Definition demo_roads : LayerConfig := demo_cfg "major_roads" "roads" "roads.geojson".
Definition demo_zones : LayerConfig := demo_cfg "zones" "zone" "zones.geojson".
Definition demo_broken : LayerConfig := demo_cfg "broken" "other" "".

Definition demo_registry : list LayerConfig := [demo_roads; demo_zones; demo_broken].

Definition demo_upload : IngestResult :=
  {| res_layer := Some (demo_layer 7);
     res_features := VArray [VString "a"; VString "b"] |}.

Definition demo_named_state : State :=
  run_actions demo_world
    [ ActOp (OpUpload "points.csv" "upload_1a_17" demo_upload);
      ActPreload demo_registry [];
      ActOp (OpToggleUploaded "upload_1a_17" true opacity_default);
      ActOp (OpToggleRepo demo_zones true opacity_default) ]
    init_state.

(** A config that names its label field. *)
Definition demo_labelled : LayerConfig :=
  {| cfg_id := "parishes"; cfg_name := "Parishes"; cfg_type := Some "municipality";
     cfg_url := "parishes.geojson"; cfg_labelField := Some "PARISH";
     cfg_metaUrl := None |}.

(** The feature, if any, that the CSV loop pushes for one row. *)
Definition csv_emitted (W : World) (file : File) (r : JsObject Value) : list Value :=
  match csv_row W file r with
  | Normal (Some (_, f)) => [f]
  | _ => []
  end.

Definition csv_emitted_marker (W : World) (file : File) (r : JsObject Value) : list Marker :=
  match csv_row W file r with
  | Normal (Some (m, _)) => [m]
  | _ => []
  end.

(** [f.properties] of a feature object *)
Definition feature_properties (f : Value) : JsObject Value :=
  match f with
  | VObject o =>
      match obj_get o "properties" with
      | Some (VObject p) => p
      | _ => []
      end
  | _ => []
  end.

(** The configs of [config] that fall under the key [t], in the order they
    appear in [config]. *)
Definition configs_of_key (config : list LayerConfig) (t : string) : list LayerConfig :=
  filter (fun cfg => String.eqb (group_key cfg) t) config.

(** A config without a type. *)
Definition demo_untyped : LayerConfig :=
  {| cfg_id := "sites"; cfg_name := "Sites"; cfg_type := None;
     cfg_url := "sites.geojson"; cfg_labelField := None; cfg_metaUrl := None |}.

(* ------------------------------------------------------------------ *)
(** *** What the registry holds, and how one event can change it *)

Definition entry_feats (e : LayerEntry) : list Feature :=
  match features e with
  | FeatArray fs => fs
  | FeatOther _ => []
  end.

(** The identities of the feature objects held by a partition. *)
Definition addrs_of (part : JsObject LayerEntry) : list nat :=
  flat_map (fun p => map addr (entry_feats (snd p))) part.

(** Every feature object is held by one entry only, and none has an identity
    that is still to be handed out. *)
Definition heap_wf (s : State) : Prop :=
  NoDup (addrs_of (uploaded s))
  /\ NoDup (addrs_of (repo s))
  /\ (forall a, In a (addrs_of (uploaded s)) -> ~ In a (addrs_of (repo s)))
  /\ (forall a, In a (addrs_of (uploaded s)) \/ In a (addrs_of (repo s)) -> a < heap_next s).

(** Two versions of an entry that differ in [active] and [opacity] only. *)
Definition touch (e e' : LayerEntry) : Prop :=
  layer e' = layer e /\ features e' = features e.

Definition obj_touch (o o' : JsObject LayerEntry) : Prop :=
  Forall2 (fun p p' => fst p' = fst p /\ touch (snd p) (snd p')) o o'.

(** One event changes a partition in one of three ways: it switches or
    restyles entries, it writes an entry with newly created features, or it
    deletes an entry. *)
Inductive part_step (n n' : nat) (o o' : JsObject LayerEntry) : Prop :=
| ps_touch : n' = n -> obj_touch o o' -> part_step n n' o o'
| ps_commit k e v :
    features e = fst (store_features n v) -> n' = snd (store_features n v) ->
    o' = obj_set o k e -> part_step n n' o o'
| ps_delete k : n' = n -> o' = obj_delete o k -> part_step n n' o o'.

Inductive estep (s s' : State) : Prop :=
| es_uploaded :
    part_step (heap_next s) (heap_next s') (uploaded s) (uploaded s') ->
    repo s' = repo s -> estep s s'
| es_repo :
    part_step (heap_next s) (heap_next s') (repo s) (repo s') ->
    uploaded s' = uploaded s -> estep s s'.

(** The part of the log written by the preloader: fetches, warnings, the
    console line and the notification.  Alerts and calls into a layer's side
    channel are not part of it. *)
Definition loud (ev : Event) : bool :=
  match ev with
  | EvLog _ | EvWarn _ | EvFetch _ | EvDispatch _ => true
  | EvAlert _ | EvSetOpacity _ _ | EvSetActive _ _ => false
  end.

Definition script_trace (s : State) : list Event := filter loud (log s).

(** A change that leaves both partitions and the heap as they are. *)
Definition frame (s s' : State) : Prop :=
  uploaded s' = uploaded s /\ repo s' = repo s /\ heap_next s' = heap_next s.

(** What an event of the panel can do: any change of the uploaded
    partition, but in the repo partition only switching and restyling. *)
Inductive ustep (s s' : State) : Prop :=
| us_uploaded :
    part_step (heap_next s) (heap_next s') (uploaded s) (uploaded s') ->
    repo s' = repo s -> script_trace s' = script_trace s -> ustep s s'
| us_repo :
    heap_next s' = heap_next s -> obj_touch (repo s) (repo s') ->
    uploaded s' = uploaded s -> script_trace s' = script_trace s -> ustep s s'.

(** A change that leaves the registry, the heap and the preloader's part of
    the log as they are. *)
Definition qframe (s s' : State) : Prop :=
  frame s s' /\ script_trace s' = script_trace s.

Inductive esteps : State -> State -> Prop :=
| esteps_refl s : esteps s s
| esteps_step s s1 s2 : estep s s1 -> esteps s1 s2 -> esteps s s2.

(** No entry of the registry holds a feature object with an identity in
    [gone], and no such identity will be handed out again. *)
Definition never_again (gone : list nat) (s : State) : Prop :=
  (forall a, In a gone -> a < heap_next s)
  /\ (forall a, In a (addrs_of (uploaded s)) \/ In a (addrs_of (repo s)) -> ~ In a gone).

(** The state one config leaves behind once its fetch has settled: nothing
    but a warning when the [try] block throws before it writes, otherwise
    the committed entry, followed by a warning when the builder gave no
    layer handle and by the zoom listener when the layer has the callback. *)
Definition preload_outcome (W : World) (cfg : LayerConfig) (resp : Completion string)
           (s : State) : State :=
  let warn := emit (EvWarn ("❌ Failed to preload repo layer: " ++ cfg_name cfg)) in
  match preload_build W cfg resp with
  | Throw _ => warn s
  | Normal (built, feats, labelField) =>
      let s1 := commit_repo cfg built feats labelField s in
      match built_layer built with
      | None => warn s1
      | Some l =>
          match ema l with
          | Some m =>
              if has_updateZoomStyles m
              then set_zoom_listeners s1 (zoom_listeners s1 ++ [handle l])
              else s1
          | None => s1
          end
      end
  end.

(** An upload that is switched on, removed, and then followed by a toggle of
    the removed row, a preload, and a second upload that [uid] happens to
    give the same id. *)
Definition demo_before_removal : list Action :=
  [ ActOp (OpUpload "points.csv" "upload_1a_17" demo_upload);
    ActOp (OpToggleUploaded "upload_1a_17" true opacity_default) ].

Definition demo_after_removal : list Action :=
  [ ActOp (OpToggleUploaded "upload_1a_17" true opacity_default);
    ActPreload demo_registry [];
    ActOp (OpUpload "points.csv" "upload_1a_17" demo_upload);
    ActOp (OpToggleUploaded "upload_1a_17" true opacity_default) ].

Definition attempt_event (ev : Event) : Prop :=
  match ev with
  | EvFetch _ | EvWarn _ => True
  | _ => False
  end.

Definition warning_of (cfg : LayerConfig) : Event :=
  EvWarn ("❌ Failed to preload repo layer: " ++ cfg_name cfg).

(** The [try] block of a config throws before it writes to the registry:
    the fetch, the parse, the build or the label resolution failed. *)
Definition fails (W : World) (cfg : LayerConfig) : Prop :=
  exists e, preload_build W cfg (fetch W (cfg_url cfg)) = Throw e.

(** The [try] block of a config gets as far as the write (fetch, parse,
    build and label resolution succeed) and the builder hands back a layer
    handle. *)
Definition loads_with_layer (W : World) (cfg : LayerConfig) : Prop :=
  exists built feats labelField l,
    preload_build W cfg (fetch W (cfg_url cfg)) = Normal (built, feats, labelField)
    /\ built_layer built = Some l.

(** A config of the roads type whose id is not the one the preloader looks
    for. *)
Definition demo_minor_roads : LayerConfig := demo_cfg "minor_roads" "roads" "minor.geojson".

(** Panel events that arrive while the first two fetches are awaited: a
    toggle of a layer that is not ready yet, then a toggle and a slider move
    on the roads entry. *)
Definition demo_sched : list (list Op) :=
  [ [OpToggleRepo demo_zones true opacity_default];
    [OpToggleRepo demo_roads false opacity_default;
     OpSliderRepo demo_roads opacity_default] ].

Definition demo_groups : list GroupDefinition :=
  [ {| group_id := "zone"; group_title := "Zones" |};
    {| group_id := "roads"; group_title := "Roads" |};
    {| group_id := "other"; group_title := "Other" |} ].

(* ================================================================== *)
(** ** Upload: ids, the GeoJSON and shapefile handlers, the click handler *)

(** [uid(prefix)], given what [Math.random().toString(16).slice(2)] and
    [Date.now()] answer when it is called. *)
Definition uid (prefix : string) (entropy : string * string) : string :=
  prefix ++ "_" ++ fst entropy ++ "_" ++ snd entropy.

(** What the upload path needs from the host besides [World]: the string
    method [toLowerCase], [JSON.parse], and the global [shp] when shpjs is
    loaded. *)
Record UploadHost : Type := {
  toLowerCase : string -> string;
  JSON_parse : string -> Completion Value;
  shp : option (string -> Completion Value)
}.

(** [s.endsWith(suffix)] *)
Definition ends_with (s suffix : string) : bool :=
  Nat.leb (String.length suffix) (String.length s)
  && String.eqb (substring (String.length s - String.length suffix)
                           (String.length suffix) s)
                suffix.

(** The config literal [{ id: uid(kind), name: file.name, type: kind }] *)
Definition handler_cfg (kind : string) (file : File) (cfg_uid : string * string)
  : LayerConfig :=
  {| cfg_id := uid kind cfg_uid; cfg_name := file_name file; cfg_type := Some kind;
     cfg_url := ""; cfg_labelField := None; cfg_metaUrl := None |}.

(** [{ layer: built.layer, features: data.features || [] }] *)
Definition built_result (built : Built) (data : Value) : Completion IngestResult :=
  (df <- get_prop data "features" ;;
   Normal {| res_layer := built_layer built;
             res_features := or_else df (VArray []) |})%completion.

Definition handleGeoJsonUpload (W : World) (H : UploadHost) (file : File)
           (cfg_uid : string * string) : Completion IngestResult :=
  (data <- JSON_parse H (file_text file) ;;
   built <- createLayerFromGeoJson W (handler_cfg "upload_geojson" file cfg_uid) data ;;
   built_result built data)%completion.

Definition quote_char : string := String (ascii_of_nat 34) EmptyString.
Definition newline_char : string := String (ascii_of_nat 10) EmptyString.

Definition shpjs_missing : string :=
  "Shapefile support requires shpjs." ++ newline_char ++ "Add:" ++ newline_char
  ++ "<script src=" ++ quote_char ++ "https://unpkg.com/shpjs@latest/dist/shp.min.js"
  ++ quote_char ++ "></script>".

(** The alerts raised, and the result ([None] is [null]).  The file's
    content stands for its array buffer. *)
Definition handleShapefileZipUpload (W : World) (H : UploadHost) (file : File)
           (cfg_uid : string * string) : list Event * Completion (option IngestResult) :=
  match shp H with
  | None => ([EvAlert shpjs_missing], Normal None)
  | Some convert =>
      ([], (data <- convert (file_text file) ;;
            built <- createLayerFromGeoJson W (handler_cfg "upload_shp" file cfg_uid) data ;;
            r <- built_result built data ;;
            Normal (Some r))%completion)
  end.

(** One selected file, with what the host answers while it is processed:
    the two draws of [uid] (for the handler's config and for the entry) and
    the panel events delivered while the file's content is awaited. *)
Record Upload : Type := {
  up_file : File;
  up_cfg_uid : string * string;
  up_id_uid : string * string;
  up_meanwhile : list Op
}.

Definition emit_all (evs : list Event) : Eff unit :=
  modify (fun s => fold_left (fun st ev => emit ev st) evs s).

(** The [try]/[catch] of one file.  [None] is a turn that ends in
    [continue] or leaves [result] null.  A handler suspends on the file's
    content only when its dependency is there. *)
Definition upload_try (W : World) (H : UploadHost) (u : Upload) : Eff (option IngestResult) :=
  let file := up_file u in
  etry
    (let lower := toLowerCase H (file_name file) in
     if ends_with lower ".csv" then
       emit_all (fst (handleCsvUpload W file)) ;;;
       match Papa_parse W with
       | Some _ => modify (run_ops W (up_meanwhile u))
       | None => eret tt
       end ;;;
       lift (snd (handleCsvUpload W file))
     else if ends_with lower ".geojson" || ends_with lower ".json" then
       modify (run_ops W (up_meanwhile u)) ;;;
       r <- lift (handleGeoJsonUpload W H file (up_cfg_uid u)) ;;
       eret (Some r)
     else if ends_with lower ".zip" then
       emit_all (fst (handleShapefileZipUpload W H file (up_cfg_uid u))) ;;;
       match shp H with
       | Some _ => modify (run_ops W (up_meanwhile u))
       | None => eret tt
       end ;;;
       lift (snd (handleShapefileZipUpload W H file (up_cfg_uid u)))
     else
       modify (emit (EvAlert ("Unsupported file type: " ++ file_name file))) ;;;
       eret None)%eff
    (fun e =>
       (modify (emit (EvWarn ("Upload failed: " ++ e))) ;;;
        modify (emit (EvAlert ("Failed to upload: " ++ file_name file))) ;;;
        eret None)%eff).

(** [for (const file of files) { ... }] *)
Fixpoint upload_loop (W : World) (H : UploadHost) (batch : list Upload) : Eff unit :=
  match batch with
  | [] => eret tt
  | u :: rest =>
      (result <- upload_try W H u ;;
       match result with
       | None => upload_loop W H rest
       | Some r =>
           upload_commit W (file_name (up_file u)) (uid "upload" (up_id_uid u)) r ;;;
           upload_loop W H rest
       end)%eff
  end.

(** The click handler of the upload button. *)
Definition onUploadClick (W : World) (H : UploadHost) (batch : list Upload) : Eff unit :=
  if is_nil batch then modify (emit (EvAlert "Please select at least one file."))
  else upload_loop W H batch.

(* ------------------------------------------------------------------ *)
(** *** Fixtures for the upload path *)

Definition lower_ascii (c : ascii) : ascii :=
  let n := nat_of_ascii c in
  if Nat.leb 65 n && Nat.leb n 90 then ascii_of_nat (n + 32) else c.

Fixpoint lower_string (s : string) : string :=
  match s with
  | EmptyString => EmptyString
  | String c r => String (lower_ascii c) (lower_string r)
  end.

(** A host without shpjs, whose [JSON.parse] rejects the text "{" and reads
    any other text as a collection with one feature. *)
Definition demo_host : UploadHost :=
  {| toLowerCase := lower_string;
     JSON_parse := fun text =>
                     if String.eqb text "{" then Throw "SyntaxError" else
                       Normal (VObject [("type", VString "FeatureCollection");
                                        ("features", VArray [VString text])]);
     shp := None |}.

Definition demo_upload_of (name text stamp : string) : Upload :=
  {| up_file := {| file_name := name; file_text := text |};
     up_cfg_uid := ("c0ffee", stamp);
     up_id_uid := ("1a2b3c", stamp);
     up_meanwhile := [] |}.

(** A batch of five: a text file, a GeoJSON file that does not parse, a
    shapefile archive, a CSV file and a GeoJSON file. *)
Definition demo_batch : list Upload :=
  [ demo_upload_of "notes.txt" "hello" "1";
    demo_upload_of "broken.GeoJSON" "{" "2";
    demo_upload_of "parcels.zip" "PK" "3";
    demo_upload_of "points.CSV" "Easting,Northing" "4";
    demo_upload_of "sites.json" "sites" "5" ].

(** The demo registry preloaded and one file uploaded, both switched off. *)
Definition demo_loaded_state : State :=
  run_actions demo_world
    [ ActOp (OpUpload "points.csv" "upload_1a_17" demo_upload);
      ActPreload demo_registry [] ]
    init_state.

(** What a grouping step that does not throw leaves: the config appended
    to the bucket of its key, created when it was missing. *)
Definition bucket_added (groups : JsObject (list LayerConfig)) (cfg : LayerConfig)
  : JsObject (list LayerConfig) :=
  obj_set groups (group_key cfg)
          (match obj_get groups (group_key cfg) with
           | Some l => l
           | None => []
           end ++ [cfg]).

(** A config counts under the type [t] when [t] is its type; a config whose
    type is absent or empty counts under "other". *)
Definition falls_under (t : string) (cfg : LayerConfig) : bool :=
  match cfg_type cfg with
  | Some x => if str_empty x then String.eqb t "other" else String.eqb x t
  | None => String.eqb t "other"
  end.

(** The configs that count under the type [t], in the order of the list. *)
Definition bucket_of (config : list LayerConfig) (t : string) : list LayerConfig :=
  filter (falls_under t) config.

(** The rows the panel shows under a group: the configs that count under
    the group's id, roads left out. *)
Definition shown_under (config : list LayerConfig) (g : GroupDefinition)
  : list LayerConfig :=
  filter (fun cfg => negb (type_is cfg "roads")) (bucket_of config (group_id g)).


(** [f.geometry.coordinates] of a feature object *)
Definition feature_coordinates (f : Value) : option Value :=
  match f with
  | VObject o =>
      match obj_get o "geometry" with
      | Some (VObject g) => obj_get g "coordinates"
      | _ => None
      end
  | _ => None
  end.

(** The popup bound to the marker of a CSV row. *)
Definition csv_popup (W : World) (file : File) (r : JsObject Value) : string :=
  match makePopupHtml W with
  | Some f => f (file_name file) r
  | None => defaultPopupHtml W r
  end.

(** What is left in [result] when the [try] block of a file is over: the
    handler's result, or nothing when the extension is unsupported, when
    the handler returned [null] or when it threw. *)
Definition settled (c : Completion (option IngestResult)) : option IngestResult :=
  match c with
  | Normal r => r
  | Throw _ => None
  end.

Definition upload_outcome (W : World) (H : UploadHost) (u : Upload) : option IngestResult :=
  let file := up_file u in
  let lower := toLowerCase H (file_name file) in
  if ends_with lower ".csv" then settled (snd (handleCsvUpload W file))
  else if ends_with lower ".geojson" || ends_with lower ".json" then
    settled (r <- handleGeoJsonUpload W H file (up_cfg_uid u) ;; Normal (Some r))%completion
  else if ends_with lower ".zip" then
    settled (snd (handleShapefileZipUpload W H file (up_cfg_uid u)))
  else None.

(** Committing, in batch order, the files that have a result. *)
Definition commit_successes (W : World) (H : UploadHost) (batch : list Upload) (s : State)
  : State :=
  fold_left
    (fun st u =>
       match upload_outcome W H u with
       | Some r => exec (upload_commit W (file_name (up_file u))
                                       (uid "upload" (up_id_uid u)) r) st
       | None => st
       end)
    batch s.

(** A world whose label guesser chokes on one feature list. *)
Definition demo_strict_world : World :=
  {| proj4 := proj4 demo_world;
     parseFloat := parseFloat demo_world;
     Papa_parse := Papa_parse demo_world;
     makePopupHtml := makePopupHtml demo_world;
     defaultPopupHtml := defaultPopupHtml demo_world;
     new_layer_handle := new_layer_handle demo_world;
     fetch := fetch demo_world;
     response_json := response_json demo_world;
     createLayerFromGeoJson := createLayerFromGeoJson demo_world;
     guessLabelProperty :=
       Some (fun v => match v with
                      | VArray [VString "odd"] => Throw "TypeError"
                      | _ => Normal (Some "name")
                      end) |}.

(** Three GeoJSON files, the second of which the label guesser of
    [demo_strict_world] chokes on. *)
Definition demo_strict_batch : list Upload :=
  [ demo_upload_of "first.json" "first" "1";
    demo_upload_of "second.json" "odd" "2";
    demo_upload_of "third.json" "third" "3" ].

(** Every entry of a partition satisfies [P] with the key it is stored
    under. *)
Definition all_entries (P : string -> LayerEntry -> Prop) (o : JsObject LayerEntry)
  : Prop :=
  forall k e, obj_get o k = Some e -> P k e.

(** An entry as the upload handler writes it under [k], whatever its
    switch and its opacity are by now. *)
Definition upload_shaped (k : string) (e : LayerEntry) : Prop :=
  entry_id e = k /\ exists labelField, meta e = UploadMeta "upload" (entry_name e) labelField.

(** An entry as the preloader writes it under [k]. *)
Definition repo_shaped (k : string) (e : LayerEntry) : Prop :=
  entry_id e = k /\ exists type url labelField, meta e = RepoMeta type url labelField.

Definition registry_shaped (s : State) : Prop :=
  all_entries upload_shaped (uploaded s) /\ all_entries repo_shaped (repo s).

(** The events of the row of the uploaded layer [id]: its toggle and its
    slider. *)
Definition on_upload_row (id : string) (op : Op) : bool :=
  match op with
  | OpToggleUploaded i _ _ | OpSliderUploaded i _ => String.eqb i id
  | _ => false
  end.

(** What an assignment on the object a lookup found leaves when the object
    is not an entry: it lands on an inherited member and is dropped on a
    primitive. *)
Definition inherited_write (o : Found) (w : PropWrite) (s : State) : State :=
  match o with
  | FMember m => write_member m w s
  | FOwn _ | FValue _ | FUndefined => s
  end.

(** The names a lookup in a plain object may answer without an own
    property: the built-in members, and the two properties a row handler
    can create on [Object.prototype]. *)
Definition inheritable (k : string) : bool :=
  match builtin_member k with
  | Some _ => true
  | None => String.eqb k "active" || String.eqb k "opacity"
  end.

(** The demo world with a builder that hands back features but no layer. *)
Definition demo_bare_world : World :=
  {| proj4 := proj4 demo_world;
     parseFloat := parseFloat demo_world;
     Papa_parse := Papa_parse demo_world;
     makePopupHtml := makePopupHtml demo_world;
     defaultPopupHtml := defaultPopupHtml demo_world;
     new_layer_handle := new_layer_handle demo_world;
     fetch := fetch demo_world;
     response_json := response_json demo_world;
     createLayerFromGeoJson := fun _ _ => Normal {| built_layer := None;
                                                    built_features := VUndefined |};
     guessLabelProperty := guessLabelProperty demo_world |}.

(** Two versions of an entry that agree in everything but the switch and
    the opacity. *)
Definition restyled (e e' : LayerEntry) : Prop :=
  entry_id e' = entry_id e /\ entry_name e' = entry_name e /\ layer e' = layer e
  /\ features e' = features e /\ meta e' = meta e.


(* ================================================================== *)
(** * Properties *)

(** ** Objects *)

Section ObjectFacts.
Variable V : Type.
Implicit Types (o : JsObject V) (k : string) (v : V).

Lemma obj_get_In o k v : obj_get o k = Some v -> In (k, v) o.
Proof.
  induction o as [|[k' v'] r IH]; simpl; [discriminate|].
  destruct (String.eqb_spec k' k) as [->|Hne].
  - intros [= ->]. now left.
  - intros H. right. now apply IH.
Qed.

Lemma In_obj_get o k v : wf_obj o -> In (k, v) o -> obj_get o k = Some v.
Proof.
  unfold wf_obj, obj_keys.
  induction o as [|[k' v'] r IH]; simpl; [tauto|].
  intros Hnd [Heq|Hin].
  - injection Heq as -> ->. now rewrite String.eqb_refl.
  - inversion Hnd as [|? ? Hnotin Hnd']; subst.
    destruct (String.eqb_spec k' k) as [->|Hne].
    + exfalso. apply Hnotin. change k with (fst (k, v)). now apply in_map.
    + now apply IH.
Qed.

Lemma obj_get_None_keys o k : obj_get o k = None <-> ~ In k (obj_keys o).
Proof.
  unfold obj_keys.
  induction o as [|[k' v'] r IH]; simpl; [tauto|].
  destruct (String.eqb_spec k' k) as [->|Hne].
  - split; [discriminate|]. intros H. exfalso. apply H. now left.
  - rewrite IH. split; [intros H [?|?]; [congruence|tauto] | tauto].
Qed.

Lemma obj_get_set_same o k v : obj_get (obj_set o k v) k = Some v.
Proof.
  induction o as [|[k' v'] r IH]; simpl.
  - now rewrite String.eqb_refl.
  - destruct (String.eqb_spec k' k) as [->|Hne]; simpl.
    + now rewrite String.eqb_refl.
    + destruct (String.eqb_spec k' k); [congruence|exact IH].
Qed.

Lemma obj_get_set_other o k k' v : k <> k' -> obj_get (obj_set o k v) k' = obj_get o k'.
Proof.
  intros Hne.
  induction o as [|[k0 v0] r IH]; simpl.
  - destruct (String.eqb_spec k k'); [congruence|reflexivity].
  - destruct (String.eqb_spec k0 k) as [->|Hne0]; simpl.
    + destruct (String.eqb_spec k k'); [congruence|reflexivity].
    + destruct (String.eqb_spec k0 k'); [reflexivity|exact IH].
Qed.

Lemma obj_set_unchanged o k v : obj_get o k = Some v -> obj_set o k v = o.
Proof.
  induction o as [|[k' v'] r IH]; simpl; [discriminate|].
  destruct (String.eqb_spec k' k) as [->|Hne].
  - now intros [= ->].
  - intros H. now rewrite IH.
Qed.

Lemma obj_keys_set_present o k v :
  obj_has o k = true -> obj_keys (obj_set o k v) = obj_keys o.
Proof.
  unfold obj_has, obj_keys.
  induction o as [|[k' v'] r IH]; simpl; [discriminate|].
  destruct (String.eqb_spec k' k) as [->|Hne]; simpl; [reflexivity|].
  intros H. now rewrite IH.
Qed.

Lemma obj_keys_set_absent o k v :
  obj_has o k = false -> obj_keys (obj_set o k v) = obj_keys o ++ [k].
Proof.
  unfold obj_has, obj_keys.
  induction o as [|[k' v'] r IH]; simpl; [reflexivity|].
  destruct (String.eqb_spec k' k) as [->|Hne]; simpl; [discriminate|].
  intros H. now rewrite IH.
Qed.

Lemma wf_obj_set o k v : wf_obj o -> wf_obj (obj_set o k v).
Proof.
  intros Hwf. unfold wf_obj.
  destruct (obj_has o k) eqn:Hhas.
  - now rewrite obj_keys_set_present.
  - rewrite obj_keys_set_absent by assumption.
    apply NoDup_app; [exact Hwf | repeat constructor; simpl; tauto |].
    intros a Ha [<-|[]].
    unfold obj_has in Hhas. destruct (obj_get o k) eqn:Hg; [discriminate|].
    now apply obj_get_None_keys in Hg.
Qed.

Lemma wf_obj_delete o k : wf_obj o -> wf_obj (obj_delete o k).
Proof.
  unfold wf_obj, obj_keys, obj_delete.
  induction o as [|[k' v'] r IH]; simpl; [tauto|].
  intros Hnd. inversion Hnd as [|? ? Hnotin Hnd']; subst.
  destruct (String.eqb k' k); simpl; [now apply IH|].
  constructor; [|now apply IH].
  intros Hin. apply Hnotin.
  apply in_map_iff in Hin as [p [Hp Hin]]. apply filter_In in Hin as [Hin _].
  apply in_map_iff. now exists p.
Qed.

Lemma obj_get_delete_same o k : obj_get (obj_delete o k) k = None.
Proof.
  unfold obj_delete.
  induction o as [|[k' v'] r IH]; simpl; [reflexivity|].
  destruct (String.eqb_spec k' k) as [->|Hne]; simpl; [exact IH|].
  destruct (String.eqb_spec k' k); [congruence|exact IH].
Qed.

Lemma In_insert_by_index (n : N) (p : string * V) l x :
  In x (insert_by_index n p l) <-> x = (n, p) \/ In x l.
Proof.
  induction l as [|[m q] r IH]; simpl.
  - split; [intros [<-|[]]; now left | intros [->|[]]; now left].
  - destruct (n <? m)%N; simpl.
    + split; [intros [<-|H]; [now left|now right] | intros [->|H]; [now left|now right]].
    + rewrite IH. tauto.
Qed.

Lemma In_index_props o (n : N) (p : string * V) : In (n, p) (index_props o) -> In p o.
Proof.
  induction o as [|q r IH]; simpl; [tauto|].
  destruct (array_index (fst q)).
  - intros H. apply In_insert_by_index in H as [[= _ ->]|H]; [now left|right; now apply IH].
  - intros H. right. now apply IH.
Qed.

Lemma In_enumeration_order o (p : string * V) : In p (enumeration_order o) -> In p o.
Proof.
  unfold enumeration_order, named_props. intros H.
  apply in_app_or in H as [H|H].
  - apply in_map_iff in H as [[n q] [<- H]]. now apply In_index_props in H.
  - now apply filter_In in H.
Qed.

Lemma enumeration_order_no_index o : no_index_keys o -> enumeration_order o = o.
Proof.
  unfold no_index_keys, obj_keys, enumeration_order, named_props, is_array_index.
  induction o as [|p r IH]; simpl; [reflexivity|].
  intros H.
  assert (Hp : array_index (fst p) = None).
  { specialize (H (fst p) (or_introl eq_refl)).
    destruct (array_index (fst p)); [discriminate|reflexivity]. }
  rewrite Hp. simpl.
  assert (IH' : map snd (index_props r)
                ++ filter (fun p0 => negb match array_index (fst p0) with
                                          | Some _ => true | None => false end) r = r).
  { apply IH. intros k Hk. apply H. now right. }
  destruct (index_props r) as [|x xs] eqn:Hix.
  - simpl in *. now rewrite IH'.
  - exfalso. destruct x as [n q].
    assert (Hin : In q r) by (apply In_index_props with (n := n); rewrite Hix; now left).
    assert (Hq : array_index (fst q) = None).
    { specialize (H (fst q) (or_intror (in_map fst r q Hin))).
      destruct (array_index (fst q)); [discriminate|reflexivity]. }
    clear - Hix Hq Hin.
    assert (Hall : forall m q', In (m, q') (index_props r) -> array_index (fst q') = Some m).
    { clear. induction r as [|a r IH]; simpl; [tauto|].
      intros m q'. destruct (array_index (fst a)) eqn:Ha.
      - intros H. apply In_insert_by_index in H as [[= -> ->]|H]; [exact Ha|now apply IH].
      - apply IH. }
    specialize (Hall n q). rewrite Hix in Hall. rewrite Hall in Hq by now left. discriminate.
Qed.
End ObjectFacts.

(* ================================================================== *)
(** ** The aggregate query *)

Lemma lookup_own s part k e : obj_get part k = Some e -> lookup s part k = FOwn e.
Proof.
  intros H. unfold lookup. now rewrite H.
Qed.

(** A lookup that finds no own property finds no entry. *)
Lemma lookup_not_own s part k :
  obj_get part k = None ->
  (exists v, lookup s part k = FValue v) \/ lookup s part k = FMember k
  \/ lookup s part k = FUndefined.
Proof.
  intros H. unfold lookup. rewrite H.
  destruct (proto_value s k) as [v|]; [left; now exists v|].
  destruct (builtin_member k); tauto.
Qed.

Lemma push_active_contribution s part out k d :
  obj_get part k = Some d -> push_active s part out k = out ++ contribution d.
Proof.
  intros H. unfold push_active, contribution. rewrite (lookup_own s _ _ H).
  destruct (active d) as [[|]|]; simpl; try now rewrite app_nil_r.
  destruct (features d); [reflexivity | now rewrite app_nil_r].
Qed.

Lemma push_active_not_own s part out k :
  obj_get part k = None -> push_active s part out k = out.
Proof.
  intros H. unfold push_active.
  destruct (lookup_not_own s _ _ H) as [[v ->]|[->| ->]]; reflexivity.
Qed.

(** Walking keys that all resolve to the listed entries pushes the entries'
    contributions in that order. *)
Lemma fold_push_active s part es : forall out,
  (forall p, In p es -> obj_get part (fst p) = Some (snd p)) ->
  fold_left (push_active s part) (map fst es) out = out ++ concat_active es.
Proof.
  induction es as [|[k d] r IH]; intros out Hes; simpl.
  - now rewrite app_nil_r.
  - rewrite push_active_contribution with (d := d) by (apply (Hes (k, d)); now left).
    rewrite IH by (intros p Hp; apply Hes; now right).
    now rewrite app_assoc.
Qed.

(** The turns for inherited keys push nothing. *)
Lemma fold_push_inherited s part ks : forall out,
  fold_left (push_active s part) (filter (fun k => negb (obj_has part k)) ks) out = out.
Proof.
  induction ks as [|k ks IH]; intros out; simpl; [reflexivity|].
  unfold obj_has at 1. destruct (obj_get part k) eqn:Hg; simpl; [apply IH|].
  now rewrite push_active_not_own, IH.
Qed.

Lemma collect_active_enumeration s part out :
  wf_obj part ->
  collect_active s part out = out ++ concat_active (enumeration_order part).
Proof.
  intros Hwf. unfold collect_active, for_in_keys, own_keys.
  rewrite fold_left_app, fold_push_inherited.
  apply fold_push_active.
  intros [k d] Hin. simpl. apply In_obj_get; [exact Hwf|].
  now apply In_enumeration_order.
Qed.

(** Whatever the query returns is held by some entry of the registry. *)
Lemma collect_active_held s part : forall ks out f,
  In f (fold_left (push_active s part) ks out) ->
  In f out \/ exists k d fs, In (k, d) part /\ features d = FeatArray fs /\ In f fs.
Proof.
  induction ks as [|k ks IH]; intros out f; simpl; [tauto|].
  intros H. apply IH in H as [H|H]; [|now right].
  destruct (obj_get part k) as [d|] eqn:Hg;
    [|rewrite push_active_not_own in H by exact Hg; now left].
  unfold push_active in H. rewrite (lookup_own s _ _ Hg) in H.
  destruct (flag_truthy (active d)); [|now left].
  destruct (features d) as [fs|] eqn:Hf; [|now left].
  apply in_app_or in H as [H|H]; [now left|].
  right. exists k, d, fs. split; [now apply obj_get_In|]. tauto.
Qed.

(** The query looks at the two partitions only. *)
Lemma collect_active_own s s' part : forall out,
  collect_active s part out = collect_active s' part out.
Proof.
  intros out. unfold collect_active, for_in_keys.
  rewrite !fold_left_app, !fold_push_inherited.
  revert out. induction (own_keys part) as [|k ks IH]; intros out; simpl; [reflexivity|].
  rewrite <- IH. f_equal.
  destruct (obj_get part k) as [d|] eqn:Hg.
  - now rewrite !push_active_contribution with (d := d).
  - now rewrite !push_active_not_own.
Qed.

Lemma getAllActiveFeatures_registry s s' :
  uploaded s' = uploaded s -> repo s' = repo s ->
  getAllActiveFeatures s' = getAllActiveFeatures s.
Proof.
  intros Hu Hr. unfold getAllActiveFeatures. rewrite Hu, Hr.
  rewrite (collect_active_own s' s (uploaded s)). apply collect_active_own.
Qed.

(** C1, as amended: for every state of the two partitions (no partition
    holding two entries under one id), [getAllActiveFeatures] returns exactly
    the concatenation of the feature arrays of the entries whose [active]
    flag is true, the uploaded partition first and then the repo partition,
    each partition in property enumeration order; an entry whose flag is
    false or absent, or whose [features] is not an array, adds nothing.
    Enumeration order is insertion order whenever no id of the partition is
    an array index. *)
Theorem getAllActiveFeatures_in_enumeration_order (s : State) :
  wf_obj (uploaded s) -> wf_obj (repo s) ->
  getAllActiveFeatures s = active_in_enumeration_order s
  /\ (no_index_keys (uploaded s) -> no_index_keys (repo s) ->
      getAllActiveFeatures s = active_in_insertion_order s)
  /\ (forall d, flag_truthy (active d) = false -> contribution d = [])
  /\ (forall d v, features d = FeatOther v -> contribution d = []).
Proof.
  intros Hu Hr.
  assert (Heq : getAllActiveFeatures s = active_in_enumeration_order s).
  { unfold getAllActiveFeatures, active_in_enumeration_order.
    rewrite (collect_active_enumeration s _ Hr), (collect_active_enumeration s _ Hu).
    reflexivity. }
  split; [exact Heq|]. split; [|split].
  - intros Hnu Hnr. rewrite Heq.
    unfold active_in_enumeration_order, active_in_insertion_order.
    now rewrite (enumeration_order_no_index Hnu), (enumeration_order_no_index Hnr).
  - intros d Hd. unfold contribution.
    destruct (active d) as [[|]|]; [discriminate| |]; reflexivity.
  - intros d v Hd. unfold contribution. rewrite Hd.
    now destruct (active d) as [[|]|].
Qed.

(** C1 as worded fails: two repo layers with the ids 2 and 1, preloaded in
    that order and both switched on, are returned with layer 1 first. *)
Lemma getAllActiveFeatures_not_insertion_order :
  wf_obj (uploaded demo_indexed_state) /\ wf_obj (repo demo_indexed_state)
  /\ obj_keys (repo demo_indexed_state) = ["2"; "1"]
  /\ getAllActiveFeatures demo_indexed_state
     <> active_in_insertion_order demo_indexed_state.
Proof.
  split; [constructor|]. split.
  - vm_compute. repeat constructor; simpl; intuition discriminate.
  - split; [reflexivity|]. vm_compute. intros H. discriminate H.
Qed.

Lemma getAllActiveFeatures_in_enumeration_order_witness :
  getAllActiveFeatures demo_named_state = active_in_insertion_order demo_named_state
  /\ List.length (getAllActiveFeatures demo_named_state) = 4.
Proof.
  assert (Hu : wf_obj (uploaded demo_named_state))
    by (vm_compute; repeat constructor; simpl; intuition discriminate).
  assert (Hr : wf_obj (repo demo_named_state))
    by (vm_compute; repeat constructor; simpl; intuition discriminate).
  destruct (getAllActiveFeatures_in_enumeration_order demo_named_state Hu Hr)
    as [_ [H _]].
  split; [|reflexivity].
  apply H; intros k Hk; vm_compute in Hk; intuition (subst; reflexivity).
Defined.

(* ================================================================== *)
(** ** The label field *)

Lemma type_is_eq cfg t : type_is cfg t = true <-> cfg_type cfg = Some t.
Proof.
  unfold type_is. destruct (cfg_type cfg) as [x|]; [|split; discriminate].
  destruct (String.eqb_spec x t) as [->|Hne]; split; try congruence; discriminate.
Qed.

Lemma type_is_neq cfg t : type_is cfg t = false <-> cfg_type cfg <> Some t.
Proof.
  rewrite <- type_is_eq. destruct (type_is cfg t); split; congruence.
Qed.

(** C2, as amended: an empty feature list gives null whatever the config
    declares.  For a non-empty feature list the first match wins: (1) a
    non-empty explicit [labelField] of the config; (2) the default of the
    type, "NAME_1" for municipality and "zone" for zone; (3) what the
    guess-label-property service answers for the features, when that service
    is there; (4) null. *)
Theorem computeLabelField_precedence (W : World) (cfg : LayerConfig) (fs : list Value) :
  (fs = [] -> computeLabelField W cfg (VArray fs) = Normal None)
  /\ (fs <> [] ->
      (string_truthy (cfg_labelField cfg) = true ->
       computeLabelField W cfg (VArray fs) = Normal (cfg_labelField cfg))
      /\ (string_truthy (cfg_labelField cfg) = false ->
          (cfg_type cfg = Some "municipality" ->
           computeLabelField W cfg (VArray fs) = Normal (Some "NAME_1"))
          /\ (cfg_type cfg = Some "zone" ->
              computeLabelField W cfg (VArray fs) = Normal (Some "zone"))
          /\ (cfg_type cfg <> Some "municipality" -> cfg_type cfg <> Some "zone" ->
              (forall guess, guessLabelProperty W = Some guess ->
                             computeLabelField W cfg (VArray fs) = guess (VArray fs))
              /\ (guessLabelProperty W = None ->
                  computeLabelField W cfg (VArray fs) = Normal None)))).
Proof.
  split.
  - intros ->. reflexivity.
  - intros Hne. unfold computeLabelField.
    destruct fs as [|f fs]; [congruence|]. simpl.
    split.
    + intros ->. reflexivity.
    + intros ->. repeat split.
      * intros Hm. apply type_is_eq in Hm. now rewrite Hm.
      * intros Hz. destruct (type_is cfg "municipality") eqn:Hm.
        -- apply type_is_eq in Hm. congruence.
        -- apply type_is_eq in Hz. now rewrite Hz.
      * intros guess Hg. apply type_is_neq in H, H0. now rewrite H, H0, Hg.
      * intros Hg. apply type_is_neq in H, H0. now rewrite H, H0, Hg.
Qed.

Lemma computeLabelField_precedence_witness :
  computeLabelField demo_world demo_labelled (VArray [VString "f"]) = Normal (Some "PARISH")
  /\ computeLabelField demo_world demo_zones (VArray [VString "f"]) = Normal (Some "zone")
  /\ computeLabelField demo_world demo_roads (VArray [VString "f"]) = Normal (Some "name")
  /\ computeLabelField demo_world demo_roads (VArray []) = Normal None.
Proof.
  pose proof (computeLabelField_precedence demo_world demo_labelled [VString "f"]) as [_ H1].
  pose proof (computeLabelField_precedence demo_world demo_zones [VString "f"]) as [_ H2].
  pose proof (computeLabelField_precedence demo_world demo_roads [VString "f"]) as [_ H3].
  pose proof (computeLabelField_precedence demo_world demo_roads []) as [H4 _].
  split; [|split; [|split]].
  - destruct H1 as [H1 _]; [discriminate|]. now apply H1.
  - destruct H2 as [_ H2]; [discriminate|].
    destruct H2 as [_ [H2 _]]; [reflexivity|]. now apply H2.
  - destruct H3 as [_ H3]; [discriminate|].
    destruct H3 as [_ [_ H3]]; [reflexivity|].
    destruct H3 as [H3 _]; [discriminate|discriminate|].
    exact (H3 _ eq_refl).
  - now apply H4.
Defined.

(** C2 as worded fails in its first tier: a config that declares the label
    field "PARISH" gets null, not "PARISH", when the feature list is empty. *)
Lemma computeLabelField_explicit_field_not_returned :
  cfg_labelField demo_labelled = Some "PARISH"
  /\ computeLabelField demo_world demo_labelled (VArray []) = Normal None
  /\ ~ (forall (W : World) (cfg : LayerConfig) (fs : list Value) (lf : string),
          cfg_labelField cfg = Some lf -> str_empty lf = false ->
          computeLabelField W cfg (VArray fs) = Normal (Some lf)).
Proof.
  split; [reflexivity|]. split; [reflexivity|].
  intros H.
  specialize (H demo_world demo_labelled [] "PARISH" eq_refl eq_refl).
  discriminate H.
Qed.

(* ================================================================== *)
(** ** Coordinate normalisation and CSV ingestion *)

Lemma utmToLatLon32620_total W easting northing :
  exists r, utmToLatLon32620 W easting northing = Normal r.
Proof.
  unfold utmToLatLon32620.
  destruct (proj4 W) as [p|]; [|now exists None].
  destruct (p utm20 wgs84 [easting; northing]) as [r|e]; simpl; [|now exists None].
  destruct (destructure_pair r) as [[lo la]|e]; simpl; [|now exists None].
  destruct (negb (Number_isFinite la) || negb (Number_isFinite lo)); simpl; eauto.
Qed.

(** C7: [utmToLatLon32620] never throws.  It returns null when [proj4] is
    not there, when the call raises (or answers something that cannot be
    destructured), and when the latitude or the longitude it produced is not
    a finite number; otherwise it returns the pair the service produced. *)
Theorem utmToLatLon32620_never_throws (W : World) (easting northing : Value) :
  (exists r, utmToLatLon32620 W easting northing = Normal r)
  /\ (proj4 W = None -> utmToLatLon32620 W easting northing = Normal None)
  /\ (forall p, proj4 W = Some p ->
      (forall e, p utm20 wgs84 [easting; northing] = Throw e ->
                 utmToLatLon32620 W easting northing = Normal None)
      /\ (forall r, p utm20 wgs84 [easting; northing] = Normal r ->
          (forall e, destructure_pair r = Throw e ->
                     utmToLatLon32620 W easting northing = Normal None)
          /\ (forall lo la, destructure_pair r = Normal (lo, la) ->
              (Number_isFinite la = false \/ Number_isFinite lo = false ->
               utmToLatLon32620 W easting northing = Normal None)
              /\ (Number_isFinite la = true -> Number_isFinite lo = true ->
                  utmToLatLon32620 W easting northing
                  = Normal (Some {| lat := la; lon := lo |}))))).
Proof.
  split; [apply utmToLatLon32620_total|].
  unfold utmToLatLon32620. split.
  - intros ->. reflexivity.
  - intros p ->. split.
    + intros e ->. reflexivity.
    + intros r ->. simpl. split.
      * intros e ->. reflexivity.
      * intros lo la ->. simpl. split.
        -- intros [-> | ->]; simpl; [reflexivity|].
           now rewrite orb_true_r.
        -- intros -> ->. reflexivity.
Qed.

Lemma utmToLatLon32620_never_throws_witness :
  utmToLatLon32620 demo_world (VNumber 500000) (VNumber 1200000)
  = Normal (Some {| lat := VNumber 12; lon := VNumber 5 |})
  /\ utmToLatLon32620 demo_world (VNumber 500000) (VNumber infinity) = Normal None
  /\ utmToLatLon32620 demo_world (VString "x") VNull = Normal None.
Proof.
  split; [|split].
  - destruct (utmToLatLon32620_never_throws demo_world (VNumber 500000) (VNumber 1200000))
      as [_ [_ H]].
    destruct (H _ eq_refl) as [_ H1].
    destruct (H1 _ eq_refl) as [_ H2].
    destruct (H2 _ _ eq_refl) as [_ H3].
    exact (H3 eq_refl eq_refl).
  - destruct (utmToLatLon32620_never_throws demo_world (VNumber 500000) (VNumber infinity))
      as [_ [_ H]].
    destruct (H _ eq_refl) as [_ H1].
    destruct (H1 _ eq_refl) as [_ H2].
    destruct (H2 _ _ eq_refl) as [H3 _].
    apply H3. left. reflexivity.
  - destruct (utmToLatLon32620_never_throws demo_world (VString "x") VNull)
      as [_ [_ H]].
    destruct (H _ eq_refl) as [H1 _].
    exact (H1 _ eq_refl).
Defined.

Section SpreadFacts.
Variable V : Type.
Implicit Types (o : JsObject V) (k : string).

Lemma insert_by_index_perm (n : N) (p : string * V) l :
  Permutation (insert_by_index n p l) ((n, p) :: l).
Proof.
  induction l as [|[m q] r IH]; simpl; [reflexivity|].
  destruct (n <? m)%N; [reflexivity|].
  rewrite IH. apply perm_swap.
Qed.

Lemma enumeration_order_perm o : Permutation (enumeration_order o) o.
Proof.
  unfold enumeration_order, named_props, is_array_index.
  induction o as [|p r IH]; simpl; [reflexivity|].
  destruct (array_index (fst p)) as [n|]; simpl.
  - rewrite insert_by_index_perm. simpl. now constructor.
  - rewrite <- Permutation_middle. now constructor.
Qed.

Lemma wf_enumeration_order o : wf_obj o -> wf_obj (enumeration_order o).
Proof.
  unfold wf_obj, obj_keys. intros H.
  eapply Permutation_NoDup; [|exact H].
  apply Permutation_map. symmetry. apply enumeration_order_perm.
Qed.

Lemma obj_get_enumeration_order o k :
  wf_obj o -> obj_get (enumeration_order o) k = obj_get o k.
Proof.
  intros Hwf. destruct (obj_get o k) as [v|] eqn:Hg.
  - apply In_obj_get; [now apply wf_enumeration_order|].
    apply obj_get_In in Hg.
    eapply Permutation_in; [symmetry; apply enumeration_order_perm | exact Hg].
  - apply obj_get_None_keys. apply obj_get_None_keys in Hg.
    intros Hin. apply Hg. unfold obj_keys in *.
    eapply Permutation_in; [|exact Hin].
    apply Permutation_map, enumeration_order_perm.
Qed.

Lemma obj_get_fold_set k : forall (es acc : JsObject V),
  wf_obj es ->
  obj_get (fold_left (fun a p => obj_set a (fst p) (snd p)) es acc) k
  = match obj_get es k with
    | Some v => Some v
    | None => obj_get acc k
    end.
Proof.
  unfold wf_obj, obj_keys.
  induction es as [|[k' v'] r IH]; intros acc Hnd; simpl; [reflexivity|].
  inversion Hnd as [|? ? Hnotin Hnd']; subst.
  rewrite IH by assumption.
  destruct (String.eqb_spec k' k) as [->|Hne].
  - assert (Hr : obj_get r k = None) by now apply obj_get_None_keys.
    rewrite Hr. apply obj_get_set_same.
  - destruct (obj_get r k); [reflexivity|]. now apply obj_get_set_other.
Qed.

(** A spread copy has the properties of the original. *)
Lemma obj_get_spread o k : wf_obj o -> obj_get (spread o) k = obj_get o k.
Proof.
  intros Hwf. unfold spread.
  rewrite obj_get_fold_set by now apply wf_enumeration_order.
  rewrite obj_get_enumeration_order by assumption.
  now destruct (obj_get o k).
Qed.
End SpreadFacts.

Lemma csv_loop_emitted W file : forall rows ms fs,
  csv_loop W file rows ms fs
  = Normal (ms ++ flat_map (csv_emitted_marker W file) rows,
            fs ++ flat_map (csv_emitted W file) rows).
Proof.
  induction rows as [|r rest IH]; intros ms fs; simpl.
  - now rewrite !app_nil_r.
  - unfold csv_emitted, csv_emitted_marker.
    assert (Hrow : exists o, csv_row W file r = Normal o).
    { unfold csv_row.
      destruct (negb _ || negb _); [now exists None|].
      destruct (utmToLatLon32620_total W
                  (VNumber (parseFloat W (row_field r "Easting")))
                  (VNumber (parseFloat W (row_field r "Northing")))) as [ll ->].
      simpl. destruct ll; eauto. }
    destruct Hrow as [o ->]. simpl.
    destruct o as [[m f]|]; rewrite IH; simpl; [|reflexivity].
    now rewrite <- !app_assoc.
Qed.

Lemma csv_row_emits W file r m f :
  csv_row W file r = Normal (Some (m, f)) ->
  PrimFloat.is_finite (parseFloat W (row_field r "Easting")) = true
  /\ PrimFloat.is_finite (parseFloat W (row_field r "Northing")) = true
  /\ exists ll,
       utmToLatLon32620 W (VNumber (parseFloat W (row_field r "Easting")))
                          (VNumber (parseFloat W (row_field r "Northing")))
       = Normal (Some ll)
       /\ m = csv_marker W file r ll /\ f = csv_feature file r ll.
Proof.
  unfold csv_row.
  destruct (PrimFloat.is_finite (parseFloat W (row_field r "Easting"))); simpl;
    [|discriminate].
  destruct (PrimFloat.is_finite (parseFloat W (row_field r "Northing"))); simpl;
    [|discriminate].
  destruct (utmToLatLon32620 W _ _) as [[ll|]|e]; simpl; try discriminate.
  intros [= <- <-]. repeat split. now exists ll.
Qed.

(** C6, as amended: for every CSV row the handler emits a feature if and
    only if both [Easting] and [Northing] parse to finite floats and the
    coordinate normaliser returns a non-null result for them; the features of
    the result are the emitted ones in row order; each emitted feature is a
    point at the normalised position whose properties carry the source-file
    tag and the reference system identifier EPSG:32620 and, for every other
    name, exactly the property of the row. *)
Theorem handleCsvUpload_rows (W : World) (file : File) :
  (forall r,
      (exists m f, csv_row W file r = Normal (Some (m, f)))
      <-> (PrimFloat.is_finite (parseFloat W (row_field r "Easting")) = true
           /\ PrimFloat.is_finite (parseFloat W (row_field r "Northing")) = true
           /\ exists ll,
               utmToLatLon32620 W (VNumber (parseFloat W (row_field r "Easting")))
                                  (VNumber (parseFloat W (row_field r "Northing")))
               = Normal (Some ll)))
  /\ (forall parse, Papa_parse W = Some parse ->
      exists l,
        snd (handleCsvUpload W file)
        = Normal (Some {| res_layer := Some l;
                          res_features :=
                            VArray (flat_map (csv_emitted W file)
                                             (parse (file_text file))) |}))
  /\ (forall r m f, csv_row W file r = Normal (Some (m, f)) ->
      exists ll,
        utmToLatLon32620 W (VNumber (parseFloat W (row_field r "Easting")))
                           (VNumber (parseFloat W (row_field r "Northing")))
        = Normal (Some ll)
        /\ f = VObject
                 [ ("type", VString "Feature");
                   ("geometry", VObject [ ("type", VString "Point");
                                          ("coordinates", VArray [lon ll; lat ll]) ]);
                   ("properties", VObject (feature_properties f)) ]
        /\ obj_get (feature_properties f) "__sourceFile" = Some (VString (file_name file))
        /\ obj_get (feature_properties f) "__assumedCRS" = Some (VString "EPSG:32620")
        /\ (wf_obj r ->
            forall k, k <> "__sourceFile" -> k <> "__assumedCRS" ->
                      obj_get (feature_properties f) k = obj_get r k)).
Proof.
  split; [|split].
  - intros r. split.
    + intros (m & f & H). apply csv_row_emits in H as (He & Hn & ll & Hll & _).
      repeat split; eauto.
    + intros (He & Hn & ll & Hll). unfold csv_row. rewrite He, Hn, Hll. simpl. eauto.
  - intros parse Hp. unfold handleCsvUpload. rewrite Hp. simpl.
    rewrite csv_loop_emitted. simpl. eauto.
  - intros r m f H. apply csv_row_emits in H as (_ & _ & ll & Hll & _ & ->).
    exists ll. split; [exact Hll|]. split; [reflexivity|].
    unfold feature_properties, csv_feature, csv_properties. simpl.
    split; [|split].
    + rewrite obj_get_set_other by discriminate. apply obj_get_set_same.
    + apply obj_get_set_same.
    + intros Hwf k Hk1 Hk2.
      rewrite !obj_get_set_other by congruence.
      now apply obj_get_spread.
Qed.

Lemma handleCsvUpload_rows_witness :
  obj_get (feature_properties
             (csv_feature demo_file demo_row {| lat := VNumber 12; lon := VNumber 5 |}))
          "Station"
  = Some (VString "N-14")
  /\ (exists l,
        snd (handleCsvUpload demo_world demo_file)
        = Normal (Some {| res_layer := Some l;
                          res_features :=
                            VArray [ csv_feature demo_file demo_row
                                       {| lat := VNumber 12; lon := VNumber 5 |};
                                     csv_feature demo_file demo_tagged_row
                                       {| lat := VNumber 12; lon := VNumber 5 |} ] |})).
Proof.
  destruct (handleCsvUpload_rows demo_world demo_file) as [_ [Hall H]].
  split.
  - destruct (H demo_row
                (csv_marker demo_world demo_file demo_row
                            {| lat := VNumber 12; lon := VNumber 5 |})
                (csv_feature demo_file demo_row {| lat := VNumber 12; lon := VNumber 5 |})
                eq_refl) as (ll & _ & _ & _ & _ & Hk).
    assert (Hwf : wf_obj demo_row)
      by (vm_compute; repeat constructor; simpl; intuition discriminate).
    exact (Hk Hwf "Station" ltac:(discriminate) ltac:(discriminate)).
  - exact (Hall _ eq_refl).
Defined.

(** C6 as worded fails in "all original row properties": the [__sourceFile]
    column of a row is replaced by the name of the uploaded file. *)
Lemma handleCsvUpload_row_property_replaced :
  wf_obj demo_tagged_row
  /\ obj_get demo_tagged_row "__sourceFile" = Some (VString "field-notes")
  /\ (exists m f,
        csv_row demo_world demo_file demo_tagged_row = Normal (Some (m, f))
        /\ obj_get (feature_properties f) "__sourceFile" = Some (VString "points.csv"))
  /\ ~ (forall W file r m f,
          wf_obj r -> csv_row W file r = Normal (Some (m, f)) ->
          forall k v, obj_get r k = Some v -> obj_get (feature_properties f) k = Some v).
Proof.
  assert (Hwf : wf_obj demo_tagged_row)
    by (vm_compute; repeat constructor; simpl; intuition discriminate).
  split; [exact Hwf|]. split; [reflexivity|]. split.
  - eexists. eexists. split; reflexivity.
  - intros H.
    specialize (H demo_world demo_file demo_tagged_row _ _ Hwf eq_refl
                  "__sourceFile" (VString "field-notes") eq_refl).
    discriminate H.
Qed.

(* ================================================================== *)
(** ** Grouping *)

Lemma obj_set_set_same {V} (o : JsObject V) k v v' :
  obj_set (obj_set o k v) k v' = obj_set o k v'.
Proof.
  induction o as [|[k0 v0] r IH]; simpl.
  - now rewrite String.eqb_refl.
  - destruct (String.eqb k0 k) eqn:E; simpl.
    + now rewrite String.eqb_refl.
    + now rewrite E, IH.
Qed.

(** A step on a key that names no inherited member creates the bucket when
    it is missing and appends to it. *)
Lemma group_step_plain groups cfg :
  builtin_member (group_key cfg) = None ->
  group_step groups cfg = Normal (bucket_added groups cfg).
Proof.
  intros Hb. unfold group_step, bucket_added, group_lookup. cbv zeta. rewrite Hb.
  destruct (obj_get groups (group_key cfg)) as [l|] eqn:Hg.
  - now rewrite Hg.
  - rewrite obj_get_set_same. simpl. now rewrite obj_set_set_same.
Qed.

(** A step on a key that names an inherited member dies, unless the mapping
    has an own bucket of that name. *)
Lemma group_step_member groups cfg a :
  builtin_member (group_key cfg) = Some a ->
  obj_get groups (group_key cfg) = None ->
  group_step groups cfg = Throw "TypeError: groups[t].push is not a function".
Proof.
  intros Hb Hg. unfold group_step, group_lookup. cbv zeta.
  rewrite Hg, Hb. cbv iota. now rewrite Hg.
Qed.

Lemma obj_get_bucket_added groups cfg t :
  obj_get (bucket_added groups cfg) t
  = if String.eqb (group_key cfg) t
    then Some (match obj_get groups t with Some l => l | None => [] end ++ [cfg])
    else obj_get groups t.
Proof.
  unfold bucket_added.
  destruct (String.eqb_spec (group_key cfg) t) as [<-|Hne].
  - apply obj_get_set_same.
  - now apply obj_get_set_other.
Qed.

Lemma obj_get_fold_bucket_added t : forall config groups,
  obj_get (fold_left bucket_added config groups) t
  = match obj_get groups t, configs_of_key config t with
    | Some l, b => Some (l ++ b)
    | None, [] => None
    | None, b => Some b
    end.
Proof.
  unfold configs_of_key.
  induction config as [|cfg rest IH]; intros groups; simpl.
  - destruct (obj_get groups t); [now rewrite app_nil_r|reflexivity].
  - rewrite IH, obj_get_bucket_added.
    destruct (String.eqb (group_key cfg) t).
    + destruct (obj_get groups t) as [l|]; simpl; [now rewrite <- app_assoc|reflexivity].
    + reflexivity.
Qed.

Lemma wf_fold_bucket_added : forall config groups,
  wf_obj groups -> wf_obj (fold_left bucket_added config groups).
Proof.
  induction config as [|cfg rest IH]; intros groups Hwf; simpl; [exact Hwf|].
  apply IH. unfold bucket_added. now apply wf_obj_set.
Qed.

Lemma group_fold_throw config e :
  fold_left (fun acc cfg => (groups <- acc ;; group_step groups cfg)%completion)
            config (Throw e) = Throw e.
Proof.
  induction config as [|cfg rest IH]; simpl; [reflexivity|exact IH].
Qed.

Lemma group_fold_plain : forall config groups,
  (forall cfg, In cfg config -> builtin_member (group_key cfg) = None) ->
  fold_left (fun acc cfg => (groups <- acc ;; group_step groups cfg)%completion)
            config (Normal groups)
  = Normal (fold_left bucket_added config groups).
Proof.
  induction config as [|cfg rest IH]; intros groups H; simpl; [reflexivity|].
  rewrite group_step_plain by (apply H; now left).
  apply IH. intros c Hc. apply H. now right.
Qed.

(** As soon as one config falls under a key that names an inherited member,
    the whole grouping dies: no mapping is returned. *)
Lemma group_fold_member : forall config groups,
  (forall k a, builtin_member k = Some a -> obj_get groups k = None) ->
  (exists cfg a, In cfg config /\ builtin_member (group_key cfg) = Some a) ->
  fold_left (fun acc cfg => (groups <- acc ;; group_step groups cfg)%completion)
            config (Normal groups)
  = Throw "TypeError: groups[t].push is not a function".
Proof.
  induction config as [|cfg rest IH]; intros groups Hinv (c & a & Hin & Hb);
    [destruct Hin|]. simpl.
  destruct (builtin_member (group_key cfg)) as [a0|] eqn:Hk.
  - rewrite (group_step_member _ _ Hk (Hinv _ _ Hk)). apply group_fold_throw.
  - rewrite (group_step_plain _ _ Hk). apply IH.
    + intros k a1 Hk1. rewrite obj_get_bucket_added.
      destruct (String.eqb_spec (group_key cfg) k) as [Heq|_]; [|now apply Hinv with a1].
      rewrite Heq in Hk. congruence.
    + destruct Hin as [->|Hin]; [congruence|]. now exists c, a.
Qed.

Lemma group_key_nonempty cfg : group_key cfg <> "".
Proof.
  unfold group_key. destruct (cfg_type cfg) as [[|c t]|]; simpl; discriminate.
Qed.

(** The key of a config is its type, or "other" when the type is absent or
    empty. *)
Lemma group_key_by_type cfg t :
  String.eqb (group_key cfg) t = falls_under t cfg.
Proof.
  unfold group_key, falls_under.
  destruct (cfg_type cfg) as [x|]; [|apply String.eqb_sym].
  destruct (str_empty x); [apply String.eqb_sym|reflexivity].
Qed.

Lemma configs_of_key_by_type config t : configs_of_key config t = bucket_of config t.
Proof.
  unfold configs_of_key, bucket_of. apply filter_ext. intros cfg. apply group_key_by_type.
Qed.

Lemma group_key_plain cfg :
  (forall t, cfg_type cfg = Some t -> builtin_member t = None) ->
  builtin_member (group_key cfg) = None.
Proof.
  intros H. unfold group_key.
  destruct (cfg_type cfg) as [x|]; [|reflexivity].
  destruct (str_empty x); [reflexivity|now apply H].
Qed.

Lemma group_key_member cfg t a :
  cfg_type cfg = Some t -> builtin_member t = Some a -> group_key cfg = t.
Proof.
  intros Ht Hb. unfold group_key. rewrite Ht.
  destruct t; [discriminate Hb|reflexivity].
Qed.

Lemma groupRepoLayers_plain config :
  (forall cfg t, In cfg config -> cfg_type cfg = Some t -> builtin_member t = None) ->
  groupRepoLayers config = Normal (fold_left bucket_added config []).
Proof.
  intros H. unfold groupRepoLayers. apply group_fold_plain.
  intros cfg Hin. apply group_key_plain. intros t. now apply H.
Qed.

Lemma groupRepoLayers_member config cfg t a :
  In cfg config -> cfg_type cfg = Some t -> builtin_member t = Some a ->
  groupRepoLayers config = Throw "TypeError: groups[t].push is not a function".
Proof.
  intros Hin Ht Hb. unfold groupRepoLayers. apply group_fold_member.
  - reflexivity.
  - exists cfg, a. split; [exact Hin|]. now rewrite (group_key_member _ Ht Hb).
Qed.

Lemma obj_get_grouped config t :
  obj_get (fold_left bucket_added config []) t
  = if is_nil (bucket_of config t) then None else Some (bucket_of config t).
Proof.
  rewrite obj_get_fold_bucket_added, configs_of_key_by_type. simpl.
  now destruct (bucket_of config t).
Qed.

(** C9, the defect: a config whose type is the name of a member of
    [Object.prototype] makes [groups[t]] answer with the inherited member,
    which has no [push]; the grouping throws and returns no mapping,
    whatever else the list holds. *)
Theorem groupRepoLayers_inherited_type_throws
        (config : list LayerConfig) (cfg : LayerConfig) (t : string) (a : option nat) :
  In cfg config -> cfg_type cfg = Some t -> builtin_member t = Some a ->
  groupRepoLayers config = Throw "TypeError: groups[t].push is not a function"
  /\ forall groups, groupRepoLayers config <> Normal groups.
Proof.
  intros Hin Ht Hb.
  rewrite (groupRepoLayers_member _ _ Hin Ht Hb). split; [reflexivity|discriminate].
Qed.

Lemma groupRepoLayers_inherited_type_throws_witness :
  groupRepoLayers [demo_zones; demo_cfg "legend" "toString" "legend.geojson"; demo_roads]
  = Throw "TypeError: groups[t].push is not a function"
  /\ forall groups,
       groupRepoLayers [demo_zones; demo_cfg "legend" "toString" "legend.geojson";
                        demo_roads]
       <> Normal groups.
Proof.
  apply (@groupRepoLayers_inherited_type_throws
           [demo_zones; demo_cfg "legend" "toString" "legend.geojson"; demo_roads]
           (demo_cfg "legend" "toString" "legend.geojson") "toString" (Some 0)).
  - right. now left.
  - reflexivity.
  - reflexivity.
Defined.

(** C10, the defect: a config without a type is lost together with every
    other config as soon as the list holds a config whose type is
    "constructor"; without that config it is grouped under "other". *)
Theorem groupRepoLayers_untyped_config_lost :
  groupRepoLayers [demo_untyped; demo_cfg "census" "constructor" "census.geojson"]
  = Throw "TypeError: groups[t].push is not a function"
  /\ groupRepoLayers [demo_untyped] = Normal [("other", [demo_untyped])].
Proof.
  split; reflexivity.
Qed.

(** The grouping of a list none of whose types names a member of
    [Object.prototype]: a mapping is returned in which no key occurs twice;
    under the key [t] it holds exactly the configs whose type is [t], with
    the configs whose type is absent or empty counted under "other", in the
    order in which they appear in the list; a key under which no config
    falls is absent, no key is empty and no config is dropped. *)
Theorem groupRepoLayers_buckets_by_type (config : list LayerConfig) :
  (forall cfg t, In cfg config -> cfg_type cfg = Some t -> builtin_member t = None) ->
  exists groups,
    groupRepoLayers config = Normal groups
    /\ wf_obj groups
    /\ (forall t, obj_get groups t
                  = if is_nil (bucket_of config t) then None else Some (bucket_of config t))
    /\ (forall k, In k (obj_keys groups) -> k <> "")
    /\ (forall cfg, In cfg config ->
          exists t l, obj_get groups t = Some l /\ In cfg l
                      /\ (cfg_type cfg = Some t
                          \/ (t = "other" /\ string_truthy (cfg_type cfg) = false))).
Proof.
  intros Hplain. exists (fold_left bucket_added config []).
  split; [now apply groupRepoLayers_plain|].
  split; [apply wf_fold_bucket_added; constructor|].
  split; [apply obj_get_grouped|]. split.
  - intros k Hk ->.
    destruct (obj_get (fold_left bucket_added config []) "") as [l|] eqn:Hg.
    + rewrite obj_get_grouped in Hg.
      destruct (bucket_of config "") as [|c b] eqn:Hb; [discriminate|].
      assert (Hc : In c (bucket_of config "")) by (rewrite Hb; now left).
      apply filter_In in Hc as [_ Hc]. rewrite <- group_key_by_type in Hc.
      apply String.eqb_eq in Hc. now apply group_key_nonempty in Hc.
    + now apply obj_get_None_keys in Hg.
  - intros cfg Hin. exists (group_key cfg), (bucket_of config (group_key cfg)).
    assert (Hc : In cfg (bucket_of config (group_key cfg))).
    { apply filter_In. split; [exact Hin|].
      rewrite <- group_key_by_type. apply String.eqb_refl. }
    split; [|split; [exact Hc|]].
    + rewrite obj_get_grouped. destruct (bucket_of config (group_key cfg)); [destruct Hc|].
      reflexivity.
    + unfold group_key, string_truthy.
      destruct (cfg_type cfg) as [x|]; [|now right].
      destruct (str_empty x); [now right|now left].
Qed.

Lemma groupRepoLayers_buckets_by_type_witness :
  exists groups,
    groupRepoLayers (demo_untyped :: demo_registry) = Normal groups
    /\ obj_get groups "other" = Some [demo_untyped; demo_broken]
    /\ obj_get groups "zone" = Some [demo_zones]
    /\ obj_get groups "municipality" = None.
Proof.
  destruct (groupRepoLayers_buckets_by_type (demo_untyped :: demo_registry))
    as (groups & Hg & _ & Hb & _).
  - intros cfg t [<-|[<-|[<-|[<-|[]]]]]; try discriminate; intros [= <-]; reflexivity.
  - exists groups. split; [exact Hg|]. rewrite !Hb. repeat split.
Defined.

(* ================================================================== *)
(** ** Feature identities under the changes of a partition *)

Lemma NoDup_app_disjoint {A} (l1 l2 : list A) a :
  NoDup (l1 ++ l2) -> In a l1 -> ~ In a l2.
Proof.
  induction l1 as [|x l1 IH]; simpl; [tauto|].
  intros Hnd [->|Hin] Hin2; inversion Hnd as [|? ? Hnotin Hnd']; subst.
  - apply Hnotin. apply in_or_app. now right.
  - now apply (IH Hnd' Hin).
Qed.

Lemma In_addr_tag_from vs : forall n a,
  In a (map addr (tag_from n vs)) <-> n <= a < n + List.length vs.
Proof.
  induction vs as [|v vs IH]; intros n a; simpl; [lia|].
  rewrite IH. lia.
Qed.

Lemma NoDup_addr_tag_from vs : forall n, NoDup (map addr (tag_from n vs)).
Proof.
  induction vs as [|v vs IH]; intros n; simpl; constructor; [|apply IH].
  rewrite In_addr_tag_from. lia.
Qed.

Lemma store_features_fresh n v e :
  features e = fst (store_features n v) ->
  NoDup (map addr (entry_feats e))
  /\ n <= snd (store_features n v)
  /\ (forall a, In a (map addr (entry_feats e)) -> n <= a < snd (store_features n v)).
Proof.
  unfold entry_feats, store_features. intros ->.
  destruct v as [| | | | |vs|]; simpl;
    try (split; [constructor|split; [lia|intros a []]]).
  split; [apply NoDup_addr_tag_from|split; [lia|]].
  intros a Ha. apply In_addr_tag_from in Ha. lia.
Qed.

Lemma addrs_of_get o k e a :
  obj_get o k = Some e -> In a (map addr (entry_feats e)) -> In a (addrs_of o).
Proof.
  intros Hg Ha. apply obj_get_In in Hg. unfold addrs_of.
  apply in_flat_map. now exists (k, e).
Qed.

Lemma addrs_of_set_In o k e a :
  In a (addrs_of (obj_set o k e)) -> In a (addrs_of o) \/ In a (map addr (entry_feats e)).
Proof.
  unfold addrs_of.
  induction o as [|[k' e'] r IH]; simpl.
  - rewrite app_nil_r. tauto.
  - destruct (String.eqb k' k); simpl; rewrite !in_app_iff; tauto.
Qed.

Lemma NoDup_addrs_of_set o k e :
  NoDup (addrs_of o) -> NoDup (map addr (entry_feats e)) ->
  (forall a, In a (map addr (entry_feats e)) -> ~ In a (addrs_of o)) ->
  NoDup (addrs_of (obj_set o k e)).
Proof.
  induction o as [|[k' e'] r IH]; intros Hnd He Hfresh.
  - simpl. now rewrite app_nil_r.
  - change (addrs_of ((k', e') :: r)) with (map addr (entry_feats e') ++ addrs_of r) in *.
    simpl. destruct (String.eqb k' k).
    + change (NoDup (map addr (entry_feats e) ++ addrs_of r)).
      apply NoDup_app; [exact He | now apply NoDup_app_remove_l in Hnd |].
      intros a Ha Hr. apply (Hfresh a Ha). apply in_or_app. now right.
    + change (NoDup (map addr (entry_feats e') ++ addrs_of (obj_set r k e))).
      apply NoDup_app; [now apply NoDup_app_remove_r in Hnd | |].
      * apply IH; [now apply NoDup_app_remove_l in Hnd | exact He |].
        intros a Ha Hr. apply (Hfresh a Ha). apply in_or_app. now right.
      * intros a Ha Hset. apply addrs_of_set_In in Hset as [Hr|Hnew].
        -- now apply (NoDup_app_disjoint _ _ _ Hnd Ha).
        -- apply (Hfresh a Hnew). apply in_or_app. now left.
Qed.

Lemma addrs_of_touch o o' : obj_touch o o' -> addrs_of o' = addrs_of o.
Proof.
  unfold obj_touch, addrs_of, entry_feats.
  induction 1 as [|[k e] [k' e'] r r' [_ [_ Hf]] _ IH]; simpl in *; [reflexivity|].
  now rewrite Hf, IH.
Qed.

Lemma obj_touch_refl o : obj_touch o o.
Proof.
  unfold obj_touch, touch. induction o; constructor; auto.
Qed.

Lemma obj_touch_trans o1 o2 o3 : obj_touch o1 o2 -> obj_touch o2 o3 -> obj_touch o1 o3.
Proof.
  unfold obj_touch, touch. intros H. revert o3.
  induction H as [|p1 p2 r1 r2 [Hk [Hl Hf]] _ IH]; intros o3 H23;
    inversion H23 as [|? p3 ? r3 [Hk' [Hl' Hf']] Hr]; subst; constructor.
  - repeat split; congruence.
  - now apply IH.
Qed.

Lemma obj_touch_set o k e e' :
  obj_get o k = Some e -> touch e e' -> obj_touch o (obj_set o k e').
Proof.
  unfold obj_touch.
  induction o as [|[k0 e0] r IH]; simpl; [discriminate|].
  destruct (String.eqb_spec k0 k) as [->|Hne].
  - intros [= ->] Ht. constructor; [now split|apply obj_touch_refl].
  - intros Hg Ht. constructor; [split; [reflexivity|split; reflexivity]|now apply IH].
Qed.

Lemma obj_touch_get o o' k :
  obj_touch o o' ->
  match obj_get o k, obj_get o' k with
  | Some e, Some e' => touch e e'
  | None, None => True
  | _, _ => False
  end.
Proof.
  unfold obj_touch.
  induction 1 as [|[k0 e0] [k1 e1] r r' [Hk Ht] _ IH]; simpl in *; [exact I|].
  subst k1. destruct (String.eqb k0 k); [exact Ht|exact IH].
Qed.

Lemma obj_touch_keys o o' : obj_touch o o' -> obj_keys o' = obj_keys o.
Proof.
  unfold obj_touch, obj_keys.
  induction 1 as [|p p' r r' [Hk _] _ IH]; simpl; [reflexivity|]. now rewrite Hk, IH.
Qed.

Lemma addrs_of_delete_In o k a : In a (addrs_of (obj_delete o k)) -> In a (addrs_of o).
Proof.
  unfold addrs_of, obj_delete. rewrite !in_flat_map.
  intros (p & Hp & Ha). apply filter_In in Hp as [Hp _]. now exists p.
Qed.

Lemma NoDup_addrs_of_delete o k : NoDup (addrs_of o) -> NoDup (addrs_of (obj_delete o k)).
Proof.
  induction o as [|[k' e'] r IH]; intros Hnd; [exact Hnd|].
  change (addrs_of ((k', e') :: r)) with (map addr (entry_feats e') ++ addrs_of r) in Hnd.
  unfold obj_delete. simpl. destruct (String.eqb k' k); simpl.
  - apply IH. now apply NoDup_app_remove_l in Hnd.
  - change (NoDup (map addr (entry_feats e') ++ addrs_of (obj_delete r k))).
    apply NoDup_app; [now apply NoDup_app_remove_r in Hnd | | ].
    + apply IH. now apply NoDup_app_remove_l in Hnd.
    + intros a Ha Hd. apply addrs_of_delete_In in Hd.
      now apply (NoDup_app_disjoint _ _ _ Hnd Ha).
Qed.

(** The features of a deleted entry are held by no entry that is left. *)
Lemma addrs_of_deleted_gone o k e a :
  NoDup (addrs_of o) -> obj_get o k = Some e ->
  In a (map addr (entry_feats e)) -> ~ In a (addrs_of (obj_delete o k)).
Proof.
  induction o as [|[k' e'] r IH]; intros Hnd; [discriminate|].
  change (addrs_of ((k', e') :: r)) with (map addr (entry_feats e') ++ addrs_of r) in Hnd.
  unfold obj_delete. simpl.
  destruct (String.eqb_spec k' k) as [->|Hne]; simpl.
  - intros [= ->] Ha Hd. apply addrs_of_delete_In in Hd.
    now apply (NoDup_app_disjoint _ _ _ Hnd Ha).
  - intros Hg Ha Hd.
    change (In a (map addr (entry_feats e') ++ addrs_of (obj_delete r k))) in Hd.
    apply in_app_or in Hd as [Hd|Hd].
    + apply (NoDup_app_disjoint _ _ _ Hnd Hd). now apply addrs_of_get with (k := k) (e := e).
    + apply NoDup_app_remove_l in Hnd. now apply (IH Hnd Hg Ha).
Qed.

Lemma part_step_fresh n n' o o' :
  part_step n n' o o' ->
  n <= n' /\ forall a, In a (addrs_of o') -> In a (addrs_of o) \/ n <= a < n'.
Proof.
  intros [-> Ht | k e v Hf -> -> | k -> ->].
  - split; [lia|]. intros a. rewrite (addrs_of_touch Ht). tauto.
  - destruct (store_features_fresh _ _ _ Hf) as (_ & Hle & Hin).
    split; [exact Hle|]. intros a Ha.
    apply addrs_of_set_In in Ha as [Ha|Ha]; [now left|right; now apply Hin].
  - split; [lia|]. intros a Ha. left. now apply addrs_of_delete_In in Ha.
Qed.

Lemma part_step_NoDup n n' o o' :
  part_step n n' o o' ->
  NoDup (addrs_of o) -> (forall a, In a (addrs_of o) -> a < n) -> NoDup (addrs_of o').
Proof.
  intros [-> Ht | k e v Hf -> -> | k -> ->] Hnd Hlt.
  - now rewrite (addrs_of_touch Ht).
  - destruct (store_features_fresh _ _ _ Hf) as (He & _ & Hin).
    apply NoDup_addrs_of_set; [exact Hnd|exact He|].
    intros a Ha Ho. apply Hin in Ha. apply Hlt in Ho. lia.
  - now apply NoDup_addrs_of_delete.
Qed.

Lemma estep_heap_wf s s' : estep s s' -> heap_wf s -> heap_wf s'.
Proof.
  unfold heap_wf. intros [Hp Hr | Hp Hu] (Hnu & Hnr & Hdis & Hlt).
  - destruct (part_step_fresh Hp) as [Hle Hin]. rewrite Hr.
    split; [|split; [exact Hnr|split]].
    + apply (part_step_NoDup Hp Hnu). intros a Ha. apply Hlt. now left.
    + intros a Ha Hb. apply Hin in Ha as [Ha|Ha]; [now apply (Hdis a)|].
      specialize (Hlt a (or_intror Hb)). lia.
    + intros a [Ha|Ha].
      * apply Hin in Ha as [Ha|Ha]; [|lia]. specialize (Hlt a (or_introl Ha)). lia.
      * specialize (Hlt a (or_intror Ha)). lia.
  - destruct (part_step_fresh Hp) as [Hle Hin]. rewrite Hu.
    split; [exact Hnu|split; [|split]].
    + apply (part_step_NoDup Hp Hnr). intros a Ha. apply Hlt. now right.
    + intros a Ha Hb. apply Hin in Hb as [Hb|Hb]; [now apply (Hdis a)|].
      specialize (Hlt a (or_introl Ha)). lia.
    + intros a [Ha|Ha].
      * specialize (Hlt a (or_introl Ha)). lia.
      * apply Hin in Ha as [Ha|Ha]; [|lia]. specialize (Hlt a (or_intror Ha)). lia.
Qed.

Lemma estep_never_again gone s s' : estep s s' -> never_again gone s -> never_again gone s'.
Proof.
  unfold never_again. intros [Hp Hr | Hp Hu] [Hlt Hno];
    destruct (part_step_fresh Hp) as [Hle Hin].
  - rewrite Hr. split.
    + intros a Ha. specialize (Hlt a Ha). lia.
    + intros a [Ha|Ha] Hg; [|now apply (Hno a (or_intror Ha))].
      apply Hin in Ha as [Ha|Ha]; [now apply (Hno a (or_introl Ha))|].
      specialize (Hlt a Hg). lia.
  - rewrite Hu. split.
    + intros a Ha. specialize (Hlt a Ha). lia.
    + intros a [Ha|Ha] Hg; [now apply (Hno a (or_introl Ha))|].
      apply Hin in Ha as [Ha|Ha]; [now apply (Hno a (or_intror Ha))|].
      specialize (Hlt a Hg). lia.
Qed.

Lemma esteps_heap_wf s s' : esteps s s' -> heap_wf s -> heap_wf s'.
Proof.
  induction 1; eauto using estep_heap_wf.
Qed.

Lemma esteps_never_again gone s s' : esteps s s' -> never_again gone s -> never_again gone s'.
Proof.
  induction 1; eauto using estep_never_again.
Qed.

Lemma esteps_trans s1 s2 s3 : esteps s1 s2 -> esteps s2 s3 -> esteps s1 s3.
Proof.
  induction 1; eauto using esteps_step.
Qed.

Lemma esteps_one s s' : estep s s' -> esteps s s'.
Proof.
  intros H. eapply esteps_step; [exact H|apply esteps_refl].
Qed.

(* ================================================================== *)
(** ** Every event is one change of the registry *)

Create HintDb frames.

Lemma frame_refl s : frame s s.
Proof. now repeat split. Qed.

Lemma frame_trans s1 s2 s3 : frame s1 s2 -> frame s2 s3 -> frame s1 s3.
Proof. unfold frame. intuition congruence. Qed.

Lemma frame_emit ev s : frame s (emit ev s).
Proof. now repeat split. Qed.

Lemma frame_set_map_layers s m : frame s (set_map_layers s m).
Proof. now repeat split. Qed.

Lemma frame_set_zoom_listeners s z : frame s (set_zoom_listeners s z).
Proof. now repeat split. Qed.

Lemma frame_addTo l s : frame s (addTo l s).
Proof. unfold addTo. destruct (hasLayer s l); now repeat split. Qed.

Lemma frame_removeLayer l s : frame s (removeLayer l s).
Proof. now repeat split. Qed.

Lemma frame_ema_setOpacity_opt l v s : frame s (ema_setOpacity_opt l v s).
Proof.
  unfold ema_setOpacity_opt. destruct (ema l) as [m|]; [|apply frame_refl].
  destruct (has_setOpacity m); [apply frame_emit|apply frame_refl].
Qed.

Lemma frame_ema_setActive_opt l b s : frame s (ema_setActive_opt l b s).
Proof.
  unfold ema_setActive_opt. destruct (ema l) as [m|]; [|apply frame_refl].
  destruct (has_setActive m); [apply frame_emit|apply frame_refl].
Qed.

Lemma frame_ema_setOpacity l v s s' : ema_setOpacity l v s = Normal s' -> frame s s'.
Proof.
  unfold ema_setOpacity. destruct (ema l) as [m|].
  - destruct (has_setOpacity m); [|discriminate]. intros [= <-]. apply frame_emit.
  - intros [= <-]. apply frame_refl.
Qed.

#[local] Hint Resolve frame_refl frame_emit frame_set_map_layers frame_set_zoom_listeners
  frame_addTo frame_removeLayer frame_ema_setOpacity_opt frame_ema_setActive_opt
  frame_ema_setOpacity : frames.

Lemma ustep_estep s s' : ustep s s' -> estep s s'.
Proof.
  intros [Hp Hr _ | Hn Ht Hu _]; [now apply es_uploaded|].
  apply es_repo; [|exact Hu]. now apply ps_touch.
Qed.

Lemma ustep_repo_touch s s' : ustep s s' -> obj_touch (repo s) (repo s').
Proof.
  intros [Hp Hr _ | Hn Ht Hu _]; [|exact Ht]. rewrite Hr. apply obj_touch_refl.
Qed.

Lemma ustep_script_trace s s' : ustep s s' -> script_trace s' = script_trace s.
Proof.
  now intros [_ _ H | _ _ _ H].
Qed.

Lemma script_trace_emit ev s :
  script_trace (emit ev s) = script_trace s ++ (if loud ev then [ev] else []).
Proof.
  unfold script_trace. simpl. rewrite filter_app. simpl. now destruct (loud ev).
Qed.

Lemma qframe_refl s : qframe s s.
Proof. split; [apply frame_refl|reflexivity]. Qed.

Lemma qframe_trans s1 s2 s3 : qframe s1 s2 -> qframe s2 s3 -> qframe s1 s3.
Proof.
  intros [H1 E1] [H2 E2]. split; [now apply frame_trans with s2|congruence].
Qed.

Lemma qframe_emit ev s : loud ev = false -> qframe s (emit ev s).
Proof.
  intros H. split; [apply frame_emit|].
  rewrite script_trace_emit, H. apply app_nil_r.
Qed.

Lemma qframe_addTo l s : qframe s (addTo l s).
Proof.
  split; [apply frame_addTo|]. unfold addTo. now destruct (hasLayer s l).
Qed.

Lemma qframe_removeLayer l s : qframe s (removeLayer l s).
Proof. now split. Qed.

Lemma qframe_ema_setOpacity_opt l v s : qframe s (ema_setOpacity_opt l v s).
Proof.
  unfold ema_setOpacity_opt. destruct (ema l) as [m|]; [|apply qframe_refl].
  destruct (has_setOpacity m); [now apply qframe_emit|apply qframe_refl].
Qed.

Lemma qframe_ema_setActive_opt l b s : qframe s (ema_setActive_opt l b s).
Proof.
  unfold ema_setActive_opt. destruct (ema l) as [m|]; [|apply qframe_refl].
  destruct (has_setActive m); [now apply qframe_emit|apply qframe_refl].
Qed.

Lemma qframe_ema_setOpacity l v s s' : ema_setOpacity l v s = Normal s' -> qframe s s'.
Proof.
  unfold ema_setOpacity. destruct (ema l) as [m|].
  - destruct (has_setOpacity m); [|discriminate]. intros [= <-]. now apply qframe_emit.
  - intros [= <-]. apply qframe_refl.
Qed.

Lemma ustep_frame s s' : qframe s s' -> ustep s s'.
Proof.
  intros [(Hu & Hr & Hn) Ht]. apply us_uploaded; [|exact Hr|exact Ht].
  apply ps_touch; [exact Hn|]. rewrite Hu. apply obj_touch_refl.
Qed.

Lemma ustep_then_frame s s1 s2 : ustep s s1 -> qframe s1 s2 -> ustep s s2.
Proof.
  intros [Hp Hr Ht | Hn Ht Hu Hl] [(Hu2 & Hr2 & Hn2) Ht2].
  - apply us_uploaded; [now rewrite Hu2, Hn2 | congruence | congruence].
  - apply us_repo; [congruence | now rewrite Hr2 | congruence | congruence].
Qed.

Lemma estep_frame s s' : frame s s' -> estep s s'.
Proof.
  intros (Hu & Hr & Hn). apply es_uploaded; [|exact Hr].
  apply ps_touch; [exact Hn|]. rewrite Hu. apply obj_touch_refl.
Qed.

Lemma estep_then_frame s s1 s2 : estep s s1 -> frame s1 s2 -> estep s s2.
Proof.
  intros [Hp Hr | Hp Hu] (Hu2 & Hr2 & Hn2).
  - apply es_uploaded; [now rewrite Hu2, Hn2 | congruence].
  - apply es_repo; [now rewrite Hr2, Hn2 | congruence].
Qed.

Lemma ustep_touch_uploaded s k e e' :
  obj_get (uploaded s) k = Some e -> touch e e' ->
  ustep s (set_uploaded s (obj_set (uploaded s) k e')).
Proof.
  intros Hg Ht. apply us_uploaded; [|reflexivity|reflexivity].
  apply ps_touch; [reflexivity|]. now apply obj_touch_set with (e := e).
Qed.

Lemma ustep_touch_repo s k e e' :
  obj_get (repo s) k = Some e -> touch e e' ->
  ustep s (set_repo s (obj_set (repo s) k e')).
Proof.
  intros Hg Ht. apply us_repo; [reflexivity| |reflexivity|reflexivity].
  now apply obj_touch_set with (e := e).
Qed.

Lemma touch_with_active e b : touch e (with_active e b).
Proof. now split. Qed.

Lemma touch_with_opacity e v : touch e (with_opacity e v).
Proof. now split. Qed.

Lemma ustep_commit_uploaded name id result lf s :
  ustep s (commit_uploaded name id result lf s).
Proof.
  unfold commit_uploaded.
  destruct (store_features (heap_next s) (res_features result)) as [fs n] eqn:Es.
  apply us_uploaded; [|reflexivity|reflexivity].
  apply ps_commit with (k := id) (e := uploaded_entry name id result fs lf)
                       (v := res_features result);
    [now rewrite Es | now rewrite Es | reflexivity].
Qed.

Lemma estep_commit_repo cfg built feats lf s :
  estep s (commit_repo cfg built feats lf s).
Proof.
  unfold commit_repo.
  destruct (store_features (heap_next s) feats) as [fs n] eqn:Es.
  apply es_repo; [|reflexivity].
  apply ps_commit with (k := cfg_id cfg) (e := repo_entry cfg built fs lf) (v := feats);
    [now rewrite Es | now rewrite Es | reflexivity].
Qed.

(** Running a handler: unfold the monad and compute. *)
Ltac run_handler h :=
  unfold h; unfold exec, ebind, gets, modify, eret, lift, the_layer; simpl.

Lemma obj_delete_absent {V} (o : JsObject V) k : obj_get o k = None -> obj_delete o k = o.
Proof.
  unfold obj_delete. induction o as [|[k0 v0] r IH]; simpl; [reflexivity|].
  destruct (String.eqb k0 k); [discriminate|]. intros H. simpl. now rewrite IH.
Qed.

Lemma frame_write_member m w s : frame s (write_member m w s).
Proof. now repeat split. Qed.

Lemma qframe_write_member m w s : qframe s (write_member m w s).
Proof. now repeat split. Qed.

Lemma qframe_inherited_write o w s : qframe s (inherited_write o w s).
Proof.
  destruct o; simpl; auto using qframe_refl, qframe_write_member.
Qed.

Lemma uploaded_inherited_write o w s : uploaded (inherited_write o w s) = uploaded s.
Proof. now destruct o. Qed.

Lemma repo_inherited_write o w s : repo (inherited_write o w s) = repo s.
Proof. now destruct o. Qed.

Lemma map_layers_inherited_write o w s :
  map_layers (inherited_write o w s) = map_layers s.
Proof. now destruct o. Qed.

(** *** The panel's handlers in closed form

    With an own entry under the id a handler does what it is written for;
    otherwise all it can leave behind is an assignment on an inherited
    member, or the alert of the repo toggle. *)

Lemma exec_toggle_uploaded id isOn slider s :
  exec (toggle_uploaded id isOn slider) s
  = match obj_get (uploaded s) id with
    | None => inherited_write (lookup s (uploaded s) id) (WActive isOn) s
    | Some e =>
        let s1 := set_uploaded s (obj_set (uploaded s) id (with_active e isOn)) in
        match layer e with
        | None => s1
        | Some l =>
            if isOn then ema_setOpacity_opt l slider (addTo l s1) else removeLayer l s1
        end
    end.
Proof.
  run_handler toggle_uploaded. unfold lookup.
  destruct (obj_get (uploaded s) id) as [e|]; simpl.
  - destruct (layer e) as [l|]; simpl; [|reflexivity].
    destruct isOn; simpl; [|reflexivity].
    unfold ema_setOpacity, ema_setOpacity_opt.
    destruct (ema l) as [m|]; simpl; [|reflexivity].
    destruct (has_setOpacity m); reflexivity.
  - destruct (proto_value s id) as [v|]; simpl.
    + destruct (truthy v); reflexivity.
    + destruct (builtin_member id); reflexivity.
Qed.

Lemma exec_toggle_repo cfg isOn slider s :
  exec (toggle_repo cfg isOn slider) s
  = match obj_get (repo s) (cfg_id cfg) with
    | None =>
        if found_truthy (lookup s (repo s) (cfg_id cfg))
        then inherited_write (lookup s (repo s) (cfg_id cfg)) (WActive isOn) s
        else emit (EvAlert ("Layer not ready yet: " ++ cfg_name cfg)) s
    | Some e =>
        let s1 := set_repo s (obj_set (repo s) (cfg_id cfg) (with_active e isOn)) in
        match layer e with
        | None => s1
        | Some l =>
            if isOn then ema_setOpacity_opt l slider (addTo l s1) else removeLayer l s1
        end
    end.
Proof.
  run_handler toggle_repo. unfold lookup.
  destruct (obj_get (repo s) (cfg_id cfg)) as [e|]; simpl.
  - destruct (layer e) as [l|]; simpl; [|reflexivity].
    destruct isOn; simpl; [|reflexivity].
    unfold ema_setOpacity, ema_setOpacity_opt.
    destruct (ema l) as [m|]; simpl; [|reflexivity].
    destruct (has_setOpacity m); reflexivity.
  - destruct (proto_value s (cfg_id cfg)) as [v|]; simpl.
    + destruct (truthy v); reflexivity.
    + destruct (builtin_member (cfg_id cfg)); reflexivity.
Qed.

Lemma exec_slider_uploaded id val s :
  exec (slider_uploaded id val) s
  = match obj_get (uploaded s) id with
    | None => inherited_write (lookup s (uploaded s) id) (WOpacity val) s
    | Some e =>
        let s1 := set_uploaded s (obj_set (uploaded s) id (with_opacity e val)) in
        if flag_truthy (active e) then
          match layer e with
          | Some l => ema_setOpacity_opt l val s1
          | None => s1
          end
        else s1
    end.
Proof.
  run_handler slider_uploaded. unfold lookup.
  destruct (obj_get (uploaded s) id) as [e|]; simpl.
  - destruct (flag_truthy (active e)); simpl; [|reflexivity].
    destruct (layer e); reflexivity.
  - destruct (proto_value s id) as [v|]; simpl.
    + destruct (truthy v); reflexivity.
    + destruct (builtin_member id); reflexivity.
Qed.

Lemma exec_slider_repo cfg val s :
  exec (slider_repo cfg val) s
  = match obj_get (repo s) (cfg_id cfg) with
    | None => inherited_write (lookup s (repo s) (cfg_id cfg)) (WOpacity val) s
    | Some e =>
        let s1 := set_repo s (obj_set (repo s) (cfg_id cfg) (with_opacity e val)) in
        if flag_truthy (active e) then
          match layer e with
          | Some l => ema_setOpacity_opt l val s1
          | None => s1
          end
        else s1
    end.
Proof.
  run_handler slider_repo. unfold lookup.
  destruct (obj_get (repo s) (cfg_id cfg)) as [e|]; simpl.
  - destruct (flag_truthy (active e)); simpl; [|reflexivity].
    destruct (layer e); reflexivity.
  - destruct (proto_value s (cfg_id cfg)) as [v|]; simpl.
    + destruct (truthy v); reflexivity.
    + destruct (builtin_member (cfg_id cfg)); reflexivity.
Qed.

Lemma set_uploaded_same s : set_uploaded s (uploaded s) = s.
Proof. now destruct s. Qed.

Lemma exec_onRemove id s :
  exec (onRemove id) s
  = match obj_get (uploaded s) id with
    | None => s
    | Some e =>
        let s0 := match layer e with
                  | Some l => if hasLayer s l then removeLayer l s else s
                  | None => s
                  end in
        set_uploaded s0 (obj_delete (uploaded s0) id)
    end.
Proof.
  run_handler onRemove. unfold lookup.
  destruct (obj_get (uploaded s) id) as [e|] eqn:Hg; simpl.
  - destruct (layer e); reflexivity.
  - assert (Hsame : set_uploaded s (obj_delete (uploaded s) id) = s)
      by (rewrite (obj_delete_absent _ _ Hg); apply set_uploaded_same).
    destruct (proto_value s id) as [v|]; simpl.
    + destruct (truthy v); simpl; [exact Hsame|reflexivity].
    + destruct (builtin_member id); simpl; [exact Hsame|reflexivity].
Qed.

Lemma exec_upload_commit W name id result s :
  exec (upload_commit W name id result) s
  = match computeLabelField W upload_cfg (res_features result) with
    | Normal labelField => commit_uploaded name id result labelField s
    | Throw _ => s
    end.
Proof.
  run_handler upload_commit.
  now destruct (computeLabelField W upload_cfg (res_features result)).
Qed.

Lemma ustep_onRemove id s : ustep s (exec (onRemove id) s).
Proof.
  rewrite exec_onRemove.
  destruct (obj_get (uploaded s) id) as [obj|]; [|apply ustep_frame, qframe_refl].
  cbv zeta.
  assert (H : forall s0, qframe s s0 ->
                         ustep s (set_uploaded s0 (obj_delete (uploaded s0) id))).
  { intros s0 [(Hu & Hr & Hn) Ht]. apply us_uploaded; simpl; [|exact Hr|exact Ht].
    apply ps_delete with (k := id); [exact Hn|now rewrite Hu]. }
  destruct (layer obj) as [l|]; simpl; apply H; [|apply qframe_refl].
  destruct (hasLayer s l); auto using qframe_refl, qframe_removeLayer.
Qed.

Lemma ustep_toggle_uploaded id isOn slider s : ustep s (exec (toggle_uploaded id isOn slider) s).
Proof.
  rewrite exec_toggle_uploaded.
  destruct (obj_get (uploaded s) id) as [obj|] eqn:Hg;
    [|apply ustep_frame, qframe_inherited_write].
  cbv zeta.
  pose proof (ustep_touch_uploaded s id Hg (touch_with_active obj isOn)) as Ht.
  destruct (layer obj) as [l|]; [|exact Ht].
  destruct isOn.
  - eapply ustep_then_frame; [exact Ht|].
    eapply qframe_trans; [apply qframe_addTo|apply qframe_ema_setOpacity_opt].
  - eapply ustep_then_frame; [exact Ht|]. apply qframe_removeLayer.
Qed.

Lemma ustep_toggle_repo cfg isOn slider s : ustep s (exec (toggle_repo cfg isOn slider) s).
Proof.
  rewrite exec_toggle_repo.
  destruct (obj_get (repo s) (cfg_id cfg)) as [obj|] eqn:Hg.
  - cbv zeta.
    pose proof (ustep_touch_repo s (cfg_id cfg) Hg (touch_with_active obj isOn)) as Ht.
    destruct (layer obj) as [l|]; [|exact Ht].
    destruct isOn.
    + eapply ustep_then_frame; [exact Ht|].
      eapply qframe_trans; [apply qframe_addTo|apply qframe_ema_setOpacity_opt].
    + eapply ustep_then_frame; [exact Ht|]. apply qframe_removeLayer.
  - destruct (found_truthy (lookup s (repo s) (cfg_id cfg))).
    + apply ustep_frame, qframe_inherited_write.
    + now apply ustep_frame, qframe_emit.
Qed.

Lemma ustep_slider_uploaded id val s : ustep s (exec (slider_uploaded id val) s).
Proof.
  rewrite exec_slider_uploaded.
  destruct (obj_get (uploaded s) id) as [obj|] eqn:Hg;
    [|apply ustep_frame, qframe_inherited_write].
  cbv zeta.
  pose proof (ustep_touch_uploaded s id Hg (touch_with_opacity obj val)) as Ht.
  destruct (flag_truthy (active obj)); [|exact Ht].
  destruct (layer obj) as [l|]; [|exact Ht].
  eapply ustep_then_frame; [exact Ht|]. apply qframe_ema_setOpacity_opt.
Qed.

Lemma ustep_slider_repo cfg val s : ustep s (exec (slider_repo cfg val) s).
Proof.
  rewrite exec_slider_repo.
  destruct (obj_get (repo s) (cfg_id cfg)) as [obj|] eqn:Hg;
    [|apply ustep_frame, qframe_inherited_write].
  cbv zeta.
  pose proof (ustep_touch_repo s (cfg_id cfg) Hg (touch_with_opacity obj val)) as Ht.
  destruct (flag_truthy (active obj)); [|exact Ht].
  destruct (layer obj) as [l|]; [|exact Ht].
  eapply ustep_then_frame; [exact Ht|]. apply qframe_ema_setOpacity_opt.
Qed.

Lemma ustep_upload_commit W name id result s :
  ustep s (exec (upload_commit W name id result) s).
Proof.
  run_handler upload_commit.
  destruct (computeLabelField W upload_cfg (res_features result)); simpl.
  - apply ustep_commit_uploaded.
  - apply ustep_frame, qframe_refl.
Qed.

Lemma run_op_ustep W op s : ustep s (run_op W op s).
Proof.
  destruct op; simpl;
    auto using ustep_upload_commit, ustep_toggle_uploaded, ustep_slider_uploaded,
               ustep_onRemove, ustep_toggle_repo, ustep_slider_repo.
Qed.

Lemma run_op_estep W op s : estep s (run_op W op s).
Proof.
  apply ustep_estep, run_op_ustep.
Qed.

Lemma run_ops_repo_touch W ops : forall s, obj_touch (repo s) (repo (run_ops W ops s)).
Proof.
  induction ops as [|op ops IH]; intros s; simpl; [apply obj_touch_refl|].
  eapply obj_touch_trans; [apply ustep_repo_touch, run_op_ustep|apply IH].
Qed.

Lemma run_ops_esteps W ops : forall s, esteps s (run_ops W ops s).
Proof.
  induction ops as [|op ops IH]; intros s; simpl; [apply esteps_refl|].
  eapply esteps_step; [apply run_op_estep|apply IH].
Qed.

(* ================================================================== *)
(** ** The preloader, step by step *)

Lemma exec_preload_resume W cfg resp s :
  exec (preload_resume W cfg resp) s = preload_outcome W cfg resp s.
Proof.
  unfold exec, preload_resume, preload_outcome, etry, ebind, lift, modify, eret, the_layer.
  destruct (preload_build W cfg resp) as [[[built feats] lf]|e]; simpl; [|reflexivity].
  destruct (built_layer built) as [l|]; simpl; [|reflexivity].
  destruct (ema l) as [m|]; simpl; [|reflexivity].
  destruct (has_updateZoomStyles m); reflexivity.
Qed.

Lemma estep_preload_outcome W cfg resp s : estep s (preload_outcome W cfg resp s).
Proof.
  unfold preload_outcome.
  destruct (preload_build W cfg resp) as [[[built feats] lf]|e];
    [|apply estep_frame; auto with frames].
  pose proof (estep_commit_repo cfg built feats lf s) as Hc.
  destruct (built_layer built) as [l|];
    [|apply estep_then_frame with (1 := Hc); auto with frames].
  destruct (ema l) as [m|]; [|exact Hc].
  destruct (has_updateZoomStyles m); [|exact Hc].
  apply estep_then_frame with (1 := Hc); auto with frames.
Qed.

Lemma preload_loop_esteps W registry : forall sched s,
  esteps s (preload_loop W registry sched s).
Proof.
  induction registry as [|cfg rest IH]; intros sched s; simpl; [apply esteps_refl|].
  destruct (found_truthy (lookup s (repo s) (cfg_id cfg))); [apply IH|].
  rewrite exec_preload_resume.
  eapply esteps_step; [apply estep_frame, frame_emit|].
  eapply esteps_trans; [apply run_ops_esteps|].
  eapply esteps_step; [apply estep_preload_outcome|apply IH].
Qed.

Lemma estep_force_roads s : estep s (force_roads s).
Proof.
  unfold force_roads.
  destruct (obj_get (repo s) roadsId) as [roadsObj|] eqn:Hg; [|apply estep_frame, frame_refl].
  destruct (layer roadsObj) as [l|]; [|apply estep_frame, frame_refl].
  eapply estep_then_frame;
    [exact (ustep_estep (ustep_touch_repo s roadsId Hg (touch_with_active roadsObj true)))|].
  eapply frame_trans; [|apply frame_ema_setOpacity_opt].
  eapply frame_trans; [|apply frame_ema_setActive_opt].
  destruct (hasLayer _ l); [apply frame_refl|apply frame_addTo].
Qed.

Lemma preload_finish_esteps s : esteps s (preload_finish s).
Proof.
  unfold preload_finish.
  eapply esteps_step; [apply estep_frame, frame_emit|].
  eapply esteps_step; [apply estep_frame, frame_emit|].
  apply esteps_one, estep_force_roads.
Qed.

Lemma run_action_esteps W a s : esteps s (run_action W a s).
Proof.
  destruct a as [op|registry sched]; simpl.
  - apply esteps_one, run_op_estep.
  - unfold preloadRepoLayers_sched.
    eapply esteps_trans; [apply preload_loop_esteps|apply preload_finish_esteps].
Qed.

Lemma run_actions_esteps W acts : forall s, esteps s (run_actions W acts s).
Proof.
  induction acts as [|a acts IH]; intros s; simpl; [apply esteps_refl|].
  eapply esteps_trans; [apply run_action_esteps|apply IH].
Qed.

Lemma heap_wf_init : heap_wf init_state.
Proof.
  repeat split; simpl; try constructor; tauto.
Qed.

(** Every state the script can reach keeps its feature objects apart. *)
Lemma heap_wf_reachable W acts : heap_wf (run_actions W acts init_state).
Proof.
  eapply esteps_heap_wf; [apply run_actions_esteps|apply heap_wf_init].
Qed.

Lemma part_step_wf n n' o o' : part_step n n' o o' -> wf_obj o -> wf_obj o'.
Proof.
  intros [_ Ht | k e v _ _ -> | k _ ->] Hwf.
  - unfold wf_obj. now rewrite (obj_touch_keys Ht).
  - now apply wf_obj_set.
  - now apply wf_obj_delete.
Qed.

Lemma esteps_wf s s' :
  esteps s s' -> wf_obj (uploaded s) /\ wf_obj (repo s) ->
  wf_obj (uploaded s') /\ wf_obj (repo s').
Proof.
  induction 1 as [|s s1 s2 Hstep _ IH]; [tauto|].
  intros [Hu Hr]. apply IH.
  destruct Hstep as [Hp Heq | Hp Heq]; rewrite Heq; split;
    eauto using part_step_wf.
Qed.

(** In every state the script can reach, no partition holds two entries
    under one id. *)
Lemma wf_reachable W acts :
  wf_obj (uploaded (run_actions W acts init_state))
  /\ wf_obj (repo (run_actions W acts init_state)).
Proof.
  eapply esteps_wf; [apply run_actions_esteps|]. split; constructor.
Qed.

(* ================================================================== *)
(** ** Removal of an uploaded layer *)

Lemma onRemove_present id e s :
  obj_get (uploaded s) id = Some e ->
  uploaded (exec (onRemove id) s) = obj_delete (uploaded s) id
  /\ repo (exec (onRemove id) s) = repo s
  /\ heap_next (exec (onRemove id) s) = heap_next s.
Proof.
  intros Hg. rewrite exec_onRemove, Hg. cbv zeta.
  destruct (layer e) as [l|]; simpl; [|now repeat split].
  destruct (hasLayer s l); now repeat split.
Qed.

Lemma getAllActiveFeatures_held s f :
  In f (getAllActiveFeatures s) ->
  In (addr f) (addrs_of (uploaded s)) \/ In (addr f) (addrs_of (repo s)).
Proof.
  unfold getAllActiveFeatures, collect_active. intros H.
  assert (Hheld : forall part k d fs,
             In (k, d) part -> features d = FeatArray fs -> In f fs ->
             In (addr f) (addrs_of part)).
  { intros part k d fs Hin Hfs Hf. unfold addrs_of. apply in_flat_map.
    exists (k, d). split; [exact Hin|]. simpl. unfold entry_feats. rewrite Hfs.
    now apply in_map. }
  apply collect_active_held in H as [H|(k & d & fs & Hin & Hfs & Hf)]; [|right; eauto].
  apply collect_active_held in H as [[]|(k & d & fs & Hin & Hfs & Hf)]. left. eauto.
Qed.

(** C4: once an uploaded entry has been removed, whatever the panel and the
    preloader do afterwards, no feature object of that entry is returned by
    [getAllActiveFeatures] again; whether the entry was active when it was
    removed makes no difference. *)
Theorem removed_features_never_return
        (W : World) (before after : list Action) (id : string) (e : LayerEntry) (f : Feature) :
  let s0 := run_actions W before init_state in
  obj_get (uploaded s0) id = Some e ->
  In f (entry_feats e) ->
  ~ In f (getAllActiveFeatures (run_actions W after (run_op W (OpRemove id) s0))).
Proof.
  intros s0 Hg Hf Hq.
  pose proof (heap_wf_reachable W before) as (Hnu & Hnr & Hdis & Hlt). fold s0 in Hnu, Hnr, Hdis, Hlt.
  destruct (onRemove_present id s0 Hg) as (Hu1 & Hr1 & Hn1).
  set (gone := map addr (entry_feats e)).
  assert (Hheld : forall a, In a gone -> In a (addrs_of (uploaded s0))).
  { intros a Ha. now apply addrs_of_get with (k := id) (e := e). }
  assert (Hna : never_again gone (run_op W (OpRemove id) s0)).
  { simpl. split.
    - intros a Ha. rewrite Hn1. apply Hlt. left. now apply Hheld.
    - rewrite Hu1, Hr1. intros a [Ha|Ha] Hgone.
      + now apply (@addrs_of_deleted_gone (uploaded s0) id e a Hnu Hg Hgone).
      + apply (Hdis a); [now apply Hheld|exact Ha]. }
  apply (esteps_never_again (run_actions_esteps W after _)) in Hna as [_ Hno].
  apply getAllActiveFeatures_held in Hq.
  apply (Hno (addr f) Hq). unfold gone. now apply in_map.
Qed.

Lemma removed_features_never_return_witness :
  ~ In {| addr := 0; fval := VString "a" |}
       (getAllActiveFeatures
          (run_actions demo_world demo_after_removal
             (run_op demo_world (OpRemove "upload_1a_17")
                (run_actions demo_world demo_before_removal init_state))))
  /\ List.length
       (getAllActiveFeatures
          (run_actions demo_world demo_after_removal
             (run_op demo_world (OpRemove "upload_1a_17")
                (run_actions demo_world demo_before_removal init_state)))) = 3.
Proof.
  split; [|reflexivity].
  eapply (@removed_features_never_return demo_world demo_before_removal
            demo_after_removal "upload_1a_17").
  - reflexivity.
  - left. reflexivity.
Defined.

(* ================================================================== *)
(** ** What the preloader does to the repo partition and to the log *)

Lemma run_ops_script_trace W ops : forall s, script_trace (run_ops W ops s) = script_trace s.
Proof.
  induction ops as [|op ops IH]; intros s; simpl; [reflexivity|].
  rewrite IH. apply ustep_script_trace, run_op_ustep.
Qed.

Lemma touch_get_none o o' k : obj_touch o o' -> obj_get o k = None -> obj_get o' k = None.
Proof.
  intros Ht Hg. pose proof (obj_touch_get k Ht) as H. rewrite Hg in H.
  now destruct (obj_get o' k).
Qed.

Lemma touch_get_some o o' k e :
  obj_touch o o' -> obj_get o k = Some e ->
  exists e', obj_get o' k = Some e' /\ touch e e'.
Proof.
  intros Ht Hg. pose proof (obj_touch_get k Ht) as H. rewrite Hg in H.
  destruct (obj_get o' k) as [e'|]; [now exists e'|destruct H].
Qed.

Lemma found_truthy_has s part k :
  obj_has part k = true -> found_truthy (lookup s part k) = true.
Proof.
  unfold obj_has, lookup. now destruct (obj_get part k).
Qed.

Lemma found_falsy_none s part k :
  found_truthy (lookup s part k) = false -> obj_get part k = None.
Proof.
  unfold lookup. now destruct (obj_get part k).
Qed.

Lemma proto_value_key s k v : proto_value s k = Some v -> k = "active" \/ k = "opacity".
Proof.
  unfold proto_value.
  assert (H : forall ws acc,
             fold_left (fun acc w => if String.eqb (write_key w) k
                                     then Some (write_value w) else acc) ws acc = Some v ->
             acc = Some v \/ k = "active" \/ k = "opacity").
  { induction ws as [|w ws IH]; intros acc Hf; simpl in Hf; [now left|].
    apply IH in Hf as [Hf|Hf]; [|now right].
    destruct (String.eqb_spec (write_key w) k) as [<-|_]; [right|now left].
    destruct w; simpl; tauto. }
  intros Hp. apply H in Hp as [Hp|Hp]; [discriminate|exact Hp].
Qed.

(** An id that is not the name of anything inherited is looked up among
    the own properties only. *)
Lemma lookup_plain s part k :
  inheritable k = false ->
  lookup s part k = match obj_get part k with
                    | Some e => FOwn e
                    | None => FUndefined
                    end.
Proof.
  unfold inheritable, lookup. intros H.
  destruct (obj_get part k); [reflexivity|].
  destruct (builtin_member k); [discriminate|].
  destruct (proto_value s k) as [v|] eqn:Hp; [|reflexivity].
  apply proto_value_key in Hp as [-> | ->]; discriminate.
Qed.

Lemma found_truthy_inherited s part k :
  found_truthy (lookup s part k) = true -> obj_has part k = true \/ inheritable k = true.
Proof.
  intros H. destruct (inheritable k) eqn:Hi; [now right|left].
  rewrite (lookup_plain s part _ Hi) in H. unfold obj_has.
  now destruct (obj_get part k).
Qed.

Lemma found_truthy_plain s part k :
  inheritable k = false -> found_truthy (lookup s part k) = obj_has part k.
Proof.
  intros Hi. rewrite (lookup_plain s part _ Hi). unfold obj_has.
  now destruct (obj_get part k).
Qed.

Lemma touch_has o o' k : obj_touch o o' -> obj_has o' k = obj_has o k.
Proof.
  intros Ht. pose proof (obj_touch_get k Ht) as H. unfold obj_has.
  destruct (obj_get o k), (obj_get o' k); tauto.
Qed.

Lemma obj_has_set_same {V} (o : JsObject V) k v : obj_has (obj_set o k v) k = true.
Proof.
  unfold obj_has. now rewrite obj_get_set_same.
Qed.

Lemma obj_has_set_mono {V} (o : JsObject V) k k' v :
  obj_has o k = true -> obj_has (obj_set o k' v) k = true.
Proof.
  intros H. destruct (String.eqb_spec k' k) as [->|Hne]; [apply obj_has_set_same|].
  unfold obj_has. now rewrite obj_get_set_other.
Qed.

Lemma repo_preload_outcome W cfg resp s :
  repo (preload_outcome W cfg resp s)
  = match preload_build W cfg resp with
    | Normal (built, feats, lf) =>
        obj_set (repo s) (cfg_id cfg)
                (repo_entry cfg built (fst (store_features (heap_next s) feats)) lf)
    | Throw _ => repo s
    end.
Proof.
  unfold preload_outcome.
  destruct (preload_build W cfg resp) as [[[built feats] lf]|e]; [|reflexivity].
  assert (Hc : repo (commit_repo cfg built feats lf s)
               = obj_set (repo s) (cfg_id cfg)
                         (repo_entry cfg built (fst (store_features (heap_next s) feats)) lf)).
  { unfold commit_repo. now destruct (store_features (heap_next s) feats). }
  destruct (built_layer built) as [l|]; [|exact Hc].
  destruct (ema l) as [m|]; [|exact Hc].
  destruct (has_updateZoomStyles m); exact Hc.
Qed.

Lemma script_trace_preload_outcome W cfg resp s :
  script_trace (preload_outcome W cfg resp s)
  = script_trace s
    ++ match preload_build W cfg resp with
       | Throw _ => [warning_of cfg]
       | Normal (built, _, _) =>
           match built_layer built with
           | None => [warning_of cfg]
           | Some _ => []
           end
       end.
Proof.
  unfold preload_outcome.
  destruct (preload_build W cfg resp) as [[[built feats] lf]|e];
    [|now rewrite script_trace_emit].
  assert (Hc : script_trace (commit_repo cfg built feats lf s) = script_trace s).
  { unfold commit_repo. now destruct (store_features (heap_next s) feats). }
  destruct (built_layer built) as [l|]; [|now rewrite script_trace_emit, Hc].
  rewrite app_nil_r.
  destruct (ema l) as [m|]; [|exact Hc].
  destruct (has_updateZoomStyles m); exact Hc.
Qed.

Lemma repo_preload_outcome_other W cfg resp s k :
  cfg_id cfg <> k ->
  obj_get (repo (preload_outcome W cfg resp s)) k = obj_get (repo s) k.
Proof.
  intros Hne. rewrite repo_preload_outcome.
  destruct (preload_build W cfg resp) as [[[built feats] lf]|e]; [|reflexivity].
  now apply obj_get_set_other.
Qed.

Lemma repo_preload_outcome_has W cfg resp s k :
  obj_has (repo s) k = true -> obj_has (repo (preload_outcome W cfg resp s)) k = true.
Proof.
  intros H. rewrite repo_preload_outcome.
  destruct (preload_build W cfg resp) as [[[built feats] lf]|e]; [|exact H].
  now apply obj_has_set_mono.
Qed.

(** Entries are never taken out of the repo partition. *)
Lemma preload_loop_has W registry : forall sched s k,
  obj_has (repo s) k = true -> obj_has (repo (preload_loop W registry sched s)) k = true.
Proof.
  induction registry as [|cfg rest IH]; intros sched s k Hk; simpl; [exact Hk|].
  destruct (found_truthy (lookup s (repo s) (cfg_id cfg))); [now apply IH|].
  rewrite exec_preload_resume. apply IH, repo_preload_outcome_has.
  rewrite (touch_has k (run_ops_repo_touch W _ _)). exact Hk.
Qed.

(** A config that fails wherever it is attempted leaves no entry. *)
Lemma preload_loop_none W registry : forall sched s k,
  obj_get (repo s) k = None ->
  (forall c, In c registry -> cfg_id c = k -> fails W c) ->
  obj_get (repo (preload_loop W registry sched s)) k = None.
Proof.
  induction registry as [|cfg rest IH]; intros sched s k Hk Hf; simpl; [exact Hk|].
  assert (Hrest : forall c, In c rest -> cfg_id c = k -> fails W c)
    by (intros c Hc; apply Hf; now right).
  destruct (found_truthy (lookup s (repo s) (cfg_id cfg))); [now apply IH|].
  rewrite exec_preload_resume. apply IH; [|exact Hrest].
  assert (H2 : obj_get (repo (run_ops W (hd [] sched) (emit (EvFetch (cfg_url cfg)) s))) k
               = None).
  { apply (touch_get_none k (run_ops_repo_touch W _ _)). exact Hk. }
  destruct (String.eqb_spec (cfg_id cfg) k) as [Heq|Hne].
  - destruct (Hf cfg (or_introl eq_refl) Heq) as [e He].
    rewrite repo_preload_outcome, He. exact H2.
  - now rewrite repo_preload_outcome_other.
Qed.

(** What the loop adds to the log: for every config either an entry is there
    at the end, or the config was fetched, failed and was warned about, or
    its id is a name the prototype chain answers. *)
Lemma preload_loop_trace W registry : forall sched s,
  exists new,
    script_trace (preload_loop W registry sched s) = script_trace s ++ new
    /\ Forall attempt_event new
    /\ forall cfg, In cfg registry ->
         obj_has (repo (preload_loop W registry sched s)) (cfg_id cfg) = true
         \/ (In (EvFetch (cfg_url cfg)) new /\ In (warning_of cfg) new)
         \/ inheritable (cfg_id cfg) = true.
Proof.
  induction registry as [|cfg rest IH]; intros sched s; simpl.
  - exists []. rewrite app_nil_r. repeat split; [constructor|intros cfg []].
  - destruct (found_truthy (lookup s (repo s) (cfg_id cfg))) eqn:Hhas.
    + destruct (IH sched s) as (new & Ht & Ha & Hc).
      exists new. repeat split; [exact Ht|exact Ha|].
      intros c [<-|Hin]; [|now apply Hc].
      apply found_truthy_inherited in Hhas as [Hh|Hi]; [|now right; right].
      left. now apply preload_loop_has.
    + rewrite exec_preload_resume.
      set (s2 := run_ops W (hd [] sched) (emit (EvFetch (cfg_url cfg)) s)).
      set (s3 := preload_outcome W cfg (fetch W (cfg_url cfg)) s2).
      destruct (IH (tl sched) s3) as (new & Ht & Ha & Hc).
      assert (H3 : script_trace s3
                   = script_trace s ++ EvFetch (cfg_url cfg)
                       :: match preload_build W cfg (fetch W (cfg_url cfg)) with
                          | Throw _ => [warning_of cfg]
                          | Normal (built, _, _) =>
                              match built_layer built with
                              | None => [warning_of cfg]
                              | Some _ => []
                              end
                          end).
      { unfold s3. rewrite script_trace_preload_outcome. unfold s2.
        rewrite run_ops_script_trace, script_trace_emit. simpl.
        now rewrite <- app_assoc. }
      assert (Hdone : obj_has (repo s3) (cfg_id cfg) = true
                      \/ exists e, preload_build W cfg (fetch W (cfg_url cfg)) = Throw e).
      { unfold s3. rewrite repo_preload_outcome.
        destruct (preload_build W cfg (fetch W (cfg_url cfg))) as [[[built feats] lf]|e];
          [left; apply obj_has_set_same | right; now exists e]. }
      eexists. split; [rewrite Ht, H3, <- app_assoc; reflexivity|]. split.
      * apply Forall_app. split; [|exact Ha].
        constructor; [exact I|].
        destruct (preload_build W cfg (fetch W (cfg_url cfg))) as [[[built feats] lf]|e];
          [destruct (built_layer built)|]; repeat constructor.
      * intros c [<-|Hin].
        -- destruct Hdone as [Hd|[e He]]; [left; now apply preload_loop_has|].
           right. left. rewrite He. split; apply in_or_app; left; simpl; tauto.
        -- destruct (Hc c Hin) as [Hl|[[Hf Hw]|Hi]]; [now left| |now right; right].
           right. left. split; apply in_or_app; now right.
Qed.

Lemma repo_force_roads s :
  repo (force_roads s)
  = match obj_get (repo s) roadsId with
    | Some roadsObj =>
        match layer roadsObj with
        | Some _ => obj_set (repo s) roadsId (with_active roadsObj true)
        | None => repo s
        end
    | None => repo s
    end.
Proof.
  unfold force_roads.
  destruct (obj_get (repo s) roadsId) as [r|]; [|reflexivity].
  destruct (layer r) as [l|]; [|reflexivity].
  set (s1 := set_repo s (obj_set (repo s) roadsId (with_active r true))).
  destruct (frame_ema_setOpacity_opt l opacity_roads
              (ema_setActive_opt l true (if hasLayer s1 l then s1 else addTo l s1)))
    as (_ & -> & _).
  destruct (frame_ema_setActive_opt l true (if hasLayer s1 l then s1 else addTo l s1))
    as (_ & -> & _).
  destruct (hasLayer s1 l); [reflexivity|].
  now destruct (frame_addTo l s1) as (_ & -> & _).
Qed.

Lemma force_roads_touch s : obj_touch (repo s) (repo (force_roads s)).
Proof.
  rewrite repo_force_roads.
  destruct (obj_get (repo s) roadsId) as [r|] eqn:Hg; [|apply obj_touch_refl].
  destruct (layer r); [|apply obj_touch_refl].
  apply obj_touch_set with (e := r); [exact Hg|apply touch_with_active].
Qed.

Lemma script_trace_force_roads s : script_trace (force_roads s) = script_trace s.
Proof.
  unfold force_roads.
  destruct (obj_get (repo s) roadsId) as [r|]; [|reflexivity].
  destruct (layer r) as [l|]; [|reflexivity].
  set (s1 := set_repo s (obj_set (repo s) roadsId (with_active r true))).
  destruct (qframe_ema_setOpacity_opt l opacity_roads
              (ema_setActive_opt l true (if hasLayer s1 l then s1 else addTo l s1)))
    as [_ ->].
  destruct (qframe_ema_setActive_opt l true (if hasLayer s1 l then s1 else addTo l s1))
    as [_ ->].
  destruct (hasLayer s1 l); [reflexivity|].
  now destruct (qframe_addTo l s1) as [_ ->].
Qed.

Lemma repo_preload_finish s : repo (preload_finish s) = repo (force_roads s).
Proof.
  unfold preload_finish. now rewrite !repo_force_roads.
Qed.

Lemma script_trace_preload_finish s :
  script_trace (preload_finish s)
  = script_trace s ++ [EvLog "✅ Repo layers preloaded"; EvDispatch "layers:repoPreloaded"].
Proof.
  unfold preload_finish.
  rewrite script_trace_force_roads, !script_trace_emit. simpl.
  now rewrite <- app_assoc.
Qed.

(** C8, the defect: the registry write comes before the last statement of
    the [try] block.  When the builder hands back no layer, the entry is
    written, the next statement throws, the [catch] warns that the preload
    failed, and the entry stays in the registry. *)
Theorem preload_failure_after_write_keeps_entry
        (W : World) (cfg : LayerConfig) (built : Built) (feats : Value)
        (labelField : option string) (s : State) :
  preload_build W cfg (fetch W (cfg_url cfg)) = Normal (built, feats, labelField) ->
  built_layer built = None ->
  obj_has (repo (exec (preload_resume W cfg (fetch W (cfg_url cfg))) s)) (cfg_id cfg) = true
  /\ log (exec (preload_resume W cfg (fetch W (cfg_url cfg))) s)
     = log s ++ [warning_of cfg].
Proof.
  intros Hb Hl. rewrite exec_preload_resume. unfold preload_outcome.
  rewrite Hb, Hl. unfold commit_repo.
  destruct (store_features (heap_next s) feats) as [fs n]. simpl.
  split; [apply obj_has_set_same|reflexivity].
Qed.

Lemma preload_failure_after_write_keeps_entry_witness :
  obj_keys (repo (preloadRepoLayers demo_bare_world [demo_zones] init_state)) = ["zones"]
  /\ log (exec (preload_resume demo_bare_world demo_zones
                               (fetch demo_bare_world (cfg_url demo_zones)))
               init_state)
     = [warning_of demo_zones].
Proof.
  split; [reflexivity|].
  exact (proj2 (@preload_failure_after_write_keeps_entry demo_bare_world demo_zones
                  _ _ _ init_state eq_refl eq_refl)).
Defined.

(** When the [try] block of a config fails before it writes (fetch, parse,
    build or label resolution), no repo entry is created for its id; the loop
    goes on, so that at the end every config of the set has an entry, or was
    fetched, failed and was warned about, or has an id that the prototype
    chain answers; and the run adds to the log the attempts followed by
    exactly one "layers:repoPreloaded" notification, which comes after every
    attempt.  This holds whatever the panel delivers while fetches are
    awaited. *)
Theorem preload_failure_before_write_leaves_no_entry
        (W : World) (registry : list LayerConfig) (sched : list (list Op)) (s : State) :
  (forall cfg, In cfg registry ->
               obj_get (repo s) (cfg_id cfg) = None ->
               (forall c, In c registry -> cfg_id c = cfg_id cfg -> fails W c) ->
               obj_get (repo (preloadRepoLayers_sched W registry sched s)) (cfg_id cfg) = None)
  /\ exists attempts,
       script_trace (preloadRepoLayers_sched W registry sched s)
       = script_trace s ++ attempts
           ++ [EvLog "✅ Repo layers preloaded"; EvDispatch "layers:repoPreloaded"]
       /\ Forall attempt_event attempts
       /\ forall cfg, In cfg registry ->
            obj_has (repo (preloadRepoLayers_sched W registry sched s)) (cfg_id cfg) = true
            \/ (In (EvFetch (cfg_url cfg)) attempts /\ In (warning_of cfg) attempts)
            \/ inheritable (cfg_id cfg) = true.
Proof.
  unfold preloadRepoLayers_sched. split.
  - intros cfg Hin Hnone Hfail.
    rewrite repo_preload_finish.
    apply (touch_get_none _ (force_roads_touch _)).
    now apply preload_loop_none.
  - destruct (preload_loop_trace W registry sched s) as (new & Ht & Ha & Hc).
    exists new. split; [|split; [exact Ha|]].
    + now rewrite script_trace_preload_finish, Ht, <- app_assoc.
    + intros cfg Hin. destruct (Hc cfg Hin) as [Hl|Hr]; [left|now right].
      rewrite repo_preload_finish, (touch_has _ (force_roads_touch _)). exact Hl.
Qed.

Lemma preload_failure_before_write_leaves_no_entry_witness :
  obj_get (repo (preloadRepoLayers_sched demo_world demo_registry demo_sched init_state))
          "broken" = None.
Proof.
  destruct (preload_failure_before_write_leaves_no_entry
              demo_world demo_registry demo_sched init_state)
    as [H _].
  apply (H demo_broken).
  - right. right. now left.
  - reflexivity.
  - intros c [<-|[<-|[<-|[]]]]; try discriminate.
    intros _. exists "fetch failed". reflexivity.
Defined.

(* ================================================================== *)
(** ** The roads layer *)

Lemma hasLayer_In s l : hasLayer s l = true -> In (handle l) (map_layers s).
Proof.
  unfold hasLayer. intros H. apply existsb_exists in H as (h & Hin & Heq).
  apply Nat.eqb_eq in Heq. now subst.
Qed.

Lemma map_layers_ema_setOpacity_opt l v s :
  map_layers (ema_setOpacity_opt l v s) = map_layers s.
Proof.
  unfold ema_setOpacity_opt. destruct (ema l) as [m|]; [|reflexivity].
  now destruct (has_setOpacity m).
Qed.

Lemma map_layers_ema_setActive_opt l b s :
  map_layers (ema_setActive_opt l b s) = map_layers s.
Proof.
  unfold ema_setActive_opt. destruct (ema l) as [m|]; [|reflexivity].
  now destruct (has_setActive m).
Qed.

(** After the forcing step, a roads entry that has a layer is on and its
    layer is on the map. *)
Lemma force_roads_forced s e l :
  obj_get (repo (force_roads s)) roadsId = Some e -> layer e = Some l ->
  active e = Some true /\ In (handle l) (map_layers (force_roads s)).
Proof.
  rewrite repo_force_roads. unfold force_roads.
  destruct (obj_get (repo s) roadsId) as [r|] eqn:Hr; [|now rewrite Hr].
  destruct (layer r) as [l0|] eqn:Hlr.
  - rewrite obj_get_set_same. intros [= <-] Hl. simpl in Hl.
    rewrite Hlr in Hl. injection Hl as ->. split; [reflexivity|].
    rewrite map_layers_ema_setOpacity_opt, map_layers_ema_setActive_opt.
    set (s1 := set_repo s (obj_set (repo s) roadsId (with_active r true))).
    destruct (hasLayer s1 l) eqn:Hh; [now apply hasLayer_In|].
    unfold addTo. rewrite Hh. simpl. apply in_or_app. right. now left.
  - rewrite Hr. intros [= <-] Hl. congruence.
Qed.

(** A config with the roads id that loads with a layer puts a roads entry
    with a layer into the partition, whatever the panel does meanwhile. *)
Lemma preload_loop_roads W registry : forall sched s,
  (forall c, In c registry -> cfg_id c = roadsId -> loads_with_layer W c) ->
  (exists e l, obj_get (repo s) roadsId = Some e /\ layer e = Some l)
  \/ (obj_get (repo s) roadsId = None /\ exists c, In c registry /\ cfg_id c = roadsId) ->
  exists e l, obj_get (repo (preload_loop W registry sched s)) roadsId = Some e
              /\ layer e = Some l.
Proof.
  induction registry as [|cfg rest IH]; intros sched s Hload Hs; simpl.
  - destruct Hs as [Hs|[_ (c & [] & _)]]. exact Hs.
  - assert (Hrest : forall c, In c rest -> cfg_id c = roadsId -> loads_with_layer W c)
      by (intros c Hc; apply Hload; now right).
    destruct (found_truthy (lookup s (repo s) (cfg_id cfg))) eqn:Hhas.
    + apply IH; [exact Hrest|].
      destruct Hs as [Hs|[Hnone (c & [<-|Hc] & Hid)]]; [now left| |right; eauto].
      rewrite Hid, (@found_truthy_plain s (repo s) roadsId eq_refl) in Hhas.
      unfold obj_has in Hhas. rewrite Hnone in Hhas. discriminate.
    + rewrite exec_preload_resume. apply IH; [exact Hrest|].
      set (s2 := run_ops W (hd [] sched) (emit (EvFetch (cfg_url cfg)) s)).
      assert (Ht : obj_touch (repo s) (repo s2))
        by exact (run_ops_repo_touch W (hd [] sched) (emit (EvFetch (cfg_url cfg)) s)).
      destruct (String.eqb_spec (cfg_id cfg) roadsId) as [Heq|Hne].
      * left. destruct (Hload cfg (or_introl eq_refl) Heq)
          as (built & feats & lf & l & Hb & Hl).
        rewrite repo_preload_outcome, Hb, Heq, obj_get_set_same.
        eexists. exists l. split; [reflexivity|exact Hl].
      * rewrite repo_preload_outcome_other by exact Hne.
        destruct Hs as [(e & l & Hg & Hl)|[Hnone (c & [<-|Hc] & Hid)]].
        -- left. destruct (touch_get_some _ Ht Hg) as (e' & Hg' & Hl' & _).
           exists e', l. split; [exact Hg'|congruence].
        -- congruence.
        -- right. split; [now apply (touch_get_none _ Ht)|eauto].
Qed.

(** A block of the panel is a group of the group order with the configs of
    its own bucket that are not roads. *)
Lemma panel_block_own repoGroups g0 b g visible :
  panel_block repoGroups g0 = Normal b -> In (g, visible) b ->
  g = g0
  /\ exists l, obj_get repoGroups (group_id g0) = Some l
               /\ visible = filter (fun cfg => negb (type_is cfg "roads")) l.
Proof.
  unfold panel_block, group_lookup.
  destruct (obj_get repoGroups (group_id g0)) as [l|].
  - destruct (is_nil l); [intros [= <-] []|].
    destruct (is_nil (filter _ l)); intros [= <-] Hin; [destruct Hin|].
    destruct Hin as [[= <- <-]|[]]. split; [reflexivity|now exists l].
  - destruct (builtin_member (group_id g0)) as [[n|]|]; try (intros [= <-] []).
    destruct (Nat.eqb n 0); [intros [= <-] []|discriminate].
Qed.

Lemma panel_loop_own repoGroups g visible : forall groupOrder,
  In (g, visible) (fst (panel_loop repoGroups groupOrder)) ->
  In g groupOrder
  /\ exists l, obj_get repoGroups (group_id g) = Some l
               /\ visible = filter (fun cfg => negb (type_is cfg "roads")) l.
Proof.
  induction groupOrder as [|g0 rest IH]; simpl; [tauto|].
  destruct (panel_block repoGroups g0) as [b|e] eqn:Hb; simpl; [|tauto].
  destruct (panel_loop repoGroups rest) as [bs c]. simpl in *.
  intros Hin. apply in_app_or in Hin as [Hin|Hin].
  - destruct (panel_block_own _ _ _ _ Hb Hin) as [-> Hl]. split; [now left|exact Hl].
  - destruct (IH Hin) as [Hg Hl]. split; [now right|exact Hl].
Qed.

Lemma panel_groups_visible config groupOrder g visible cfg :
  In (g, visible) (panel_groups config groupOrder) -> In cfg visible ->
  type_is cfg "roads" = false.
Proof.
  unfold panel_groups, render_panel. intros H Hc.
  destruct (groupRepoLayers config) as [repoGroups|e]; [|destruct H].
  apply panel_loop_own in H as (_ & l & _ & ->).
  apply filter_In in Hc as [_ Hc]. now apply negb_true_iff in Hc.
Qed.

(** C3, as amended: once the preloader has attempted the full set, the repo
    entry under the id "major_roads", when it is there with a layer handle,
    has [active == true] and its layer is on the map, whatever the panel
    delivers while fetches are awaited; it is there when the id was free
    before, the set has a config with that id, and every such config loads
    with a layer handle.  No config of the roads type is in any grouped
    presentation list. *)
Theorem roads_forced_and_hidden
        (W : World) (registry : list LayerConfig) (sched : list (list Op)) (s : State) :
  (forall e l,
      obj_get (repo (preloadRepoLayers_sched W registry sched s)) roadsId = Some e ->
      layer e = Some l ->
      active e = Some true
      /\ In (handle l) (map_layers (preloadRepoLayers_sched W registry sched s)))
  /\ (obj_get (repo s) roadsId = None ->
      (exists c, In c registry /\ cfg_id c = roadsId) ->
      (forall c, In c registry -> cfg_id c = roadsId -> loads_with_layer W c) ->
      exists e l,
        obj_get (repo (preloadRepoLayers_sched W registry sched s)) roadsId = Some e
        /\ layer e = Some l /\ active e = Some true)
  /\ (forall groupOrder g visible cfg,
         In (g, visible) (panel_groups registry groupOrder) -> In cfg visible ->
         cfg_type cfg <> Some "roads").
Proof.
  unfold preloadRepoLayers_sched, preload_finish.
  split; [|split].
  - intros e l. apply force_roads_forced.
  - intros Hnone Hex Hload.
    destruct (@preload_loop_roads W registry sched s Hload (or_intror (conj Hnone Hex)))
      as (e & l & Hg & Hl).
    set (s1 := emit (EvDispatch "layers:repoPreloaded")
                    (emit (EvLog "✅ Repo layers preloaded")
                          (preload_loop W registry sched s))).
    change (obj_get (repo s1) roadsId = Some e) in Hg.
    destruct (touch_get_some _ (force_roads_touch s1) Hg) as (e' & Hg' & Hl' & _).
    assert (Hl2 : layer e' = Some l) by congruence.
    exists e', l. split; [exact Hg'|]. split; [exact Hl2|].
    exact (proj1 (@force_roads_forced s1 e' l Hg' Hl2)).
  - intros groupOrder g visible cfg Hin Hc.
    apply type_is_neq. now apply panel_groups_visible with (1 := Hin).
Qed.

Lemma roads_forced_and_hidden_witness :
  (exists e l,
      obj_get (repo (preloadRepoLayers_sched demo_world demo_registry demo_sched init_state))
              roadsId = Some e
      /\ layer e = Some l /\ active e = Some true)
  /\ map snd (panel_groups demo_registry demo_groups) = [[demo_zones]; [demo_broken]].
Proof.
  split; [|reflexivity].
  destruct (roads_forced_and_hidden demo_world demo_registry demo_sched init_state)
    as [_ [H _]].
  apply H.
  - reflexivity.
  - exists demo_roads. split; [now left|reflexivity].
  - intros c [<-|[<-|[<-|[]]]]; try discriminate.
    intros _. unfold loads_with_layer. do 4 eexists. split; reflexivity.
Defined.

(** C3 as worded fails in its first half: a config of the roads type whose
    id is not "major_roads" is preloaded and left switched off. *)
Lemma roads_type_entry_not_forced :
  cfg_type demo_minor_roads = Some "roads"
  /\ option_map active
       (obj_get (repo (preloadRepoLayers demo_world [demo_minor_roads] init_state))
                (cfg_id demo_minor_roads))
     = Some (Some false).
Proof.
  split; reflexivity.
Qed.

(* ================================================================== *)
(** ** Running the preloader again *)

Lemma wf_touch o o' : obj_touch o o' -> wf_obj o -> wf_obj o'.
Proof.
  unfold wf_obj. intros Ht. now rewrite (obj_touch_keys Ht).
Qed.

Lemma wf_preload_loop W registry : forall sched s,
  wf_obj (repo s) -> wf_obj (repo (preload_loop W registry sched s)).
Proof.
  induction registry as [|cfg rest IH]; intros sched s Hwf; simpl; [exact Hwf|].
  destruct (found_truthy (lookup s (repo s) (cfg_id cfg))); [now apply IH|].
  rewrite exec_preload_resume. apply IH. rewrite repo_preload_outcome.
  assert (H2 : wf_obj (repo (run_ops W (hd [] sched) (emit (EvFetch (cfg_url cfg)) s))))
    by exact (wf_touch (run_ops_repo_touch W (hd [] sched) (emit _ s)) Hwf).
  destruct (preload_build W cfg (fetch W (cfg_url cfg))) as [[[built feats] lf]|e];
    [now apply wf_obj_set|exact H2].
Qed.

Lemma wf_preloadRepoLayers_sched W registry sched s :
  wf_obj (repo s) -> wf_obj (repo (preloadRepoLayers_sched W registry sched s)).
Proof.
  intros Hwf. unfold preloadRepoLayers_sched. rewrite repo_preload_finish.
  apply (wf_touch (force_roads_touch _)). now apply wf_preload_loop.
Qed.

Lemma touch_get_none_back o o' k :
  obj_touch o o' -> obj_get o' k = None -> obj_get o k = None.
Proof.
  intros Ht Hg. pose proof (touch_has k Ht) as Hh. unfold obj_has in Hh.
  rewrite Hg in Hh. now destruct (obj_get o k).
Qed.

(** A lookup is the own entry, or what the prototype chain answers. *)
Lemma lookup_split s part k :
  lookup s part k = match obj_get part k with
                    | Some e => FOwn e
                    | None => lookup s [] k
                    end.
Proof.
  unfold lookup. simpl. now destruct (obj_get part k).
Qed.

Lemma lookup_foreign s s' k : foreign s' = foreign s -> lookup s' [] k = lookup s [] k.
Proof.
  intros H. unfold lookup, proto_value, proto_writes. now rewrite H.
Qed.

Lemma found_truthy_same s s' k :
  repo s' = repo s -> foreign s' = foreign s ->
  found_truthy (lookup s' (repo s') k) = found_truthy (lookup s (repo s) k).
Proof.
  intros Hr Hf. rewrite (lookup_split s'), (lookup_split s), Hr.
  now rewrite (@lookup_foreign _ _ k Hf).
Qed.

Lemma foreign_preload_outcome W cfg resp s :
  foreign (preload_outcome W cfg resp s) = foreign s.
Proof.
  unfold preload_outcome.
  destruct (preload_build W cfg resp) as [[[built feats] lf]|e]; [|reflexivity].
  assert (Hc : foreign (commit_repo cfg built feats lf s) = foreign s).
  { unfold commit_repo. now destruct (store_features (heap_next s) feats). }
  destruct (built_layer built) as [l|]; [|exact Hc].
  destruct (ema l) as [m|]; [|exact Hc].
  destruct (has_updateZoomStyles m); exact Hc.
Qed.

(** Left to itself the loop assigns nothing on an inherited member. *)
Lemma foreign_preload_loop W registry : forall s,
  foreign (preload_loop W registry [] s) = foreign s.
Proof.
  induction registry as [|cfg rest IH]; intros s; simpl; [reflexivity|].
  destruct (found_truthy (lookup s (repo s) (cfg_id cfg))); [apply IH|].
  rewrite exec_preload_resume, IH. simpl. now rewrite foreign_preload_outcome.
Qed.

Lemma foreign_force_roads s : foreign (force_roads s) = foreign s.
Proof.
  unfold force_roads.
  destruct (obj_get (repo s) roadsId) as [r|]; [|reflexivity].
  destruct (layer r) as [l|]; [|reflexivity].
  unfold ema_setOpacity_opt, ema_setActive_opt.
  set (s1 := set_repo s (obj_set (repo s) roadsId (with_active r true))).
  assert (H2 : foreign (if hasLayer s1 l then s1 else addTo l s1) = foreign s).
  { destruct (hasLayer s1 l) eqn:Hh; [reflexivity|]. unfold addTo. now rewrite Hh. }
  destruct (ema l) as [m|]; [|exact H2].
  destruct (has_setActive m), (has_setOpacity m); exact H2.
Qed.

(** What a lookup finds stays truthy while the loop runs on its own. *)
Lemma preload_loop_found W registry s k :
  found_truthy (lookup s (repo s) k) = true ->
  found_truthy (lookup (preload_loop W registry [] s)
                       (repo (preload_loop W registry [] s)) k) = true.
Proof.
  intros H. rewrite lookup_split in *.
  destruct (obj_get (repo (preload_loop W registry [] s)) k) eqn:Hg'; [reflexivity|].
  rewrite (@lookup_foreign _ _ k (foreign_preload_loop W registry s)).
  destruct (obj_get (repo s) k) eqn:Hg; [|exact H].
  assert (Hh : obj_has (repo (preload_loop W registry [] s)) k = true)
    by (apply preload_loop_has; unfold obj_has; now rewrite Hg).
  unfold obj_has in Hh. rewrite Hg' in Hh. discriminate.
Qed.

(** After the loop every config is found under its id or has failed. *)
Lemma preload_loop_settled W registry : forall s cfg,
  In cfg registry ->
  found_truthy (lookup (preload_loop W registry [] s)
                       (repo (preload_loop W registry [] s)) (cfg_id cfg)) = true
  \/ fails W cfg.
Proof.
  induction registry as [|c rest IH]; intros s cfg Hin; simpl; [destruct Hin|].
  destruct (found_truthy (lookup s (repo s) (cfg_id c))) eqn:Hhas.
  - destruct Hin as [<-|Hin]; [left; now apply preload_loop_found|now apply IH].
  - rewrite exec_preload_resume.
    destruct Hin as [<-|Hin]; [|now apply IH].
    destruct (preload_build W c (fetch W (cfg_url c))) as [[[built feats] lf]|e] eqn:Hb.
    + left. apply preload_loop_found, found_truthy_has.
      rewrite repo_preload_outcome, Hb. apply obj_has_set_same.
    + right. now exists e.
Qed.

(** A loop over configs that are all found or fail writes nothing. *)
Lemma preload_loop_unchanged W registry : forall s,
  (forall cfg, In cfg registry ->
               found_truthy (lookup s (repo s) (cfg_id cfg)) = true \/ fails W cfg) ->
  repo (preload_loop W registry [] s) = repo s.
Proof.
  induction registry as [|c rest IH]; intros s Hs; simpl; [reflexivity|].
  destruct (found_truthy (lookup s (repo s) (cfg_id c))) eqn:Hhas.
  - apply IH. intros cfg Hin. apply Hs. now right.
  - rewrite exec_preload_resume.
    destruct (Hs c (or_introl eq_refl)) as [Hc|[e He]]; [congruence|].
    assert (Hr : repo (preload_outcome W c (fetch W (cfg_url c))
                                       (emit (EvFetch (cfg_url c)) s)) = repo s)
      by now rewrite repo_preload_outcome, He.
    rewrite IH; [exact Hr|].
    intros cfg Hin.
    rewrite (@found_truthy_same _ _ (cfg_id cfg) Hr (foreign_preload_outcome _ _ _ _)).
    apply Hs. now right.
Qed.

(** A loop left to itself leaves the entries that are there as they are. *)
Lemma preload_loop_keeps W registry : forall s id e,
  obj_get (repo s) id = Some e ->
  obj_get (repo (preload_loop W registry [] s)) id = Some e.
Proof.
  induction registry as [|c rest IH]; intros s id e Hg; simpl; [exact Hg|].
  destruct (found_truthy (lookup s (repo s) (cfg_id c))) eqn:Hhas; [now apply IH|].
  rewrite exec_preload_resume. apply IH.
  rewrite repo_preload_outcome_other; [exact Hg|].
  intros Heq. apply found_falsy_none in Hhas. rewrite Heq, Hg in Hhas. discriminate.
Qed.

Lemma with_active_same e : active e = Some true -> with_active e true = e.
Proof.
  destruct e. simpl. now intros ->.
Qed.

Lemma force_roads_again s :
  (forall e l, obj_get (repo s) roadsId = Some e -> layer e = Some l ->
               active e = Some true) ->
  repo (force_roads s) = repo s.
Proof.
  intros H. rewrite repo_force_roads.
  destruct (obj_get (repo s) roadsId) as [r|] eqn:Hg; [|reflexivity].
  destruct (layer r) as [l|] eqn:Hl; [|reflexivity].
  rewrite (with_active_same r (H r l eq_refl Hl)). now apply obj_set_unchanged.
Qed.

Lemma force_roads_keeps s id e :
  obj_get (repo s) id = Some e ->
  (id = roadsId -> forall l, layer e = Some l -> active e = Some true) ->
  obj_get (repo (force_roads s)) id = Some e.
Proof.
  intros Hg Hon. rewrite repo_force_roads.
  destruct (obj_get (repo s) roadsId) as [r|] eqn:Hr; [|exact Hg].
  destruct (layer r) as [l|] eqn:Hl; [|exact Hg].
  destruct (String.eqb_spec roadsId id) as [<-|Hne].
  - rewrite Hg in Hr. injection Hr as <-.
    rewrite (with_active_same e (Hon eq_refl l Hl)). now rewrite obj_get_set_same.
  - now rewrite obj_get_set_other.
Qed.

(** Running the preloader twice over the same config set, with the fetches
    answering the second time as they did the first, gives the repo
    partition that running it once gives.  No id occurs twice in the
    partition; a config whose [try] block does not fail, and whose id is not
    a name the prototype chain answers, has exactly one entry; and whatever
    the second run gets from its fetches, it leaves every entry of the first
    run as it is. *)
Theorem preload_twice_same
        (W : World) (registry : list LayerConfig) (s : State) :
  wf_obj (repo s) ->
  repo (preloadRepoLayers W registry (preloadRepoLayers W registry s))
  = repo (preloadRepoLayers W registry s)
  /\ (forall id,
        count_occ string_dec
                  (obj_keys (repo (preloadRepoLayers W registry
                                     (preloadRepoLayers W registry s)))) id <= 1)
  /\ (forall cfg, In cfg registry -> ~ fails W cfg -> inheritable (cfg_id cfg) = false ->
        count_occ string_dec
                  (obj_keys (repo (preloadRepoLayers W registry
                                     (preloadRepoLayers W registry s)))) (cfg_id cfg) = 1)
  /\ (forall W2 id e,
        obj_get (repo (preloadRepoLayers W registry s)) id = Some e ->
        obj_get (repo (preloadRepoLayers W2 registry (preloadRepoLayers W registry s))) id
        = Some e).
Proof.
  intros Hwf.
  set (s1 := preloadRepoLayers W registry s).
  assert (Hforced : forall e l, obj_get (repo s1) roadsId = Some e -> layer e = Some l ->
                                active e = Some true).
  { intros e l Hg Hl. unfold s1, preloadRepoLayers, preloadRepoLayers_sched, preload_finish in Hg.
    exact (proj1 (force_roads_forced _ Hg Hl)). }
  assert (Hsettled : forall cfg, In cfg registry ->
                       found_truthy (lookup s1 (repo s1) (cfg_id cfg)) = true
                       \/ fails W cfg).
  { intros cfg Hin.
    destruct (preload_loop_settled W registry s cfg Hin) as [Hh|Hf]; [left|now right].
    rewrite lookup_split in *. unfold s1, preloadRepoLayers, preloadRepoLayers_sched.
    rewrite repo_preload_finish.
    destruct (obj_get (repo (force_roads (preload_loop W registry [] s))) (cfg_id cfg))
      eqn:Hg'; [reflexivity|].
    apply (touch_get_none_back _ (force_roads_touch _)) in Hg'.
    rewrite Hg' in Hh.
    rewrite <- Hh. f_equal. apply lookup_foreign.
    unfold preload_finish. now rewrite foreign_force_roads. }
  assert (Hsame : repo (preloadRepoLayers W registry s1) = repo s1).
  { unfold preloadRepoLayers, preloadRepoLayers_sched.
    rewrite repo_preload_finish.
    pose proof (@preload_loop_unchanged W registry s1 Hsettled) as Hloop.
    rewrite force_roads_again; [exact Hloop|]. rewrite Hloop. exact Hforced. }
  assert (Hwf1 : wf_obj (repo s1)) by now apply wf_preloadRepoLayers_sched.
  split; [exact Hsame|]. split; [|split].
  - rewrite Hsame. now apply NoDup_count_occ.
  - intros cfg Hin Hnf Hplain. rewrite Hsame.
    destruct (Hsettled cfg Hin) as [Hh|Hf]; [|contradiction].
    rewrite (@found_truthy_plain s1 (repo s1) _ Hplain) in Hh.
    apply Nat.le_antisymm; [now apply NoDup_count_occ|].
    apply count_occ_In. unfold obj_has in Hh.
    destruct (obj_get (repo s1) (cfg_id cfg)) as [e|] eqn:Hg; [|discriminate].
    apply obj_get_In in Hg. unfold obj_keys. apply in_map_iff. now exists (cfg_id cfg, e).
  - intros W2 id e Hg. unfold preloadRepoLayers at 1. unfold preloadRepoLayers_sched.
    rewrite repo_preload_finish.
    apply force_roads_keeps; [now apply preload_loop_keeps|].
    intros -> l Hl. now apply (Hforced e l).
Qed.

Lemma preload_twice_same_witness :
  repo (preloadRepoLayers demo_world demo_registry
          (preloadRepoLayers demo_world demo_registry init_state))
  = repo (preloadRepoLayers demo_world demo_registry init_state)
  /\ obj_keys (repo (preloadRepoLayers demo_world demo_registry init_state))
     = ["major_roads"; "zones"].
Proof.
  split; [|reflexivity].
  apply (preload_twice_same demo_world demo_registry init_state).
  constructor.
Defined.


(* ================================================================== *)
(** ** What the handlers write *)

Lemma obj_get_delete_other {V} (o : JsObject V) k k' :
  k <> k' -> obj_get (obj_delete o k) k' = obj_get o k'.
Proof.
  intros Hne. unfold obj_delete.
  induction o as [|[k0 v0] r IH]; simpl; [reflexivity|].
  destruct (String.eqb_spec k0 k) as [->|Hk]; simpl.
  - destruct (String.eqb_spec k k'); [congruence|exact IH].
  - destruct (String.eqb k0 k'); [reflexivity|exact IH].
Qed.

Lemma obj_set_absent {V} (o : JsObject V) k v :
  obj_get o k = None -> obj_set o k v = o ++ [(k, v)].
Proof.
  induction o as [|[k0 v0] r IH]; simpl; [reflexivity|].
  destruct (String.eqb k0 k); [discriminate|]. intros H. now rewrite IH.
Qed.

Lemma In_obj_set_other {V} (o : JsObject V) k v k' v' :
  In (k', v') (obj_set o k v) -> k' <> k -> In (k', v') o.
Proof.
  induction o as [|[k0 v0] r IH]; simpl.
  - intros [[= <- <-]|[]] Hne. congruence.
  - destruct (String.eqb_spec k0 k) as [->|Hk]; simpl.
    + intros [[= <- <-]|Hin] Hne; [congruence|now right].
    + intros [Heq|Hin] Hne; [now left|right; now apply IH].
Qed.

Lemma map_layers_addTo l s : In (handle l) (map_layers (addTo l s)).
Proof.
  unfold addTo. destruct (hasLayer s l) eqn:Hh; [now apply hasLayer_In|].
  simpl. apply in_or_app. right. now left.
Qed.

Lemma map_layers_removeLayer l s h :
  In h (map_layers (removeLayer l s)) <-> In h (map_layers s) /\ h <> handle l.
Proof.
  unfold removeLayer. simpl. rewrite filter_In, negb_true_iff, Nat.eqb_neq. tauto.
Qed.

(* ================================================================== *)
(** ** Switching and restyling one layer *)

Lemma obj_set_present_facts {V} (o : JsObject V) k e v :
  obj_get o k = Some e ->
  obj_get (obj_set o k v) k = Some v
  /\ (forall k', k' <> k -> obj_get (obj_set o k v) k' = obj_get o k')
  /\ obj_keys (obj_set o k v) = obj_keys o.
Proof.
  intros Hg. split; [apply obj_get_set_same|]. split.
  - intros k' Hne. apply obj_get_set_other. congruence.
  - apply obj_keys_set_present. unfold obj_has. now rewrite Hg.
Qed.

Lemma toggle_map_layers (l : Layer) (isOn : bool) (slider : float) (s1 : State) :
  if isOn
  then In (handle l) (map_layers (ema_setOpacity_opt l slider (addTo l s1)))
  else ~ In (handle l) (map_layers (removeLayer l s1)).
Proof.
  destruct isOn.
  - rewrite map_layers_ema_setOpacity_opt. apply map_layers_addTo.
  - rewrite map_layers_removeLayer. tauto.
Qed.

Lemma toggle_uploaded_registry id isOn slider s e :
  obj_get (uploaded s) id = Some e ->
  uploaded (exec (toggle_uploaded id isOn slider) s)
  = obj_set (uploaded s) id (with_active e isOn)
  /\ repo (exec (toggle_uploaded id isOn slider) s) = repo s
  /\ (forall l, layer e = Some l ->
        if isOn
        then In (handle l) (map_layers (exec (toggle_uploaded id isOn slider) s))
        else ~ In (handle l) (map_layers (exec (toggle_uploaded id isOn slider) s))).
Proof.
  intros Hg. rewrite exec_toggle_uploaded, Hg. cbv zeta.
  set (s1 := set_uploaded s (obj_set (uploaded s) id (with_active e isOn))).
  assert (Hf : frame s1 (match layer e with
                         | Some l => if isOn
                                     then ema_setOpacity_opt l slider (addTo l s1)
                                     else removeLayer l s1
                         | None => s1
                         end)).
  { destruct (layer e) as [l|]; [|apply frame_refl].
    destruct isOn; [|apply frame_removeLayer].
    eapply frame_trans; [apply frame_addTo|apply frame_ema_setOpacity_opt]. }
  destruct Hf as (-> & -> & _).
  repeat split.
  intros l Hl. rewrite Hl.
  pose proof (toggle_map_layers l isOn slider s1) as Hm. now destruct isOn.
Qed.

Lemma toggle_repo_registry cfg isOn slider s e :
  obj_get (repo s) (cfg_id cfg) = Some e ->
  repo (exec (toggle_repo cfg isOn slider) s)
  = obj_set (repo s) (cfg_id cfg) (with_active e isOn)
  /\ uploaded (exec (toggle_repo cfg isOn slider) s) = uploaded s
  /\ (forall l, layer e = Some l ->
        if isOn
        then In (handle l) (map_layers (exec (toggle_repo cfg isOn slider) s))
        else ~ In (handle l) (map_layers (exec (toggle_repo cfg isOn slider) s))).
Proof.
  intros Hg. rewrite exec_toggle_repo, Hg. cbv zeta.
  set (s1 := set_repo s (obj_set (repo s) (cfg_id cfg) (with_active e isOn))).
  assert (Hf : frame s1 (match layer e with
                         | Some l => if isOn
                                     then ema_setOpacity_opt l slider (addTo l s1)
                                     else removeLayer l s1
                         | None => s1
                         end)).
  { destruct (layer e) as [l|]; [|apply frame_refl].
    destruct isOn; [|apply frame_removeLayer].
    eapply frame_trans; [apply frame_addTo|apply frame_ema_setOpacity_opt]. }
  destruct Hf as (-> & -> & _).
  repeat split.
  intros l Hl. rewrite Hl.
  pose proof (toggle_map_layers l isOn slider s1) as Hm. now destruct isOn.
Qed.

(** The toggle of a row writes the [active] flag of its own entry and
    nothing else in the registry: the entry keeps its layer, features and
    opacity, every other entry and the other partition are untouched, and
    the order of the ids is kept.  When the entry has a layer handle, the
    layer is on the map after switching on and off the map after switching
    off.  All this holds also when the handler dies half-way. *)
Theorem toggle_writes_only_active (id : string) (cfg : LayerConfig) (isOn : bool)
        (slider : float) (s : State) :
  (forall e, obj_get (uploaded s) id = Some e ->
     obj_get (uploaded (exec (toggle_uploaded id isOn slider) s)) id
     = Some (with_active e isOn)
     /\ (forall k, k <> id ->
           obj_get (uploaded (exec (toggle_uploaded id isOn slider) s)) k
           = obj_get (uploaded s) k)
     /\ obj_keys (uploaded (exec (toggle_uploaded id isOn slider) s)) = obj_keys (uploaded s)
     /\ repo (exec (toggle_uploaded id isOn slider) s) = repo s
     /\ (forall l, layer e = Some l ->
           if isOn
           then In (handle l) (map_layers (exec (toggle_uploaded id isOn slider) s))
           else ~ In (handle l) (map_layers (exec (toggle_uploaded id isOn slider) s))))
  /\ (forall e, obj_get (repo s) (cfg_id cfg) = Some e ->
     obj_get (repo (exec (toggle_repo cfg isOn slider) s)) (cfg_id cfg)
     = Some (with_active e isOn)
     /\ (forall k, k <> cfg_id cfg ->
           obj_get (repo (exec (toggle_repo cfg isOn slider) s)) k = obj_get (repo s) k)
     /\ obj_keys (repo (exec (toggle_repo cfg isOn slider) s)) = obj_keys (repo s)
     /\ uploaded (exec (toggle_repo cfg isOn slider) s) = uploaded s
     /\ (forall l, layer e = Some l ->
           if isOn
           then In (handle l) (map_layers (exec (toggle_repo cfg isOn slider) s))
           else ~ In (handle l) (map_layers (exec (toggle_repo cfg isOn slider) s)))).
Proof.
  split; intros e Hg.
  - destruct (toggle_uploaded_registry id isOn slider s Hg) as (-> & -> & Hm).
    destruct (obj_set_present_facts (uploaded s) id (with_active e isOn) Hg)
      as (H1 & H2 & H3).
    repeat split; assumption.
  - destruct (toggle_repo_registry cfg isOn slider s Hg) as (-> & -> & Hm).
    destruct (obj_set_present_facts (repo s) (cfg_id cfg) (with_active e isOn) Hg)
      as (H1 & H2 & H3).
    repeat split; assumption.
Qed.

Lemma toggle_writes_only_active_witness :
  option_map active
    (obj_get (repo (exec (toggle_repo demo_zones true opacity_default) demo_loaded_state))
             "zones")
  = Some (Some true)
  /\ obj_get (repo (exec (toggle_repo demo_zones true opacity_default) demo_loaded_state))
             "major_roads"
     = obj_get (repo demo_loaded_state) "major_roads".
Proof.
  destruct (toggle_writes_only_active "upload_1a_17" demo_zones true opacity_default
              demo_loaded_state) as [_ H].
  destruct (H _ eq_refl) as (H1 & H2 & _).
  split.
  - exact (f_equal (option_map active) H1).
  - apply H2. discriminate.
Defined.

(** The opacity slider of a row writes the [opacity] of its own entry and
    nothing else in the registry, and it never attaches or detaches a
    layer. *)
Theorem slider_writes_only_opacity (id : string) (cfg : LayerConfig) (val : float)
        (s : State) :
  (forall e, obj_get (uploaded s) id = Some e ->
     obj_get (uploaded (exec (slider_uploaded id val) s)) id = Some (with_opacity e val)
     /\ (forall k, k <> id ->
           obj_get (uploaded (exec (slider_uploaded id val) s)) k = obj_get (uploaded s) k)
     /\ obj_keys (uploaded (exec (slider_uploaded id val) s)) = obj_keys (uploaded s)
     /\ repo (exec (slider_uploaded id val) s) = repo s
     /\ map_layers (exec (slider_uploaded id val) s) = map_layers s)
  /\ (forall e, obj_get (repo s) (cfg_id cfg) = Some e ->
     obj_get (repo (exec (slider_repo cfg val) s)) (cfg_id cfg) = Some (with_opacity e val)
     /\ (forall k, k <> cfg_id cfg ->
           obj_get (repo (exec (slider_repo cfg val) s)) k = obj_get (repo s) k)
     /\ obj_keys (repo (exec (slider_repo cfg val) s)) = obj_keys (repo s)
     /\ uploaded (exec (slider_repo cfg val) s) = uploaded s
     /\ map_layers (exec (slider_repo cfg val) s) = map_layers s).
Proof.
  split; intros e Hg.
  - rewrite exec_slider_uploaded, Hg. cbv zeta.
    destruct (obj_set_present_facts (uploaded s) id (with_opacity e val) Hg)
      as (H1 & H2 & H3).
    destruct (flag_truthy (active e)); [destruct (layer e) as [l|]|];
      try (repeat split; assumption).
    destruct (frame_ema_setOpacity_opt l val
                (set_uploaded s (obj_set (uploaded s) id (with_opacity e val))))
      as (-> & -> & _).
    rewrite map_layers_ema_setOpacity_opt. repeat split; assumption.
  - rewrite exec_slider_repo, Hg. cbv zeta.
    destruct (obj_set_present_facts (repo s) (cfg_id cfg) (with_opacity e val) Hg)
      as (H1 & H2 & H3).
    destruct (flag_truthy (active e)); [destruct (layer e) as [l|]|];
      try (repeat split; assumption).
    destruct (frame_ema_setOpacity_opt l val
                (set_repo s (obj_set (repo s) (cfg_id cfg) (with_opacity e val))))
      as (-> & -> & _).
    rewrite map_layers_ema_setOpacity_opt. repeat split; assumption.
Qed.

Lemma slider_writes_only_opacity_witness :
  option_map opacity
    (obj_get (uploaded (exec (slider_uploaded "upload_1a_17" opacity_roads)
                             demo_loaded_state))
             "upload_1a_17")
  = Some opacity_roads.
Proof.
  destruct (slider_writes_only_opacity "upload_1a_17" demo_zones opacity_roads
              demo_loaded_state) as [H _].
  destruct (H _ eq_refl) as (H1 & _).
  exact (f_equal (option_map opacity) H1).
Defined.

Lemma proto_value_builtin s k a : builtin_member k = Some a -> proto_value s k = None.
Proof.
  intros Hb. destruct (proto_value s k) as [v|] eqn:Hp; [|reflexivity].
  apply proto_value_key in Hp as [-> | ->]; discriminate Hb.
Qed.

Lemma lookup_member s part k a :
  obj_get part k = None -> builtin_member k = Some a -> lookup s part k = FMember k.
Proof.
  intros Hg Hb. unfold lookup. now rewrite Hg, (proto_value_builtin s _ Hb), Hb.
Qed.

(** A handler that finds no entry under its id never touches the registry
    or the map.  When nothing answers the id, a toggle, a slider move or a
    removal changes nothing at all, except that the toggle of a repo row
    raises the "Layer not ready yet" alert; ids made by [uid] are of that
    kind.  When the id of a repo row is the name of a built-in member of
    [Object.prototype], the lookup answers with that member: the toggle
    raises no alert, assigns [active] on the member and dies with a
    TypeError, and the slider assigns [opacity] on it. *)
Theorem handlers_without_entry (id : string) (cfg : LayerConfig) (isOn : bool)
        (val : float) (s : State) :
  (forall entropy, inheritable (uid "upload" entropy) = false)
  /\ (obj_get (uploaded s) id = None ->
      exec (onRemove id) s = s
      /\ (inheritable id = false ->
          exec (toggle_uploaded id isOn val) s = s
          /\ exec (slider_uploaded id val) s = s))
  /\ (obj_get (repo s) (cfg_id cfg) = None ->
      (inheritable (cfg_id cfg) = false ->
       exec (slider_repo cfg val) s = s
       /\ exec (toggle_repo cfg isOn val) s
          = emit (EvAlert ("Layer not ready yet: " ++ cfg_name cfg)) s)
      /\ (forall a, builtin_member (cfg_id cfg) = Some a ->
          toggle_repo cfg isOn val s
          = (Throw "TypeError: cannot read properties of undefined",
             write_member (cfg_id cfg) (WActive isOn) s)
          /\ exec (slider_repo cfg val) s = write_member (cfg_id cfg) (WOpacity val) s)
      /\ uploaded (exec (toggle_repo cfg isOn val) s) = uploaded s
      /\ repo (exec (toggle_repo cfg isOn val) s) = repo s
      /\ map_layers (exec (toggle_repo cfg isOn val) s) = map_layers s
      /\ uploaded (exec (slider_repo cfg val) s) = uploaded s
      /\ repo (exec (slider_repo cfg val) s) = repo s
      /\ map_layers (exec (slider_repo cfg val) s) = map_layers s).
Proof.
  split; [intros [r t]; reflexivity|]. split; intros Hg.
  - split; [now rewrite exec_onRemove, Hg|].
    intros Hi. rewrite exec_toggle_uploaded, exec_slider_uploaded, Hg.
    now rewrite (lookup_plain s (uploaded s) _ Hi), Hg.
  - split; [|split].
    + intros Hi. rewrite exec_slider_repo, exec_toggle_repo, Hg.
      now rewrite (lookup_plain s (repo s) _ Hi), Hg.
    + intros a Hb. split.
      * unfold toggle_repo, ebind, gets, modify, lift, eret.
        rewrite (lookup_member s _ _ Hg Hb). reflexivity.
      * rewrite exec_slider_repo, Hg. now rewrite (lookup_member s _ _ Hg Hb).
    + rewrite exec_slider_repo, exec_toggle_repo, Hg.
      destruct (lookup s (repo s) (cfg_id cfg)) as [e|v|m|]; simpl;
        try destruct (truthy v); repeat split.
Qed.

Lemma handlers_without_entry_witness :
  exec (onRemove "upload_zz_99") demo_loaded_state = demo_loaded_state
  /\ log (exec (toggle_repo demo_broken true opacity_default) demo_loaded_state)
     = log demo_loaded_state ++ [EvAlert "Layer not ready yet: broken"]
  /\ toggle_repo (demo_cfg "constructor" "other" "census.geojson") true opacity_default
                 demo_loaded_state
     = (Throw "TypeError: cannot read properties of undefined",
        write_member "constructor" (WActive true) demo_loaded_state).
Proof.
  destruct (handlers_without_entry "upload_zz_99" demo_broken true opacity_default
              demo_loaded_state) as (_ & H1 & H2).
  destruct (H1 eq_refl) as (H & _). destruct (H2 eq_refl) as (H' & _).
  destruct (H' eq_refl) as (_ & Ht).
  split; [exact H|]. split; [now rewrite Ht|].
  destruct (handlers_without_entry "upload_zz_99"
              (demo_cfg "constructor" "other" "census.geojson") true opacity_default
              demo_loaded_state) as (_ & _ & H3).
  destruct (H3 eq_refl) as (_ & Hm & _).
  exact (proj1 (Hm (Some 1) eq_refl)).
Defined.

(** Removing an uploaded layer deletes its entry and nothing else: every
    other uploaded entry and the repo partition stay as they are, the layer
    of the removed entry is off the map, and every other layer that was on
    the map stays on it. *)
Theorem onRemove_deletes_exactly (id : string) (e : LayerEntry) (s : State) :
  obj_get (uploaded s) id = Some e ->
  obj_get (uploaded (exec (onRemove id) s)) id = None
  /\ (forall k, k <> id ->
        obj_get (uploaded (exec (onRemove id) s)) k = obj_get (uploaded s) k)
  /\ repo (exec (onRemove id) s) = repo s
  /\ (forall l, layer e = Some l -> ~ In (handle l) (map_layers (exec (onRemove id) s)))
  /\ (forall h, (forall l, layer e = Some l -> h <> handle l) ->
        (In h (map_layers (exec (onRemove id) s)) <-> In h (map_layers s))).
Proof.
  intros Hg. rewrite exec_onRemove, Hg. cbv zeta.
  set (s0 := match layer e with
             | Some l => if hasLayer s l then removeLayer l s else s
             | None => s
             end).
  assert (Hu : uploaded s0 = uploaded s /\ repo s0 = repo s).
  { unfold s0. destruct (layer e) as [l|]; [|now split].
    destruct (hasLayer s l); now split. }
  destruct Hu as [Hu Hr]. simpl. rewrite Hu.
  split; [apply obj_get_delete_same|].
  split; [intros k Hne; apply obj_get_delete_other; congruence|].
  split; [exact Hr|]. split.
  - intros l Hl. unfold s0. rewrite Hl.
    destruct (hasLayer s l) eqn:Hh.
    + rewrite map_layers_removeLayer. tauto.
    + intros Hin. unfold hasLayer in Hh.
      assert (Ht : existsb (Nat.eqb (handle l)) (map_layers s) = true).
      { apply existsb_exists. exists (handle l). split; [exact Hin|apply Nat.eqb_refl]. }
      congruence.
  - intros h Hh. unfold s0. destruct (layer e) as [l|]; [|tauto].
    destruct (hasLayer s l); [|tauto].
    rewrite map_layers_removeLayer. specialize (Hh l eq_refl). tauto.
Qed.

Lemma onRemove_deletes_exactly_witness :
  obj_get (uploaded (exec (onRemove "upload_1a_17") demo_loaded_state)) "upload_1a_17"
  = None
  /\ repo (exec (onRemove "upload_1a_17") demo_loaded_state) = repo demo_loaded_state.
Proof.
  destruct (@onRemove_deletes_exactly "upload_1a_17" _ demo_loaded_state eq_refl)
    as (H1 & _ & H3 & _).
  split; assumption.
Defined.

(* ================================================================== *)
(** ** Upload ids and what the aggregate query sees *)

Lemma array_index_starts_with_digit c r :
  digit_of c = None -> is_array_index (String c r) = false.
Proof.
  intros Hd. unfold is_array_index, array_index.
  destruct (Ascii.eqb c "0" && negb (str_empty r)); [reflexivity|].
  simpl. now rewrite Hd.
Qed.

Lemma index_props_app_named {V} (o : JsObject V) p :
  is_array_index (fst p) = false -> index_props (o ++ [p]) = index_props o.
Proof.
  unfold is_array_index. intros Hp.
  induction o as [|q r IH]; simpl.
  - destruct (array_index (fst p)); [discriminate|reflexivity].
  - now rewrite IH.
Qed.

Lemma enumeration_order_app_named {V} (o : JsObject V) p :
  is_array_index (fst p) = false ->
  enumeration_order (o ++ [p]) = enumeration_order o ++ [p].
Proof.
  intros Hp. unfold enumeration_order, named_props.
  rewrite (index_props_app_named o p Hp), filter_app. simpl. rewrite Hp. simpl.
  now rewrite app_assoc.
Qed.

Lemma no_index_keys_set {V} (o : JsObject V) k v :
  no_index_keys o -> is_array_index k = false -> no_index_keys (obj_set o k v).
Proof.
  unfold no_index_keys. intros Ho Hk k' Hin.
  destruct (obj_has o k) eqn:Hh.
  - rewrite obj_keys_set_present in Hin by exact Hh. now apply Ho.
  - rewrite obj_keys_set_absent in Hin by exact Hh.
    apply in_app_or in Hin as [Hin|[<-|[]]]; [now apply Ho|exact Hk].
Qed.

Lemma uploaded_commit_uploaded name id result lf s :
  uploaded (commit_uploaded name id result lf s)
  = obj_set (uploaded s) id
            (uploaded_entry name id result
                            (fst (store_features (heap_next s) (res_features result))) lf)
  /\ repo (commit_uploaded name id result lf s) = repo s.
Proof.
  unfold commit_uploaded.
  now destruct (store_features (heap_next s) (res_features result)).
Qed.

(** An id made by [uid] is never an array index, whatever the random part
    and the clock are, for each of the prefixes the script uses; so an
    uploaded partition whose ids come from [uid] is walked by [for...in] in
    the order of the uploads. *)
Theorem uid_keeps_upload_order (W : World) (name : string) (entropy : string * string)
        (result : IngestResult) (s : State) :
  is_array_index (uid "layer" entropy) = false
  /\ is_array_index (uid "upload" entropy) = false
  /\ is_array_index (uid "upload_geojson" entropy) = false
  /\ is_array_index (uid "upload_shp" entropy) = false
  /\ (no_index_keys (uploaded s) ->
      no_index_keys (uploaded (exec (upload_commit W name (uid "upload" entropy) result) s))
      /\ enumeration_order
           (uploaded (exec (upload_commit W name (uid "upload" entropy) result) s))
         = uploaded (exec (upload_commit W name (uid "upload" entropy) result) s)).
Proof.
  assert (Hu : is_array_index (uid "upload" entropy) = false)
    by now apply array_index_starts_with_digit.
  repeat split; try (now apply array_index_starts_with_digit).
  - rewrite exec_upload_commit.
    destruct (computeLabelField W upload_cfg (res_features result)); [|assumption].
    destruct (uploaded_commit_uploaded name (uid "upload" entropy) result a s) as [-> _].
    now apply no_index_keys_set.
  - apply enumeration_order_no_index. rewrite exec_upload_commit.
    destruct (computeLabelField W upload_cfg (res_features result)); [|assumption].
    destruct (uploaded_commit_uploaded name (uid "upload" entropy) result a s) as [-> _].
    now apply no_index_keys_set.
Qed.

Lemma uid_keeps_upload_order_witness :
  own_keys (uploaded (exec (upload_commit demo_world "b.json" (uid "upload" ("9", "2"))
                                          demo_upload)
                           (exec (upload_commit demo_world "a.json"
                                                (uid "upload" ("f", "1")) demo_upload)
                                 init_state)))
  = ["upload_f_1"; "upload_9_2"].
Proof.
  unfold own_keys.
  destruct (uid_keeps_upload_order demo_world "b.json" ("9", "2") demo_upload
              (exec (upload_commit demo_world "a.json" (uid "upload" ("f", "1"))
                                   demo_upload) init_state))
    as (_ & _ & _ & _ & H).
  destruct H as [_ ->]; [|reflexivity].
  intros k Hk. vm_compute in Hk. intuition (subst; reflexivity).
Defined.

Lemma In_concat_active es f :
  In f (concat_active es) <-> exists k d, In (k, d) es /\ In f (contribution d).
Proof.
  unfold concat_active. rewrite in_flat_map. split.
  - intros ([k d] & Hin & Hf). now exists k, d.
  - intros (k & d & Hin & Hf). now exists (k, d).
Qed.

Lemma contribution_feats d f : In f (contribution d) -> In f (entry_feats d).
Proof.
  unfold contribution, entry_feats.
  destruct (active d) as [[|]|]; destruct (features d); simpl; tauto.
Qed.

(** With unique ids, the query returns a feature exactly when an entry that
    contributes it is in one of the partitions. *)
Lemma In_getAllActiveFeatures s f :
  wf_obj (uploaded s) -> wf_obj (repo s) ->
  (In f (getAllActiveFeatures s)
   <-> (exists k d, In (k, d) (uploaded s) /\ In f (contribution d))
       \/ (exists k d, In (k, d) (repo s) /\ In f (contribution d))).
Proof.
  intros Hu Hr. unfold getAllActiveFeatures.
  rewrite (collect_active_enumeration s _ Hr), (collect_active_enumeration s _ Hu).
  simpl. rewrite in_app_iff, !In_concat_active.
  assert (Hperm : forall (o : JsObject LayerEntry) p,
             In p (enumeration_order o) <-> In p o).
  { intros o p. split; [apply In_enumeration_order|].
    apply Permutation_in. symmetry. apply enumeration_order_perm. }
  split; (intros [(k & d & Hin & Hf)|(k & d & Hin & Hf)];
          [left|right]; exists k, d; (split; [now apply Hperm|exact Hf])).
Qed.

(** A file committed under a fresh [uid] id is not seen by the aggregate
    query: it stays out until its row is switched on. *)
Theorem fresh_upload_is_not_seen (W : World) (name : string) (entropy : string * string)
        (result : IngestResult) (s : State) :
  wf_obj (uploaded s) -> wf_obj (repo s) ->
  obj_get (uploaded s) (uid "upload" entropy) = None ->
  getAllActiveFeatures (exec (upload_commit W name (uid "upload" entropy) result) s)
  = getAllActiveFeatures s.
Proof.
  intros Hu Hr Hnone. rewrite exec_upload_commit.
  destruct (computeLabelField W upload_cfg (res_features result)) as [lf|]; [|reflexivity].
  destruct (uploaded_commit_uploaded name (uid "upload" entropy) result lf s) as [Hup Hrep].
  set (s' := commit_uploaded name (uid "upload" entropy) result lf s) in *.
  assert (Hu' : wf_obj (uploaded s')) by (rewrite Hup; now apply wf_obj_set).
  unfold getAllActiveFeatures.
  rewrite (@collect_active_enumeration s' (repo s') (collect_active s' (uploaded s') []))
    by (rewrite Hrep; exact Hr).
  rewrite (collect_active_enumeration s' [] Hu').
  rewrite (collect_active_enumeration s (collect_active s (uploaded s) []) Hr).
  rewrite (collect_active_enumeration s [] Hu).
  rewrite Hrep, Hup, (@obj_set_absent _ (uploaded s) (uid "upload" entropy) _ Hnone).
  rewrite enumeration_order_app_named by now apply array_index_starts_with_digit.
  unfold concat_active at 1. rewrite flat_map_app. simpl.
  now rewrite app_nil_r.
Qed.

Lemma fresh_upload_is_not_seen_witness :
  getAllActiveFeatures
    (exec (upload_commit demo_world "more.json" (uid "upload" ("ab", "7")) demo_upload)
          demo_named_state)
  = getAllActiveFeatures demo_named_state.
Proof.
  apply fresh_upload_is_not_seen.
  - vm_compute; repeat constructor; simpl; intuition discriminate.
  - vm_compute; repeat constructor; simpl; intuition discriminate.
  - reflexivity.
Defined.

Lemma off_entry_not_held o id e k d f :
  NoDup (addrs_of o) -> wf_obj o -> obj_get o id = Some e -> In f (entry_feats e) ->
  In (k, d) (obj_set o id (with_active e false)) -> In f (contribution d) -> False.
Proof.
  intros Hnd Hwf Hg Hf Hin Hc.
  destruct (String.eqb_spec k id) as [->|Hne].
  - assert (Hd : obj_get (obj_set o id (with_active e false)) id = Some d)
      by (apply In_obj_get; [now apply wf_obj_set|exact Hin]).
    rewrite obj_get_set_same in Hd. injection Hd as <-.
    unfold contribution in Hc. simpl in Hc. exact Hc.
  - apply In_obj_set_other in Hin; [|exact Hne].
    apply contribution_feats in Hc.
    apply (@addrs_of_deleted_gone o id e (addr f) Hnd Hg); [now apply in_map|].
    unfold addrs_of. apply in_flat_map. exists (k, d). split.
    + unfold obj_delete. apply filter_In. split; [exact Hin|].
      simpl. apply negb_true_iff. now apply String.eqb_neq.
    + now apply in_map.
Qed.

(** Switching a row on puts every feature of its entry into the result of
    [getAllActiveFeatures]; switching it off takes every feature object of
    the entry out of it.  This holds for uploaded and for repo rows, in any
    state where ids are unique and no feature object is shared. *)
Theorem toggle_decides_visibility (id : string) (cfg : LayerConfig) (slider : float)
        (s : State) (f : Feature) :
  heap_wf s -> wf_obj (uploaded s) -> wf_obj (repo s) ->
  (forall e, obj_get (uploaded s) id = Some e -> In f (entry_feats e) ->
     In f (getAllActiveFeatures (exec (toggle_uploaded id true slider) s))
     /\ ~ In f (getAllActiveFeatures (exec (toggle_uploaded id false slider) s)))
  /\ (forall e, obj_get (repo s) (cfg_id cfg) = Some e -> In f (entry_feats e) ->
     In f (getAllActiveFeatures (exec (toggle_repo cfg true slider) s))
     /\ ~ In f (getAllActiveFeatures (exec (toggle_repo cfg false slider) s))).
Proof.
  intros (Hnu & Hnr & Hdis & _) Hu Hr.
  assert (Hon : forall e, In f (entry_feats e) -> In f (contribution (with_active e true))).
  { intros e. unfold contribution, entry_feats. simpl. now destruct (features e). }
  assert (Hheld : forall (o : JsObject LayerEntry) k d,
             In (k, d) o -> In f (contribution d) -> In (addr f) (addrs_of o)).
  { intros o k d Hin Hc. apply contribution_feats in Hc.
    unfold addrs_of. apply in_flat_map. exists (k, d). split; [exact Hin|now apply in_map]. }
  split; intros e Hg Hf; split.
  - destruct (toggle_uploaded_registry id true slider s Hg) as (Hup & Hrep & _).
    apply In_getAllActiveFeatures.
    + rewrite Hup. now apply wf_obj_set.
    + now rewrite Hrep.
    + left. exists id, (with_active e true). split; [|now apply Hon].
      rewrite Hup. apply obj_get_In, obj_get_set_same.
  - destruct (toggle_uploaded_registry id false slider s Hg) as (Hup & Hrep & _).
    intros Hin. apply In_getAllActiveFeatures in Hin;
      [|rewrite Hup; now apply wf_obj_set|now rewrite Hrep].
    rewrite Hup, Hrep in Hin.
    destruct Hin as [(k & d & Hin & Hc)|(k & d & Hin & Hc)].
    + exact (@off_entry_not_held _ _ _ _ _ _ Hnu Hu Hg Hf Hin Hc).
    + apply (Hdis (addr f)); [|now apply Hheld with k d].
      apply addrs_of_get with (k := id) (e := e); [exact Hg|now apply in_map].
  - destruct (toggle_repo_registry cfg true slider s Hg) as (Hrep & Hup & _).
    apply In_getAllActiveFeatures.
    + now rewrite Hup.
    + rewrite Hrep. now apply wf_obj_set.
    + right. exists (cfg_id cfg), (with_active e true). split; [|now apply Hon].
      rewrite Hrep. apply obj_get_In, obj_get_set_same.
  - destruct (toggle_repo_registry cfg false slider s Hg) as (Hrep & Hup & _).
    intros Hin. apply In_getAllActiveFeatures in Hin;
      [|now rewrite Hup|rewrite Hrep; now apply wf_obj_set].
    rewrite Hup, Hrep in Hin.
    destruct Hin as [(k & d & Hin & Hc)|(k & d & Hin & Hc)].
    + apply (Hdis (addr f)); [now apply Hheld with k d|].
      apply addrs_of_get with (k := cfg_id cfg) (e := e); [exact Hg|now apply in_map].
    + exact (@off_entry_not_held _ _ _ _ _ _ Hnr Hr Hg Hf Hin Hc).
Qed.

Lemma toggle_decides_visibility_witness :
  In {| addr := 0; fval := VString "a" |}
     (getAllActiveFeatures
        (exec (toggle_uploaded "upload_1a_17" true opacity_default) demo_loaded_state))
  /\ ~ In {| addr := 0; fval := VString "a" |}
         (getAllActiveFeatures
            (exec (toggle_uploaded "upload_1a_17" false opacity_default)
                  demo_loaded_state)).
Proof.
  destruct (@toggle_decides_visibility "upload_1a_17" demo_zones opacity_default
              demo_loaded_state {| addr := 0; fval := VString "a" |}
              (heap_wf_reachable demo_world
                 [ ActOp (OpUpload "points.csv" "upload_1a_17" demo_upload);
                   ActPreload demo_registry [] ])
              (proj1 (wf_reachable demo_world
                        [ ActOp (OpUpload "points.csv" "upload_1a_17" demo_upload);
                          ActPreload demo_registry [] ]))
              (proj2 (wf_reachable demo_world
                        [ ActOp (OpUpload "points.csv" "upload_1a_17" demo_upload);
                          ActPreload demo_registry [] ])))
    as [H _].
  apply (H _ eq_refl). left. reflexivity.
Defined.

(* ================================================================== *)
(** ** What never happens to the repo partition *)

Lemma restyled_refl e : restyled e e.
Proof. now repeat split. Qed.

Lemma restyled_trans e1 e2 e3 : restyled e1 e2 -> restyled e2 e3 -> restyled e1 e3.
Proof.
  unfold restyled. intuition congruence.
Qed.

(** What one panel event does to the repo partition. *)
Lemma repo_run_op W op s :
  repo (run_op W op s)
  = match op with
    | OpToggleRepo cfg isOn _ =>
        match obj_get (repo s) (cfg_id cfg) with
        | Some e => obj_set (repo s) (cfg_id cfg) (with_active e isOn)
        | None => repo s
        end
    | OpSliderRepo cfg val =>
        match obj_get (repo s) (cfg_id cfg) with
        | Some e => obj_set (repo s) (cfg_id cfg) (with_opacity e val)
        | None => repo s
        end
    | _ => repo s
    end.
Proof.
  destruct op as [name id r|id isOn slider|id val|id|cfg isOn slider|cfg val]; simpl.
  - rewrite exec_upload_commit.
    destruct (computeLabelField W upload_cfg (res_features r)); [|reflexivity].
    unfold commit_uploaded. now destruct (store_features (heap_next s) (res_features r)).
  - destruct (obj_get (uploaded s) id) as [e|] eqn:Hg.
    + now destruct (@toggle_uploaded_registry id isOn slider s e Hg) as (_ & -> & _).
    + rewrite exec_toggle_uploaded, Hg. now destruct (lookup s (uploaded s) id).
  - rewrite exec_slider_uploaded.
    destruct (obj_get (uploaded s) id) as [e|] eqn:Hg;
      [|now destruct (lookup s (uploaded s) id)].
    cbv zeta. destruct (flag_truthy (active e)); [|reflexivity].
    destruct (layer e) as [l|]; [|reflexivity].
    now destruct (frame_ema_setOpacity_opt l val
                    (set_uploaded s (obj_set (uploaded s) id (with_opacity e val))))
      as (_ & -> & _).
  - destruct (obj_get (uploaded s) id) as [e|] eqn:Hg.
    + now destruct (@onRemove_present id e s Hg) as (_ & -> & _).
    + now rewrite exec_onRemove, Hg.
  - destruct (obj_get (repo s) (cfg_id cfg)) as [e|] eqn:Hg.
    + now destruct (@toggle_repo_registry cfg isOn slider s e Hg) as (-> & _).
    + rewrite exec_toggle_repo, Hg.
      destruct (lookup s (repo s) (cfg_id cfg)) as [e|v|m|]; simpl;
        try destruct (truthy v); reflexivity.
  - rewrite exec_slider_repo.
    destruct (obj_get (repo s) (cfg_id cfg)) as [e|] eqn:Hg;
      [|now destruct (lookup s (repo s) (cfg_id cfg))].
    cbv zeta. destruct (flag_truthy (active e)); [|reflexivity].
    destruct (layer e) as [l|]; [|reflexivity].
    now destruct (frame_ema_setOpacity_opt l val
                    (set_repo s (obj_set (repo s) (cfg_id cfg) (with_opacity e val))))
      as (_ & -> & _).
Qed.

Lemma run_op_restyled W op s k e :
  obj_get (repo s) k = Some e ->
  exists e', obj_get (repo (run_op W op s)) k = Some e' /\ restyled e e'.
Proof.
  intros Hg. rewrite repo_run_op.
  assert (Hset : forall id e0 e1,
             obj_get (repo s) id = Some e0 -> restyled e0 e1 ->
             exists e', obj_get (obj_set (repo s) id e1) k = Some e' /\ restyled e e').
  { intros id e0 e1 H0 Hr. destruct (String.eqb_spec id k) as [->|Hne].
    - rewrite obj_get_set_same. exists e1. split; [reflexivity|]. congruence.
    - rewrite obj_get_set_other by exact Hne. exists e. split; [exact Hg|apply restyled_refl]. }
  assert (Hsame : exists e', obj_get (repo s) k = Some e' /\ restyled e e')
    by (exists e; split; [exact Hg|apply restyled_refl]).
  destruct op as [name id r|id isOn slider|id val|id|cfg isOn slider|cfg val];
    try exact Hsame.
  - destruct (obj_get (repo s) (cfg_id cfg)) as [e0|] eqn:H0; [|exact Hsame].
    apply (Hset _ e0); [exact H0|now repeat split].
  - destruct (obj_get (repo s) (cfg_id cfg)) as [e0|] eqn:H0; [|exact Hsame].
    apply (Hset _ e0); [exact H0|now repeat split].
Qed.

Lemma run_ops_restyled W ops : forall s k e,
  obj_get (repo s) k = Some e ->
  exists e', obj_get (repo (run_ops W ops s)) k = Some e' /\ restyled e e'.
Proof.
  induction ops as [|op ops IH]; intros s k e Hg; simpl.
  - exists e. split; [exact Hg|apply restyled_refl].
  - destruct (@run_op_restyled W op s k e Hg) as (e1 & Hg1 & Hr1).
    destruct (IH _ _ _ Hg1) as (e' & Hg' & Hr').
    exists e'. split; [exact Hg'|now apply restyled_trans with e1].
Qed.

Lemma preload_loop_restyled W registry : forall sched s k e,
  obj_get (repo s) k = Some e ->
  exists e', obj_get (repo (preload_loop W registry sched s)) k = Some e'
             /\ restyled e e'.
Proof.
  induction registry as [|cfg rest IH]; intros sched s k e Hg; simpl.
  - exists e. split; [exact Hg|apply restyled_refl].
  - destruct (found_truthy (lookup s (repo s) (cfg_id cfg))) eqn:Hhas; [now apply IH|].
    rewrite exec_preload_resume.
    set (s2 := run_ops W (hd [] sched) (emit (EvFetch (cfg_url cfg)) s)).
    destruct (@run_ops_restyled W (hd [] sched) (emit (EvFetch (cfg_url cfg)) s) k e Hg)
      as (e2 & Hg2 & Hr2).
    fold s2 in Hg2.
    assert (Hne : cfg_id cfg <> k).
    { intros Heq. apply found_falsy_none in Hhas. rewrite Heq, Hg in Hhas.
      discriminate. }
    destruct (IH (tl sched) (preload_outcome W cfg (fetch W (cfg_url cfg)) s2) k e2)
      as (e' & Hg' & Hr').
    + now rewrite repo_preload_outcome_other.
    + exists e'. split; [exact Hg'|now apply restyled_trans with e2].
Qed.

Lemma force_roads_restyled s k e :
  obj_get (repo s) k = Some e ->
  exists e', obj_get (repo (force_roads s)) k = Some e' /\ restyled e e'.
Proof.
  intros Hg. rewrite repo_force_roads.
  assert (Hsame : exists e', obj_get (repo s) k = Some e' /\ restyled e e')
    by (exists e; split; [exact Hg|apply restyled_refl]).
  destruct (obj_get (repo s) roadsId) as [r|] eqn:Hr; [|exact Hsame].
  destruct (layer r); [|exact Hsame].
  destruct (String.eqb_spec roadsId k) as [<-|Hne].
  - rewrite obj_get_set_same. exists (with_active r true).
    split; [reflexivity|]. assert (r = e) by congruence. subst. now repeat split.
  - now rewrite obj_get_set_other.
Qed.

(** Nothing takes an entry out of the repo partition or replaces it: after
    any sequence of uploads, removals, toggles, slider moves and preloader
    runs an entry that was there is still there under its id, with the id,
    the name, the layer handle, the features and the meta data it had; only
    its [active] flag and its opacity may differ. *)
Theorem repo_entries_stay (W : World) (acts : list Action) (s : State)
        (k : string) (e : LayerEntry) :
  obj_get (repo s) k = Some e ->
  exists e', obj_get (repo (run_actions W acts s)) k = Some e'
             /\ entry_id e' = entry_id e /\ entry_name e' = entry_name e
             /\ layer e' = layer e /\ features e' = features e /\ meta e' = meta e.
Proof.
  revert s e. induction acts as [|a acts IH]; intros s e Hg; simpl.
  - now exists e.
  - assert (Hstep : exists e1, obj_get (repo (run_action W a s)) k = Some e1
                               /\ restyled e e1).
    { destruct a as [op|registry sched]; simpl.
      - now apply run_op_restyled.
      - unfold preloadRepoLayers_sched, preload_finish.
        destruct (@preload_loop_restyled W registry sched s k e Hg) as (e1 & Hg1 & Hr1).
        destruct (@force_roads_restyled
                    (emit (EvDispatch "layers:repoPreloaded")
                          (emit (EvLog "✅ Repo layers preloaded")
                                (preload_loop W registry sched s))) k e1 Hg1)
          as (e2 & Hg2 & Hr2).
        exists e2. split; [exact Hg2|now apply restyled_trans with e1]. }
    destruct Hstep as (e1 & Hg1 & Hr1).
    destruct (IH _ _ Hg1) as (e' & Hg' & Hr').
    exists e'. split; [exact Hg'|]. exact (restyled_trans Hr1 Hr').
Qed.

Lemma repo_entries_stay_witness :
  exists e', obj_get (repo (run_actions demo_world
                              [ ActOp (OpToggleRepo demo_zones true opacity_default);
                                ActOp (OpRemove "upload_1a_17");
                                ActPreload demo_registry demo_sched ]
                              demo_loaded_state)) "zones" = Some e'
             /\ entry_id e' = "zones" /\ entry_name e' = "zones"
             /\ layer e' = Some (demo_layer 5)
             /\ features e' = FeatArray [{| addr := 3; fval := VString "zones.geojson" |}]
             /\ meta e' = RepoMeta (Some "zone") "zones.geojson" (Some "zone").
Proof.
  exact (@repo_entries_stay demo_world
           [ ActOp (OpToggleRepo demo_zones true opacity_default);
             ActOp (OpRemove "upload_1a_17");
             ActPreload demo_registry demo_sched ]
           demo_loaded_state "zones" _ eq_refl).
Defined.

(* ================================================================== *)
(** ** What a preloader run writes *)

Lemma uploaded_preload_outcome W cfg resp s :
  uploaded (preload_outcome W cfg resp s) = uploaded s.
Proof.
  unfold preload_outcome.
  destruct (preload_build W cfg resp) as [[[built feats] lf]|e]; [|reflexivity].
  assert (Hc : uploaded (commit_repo cfg built feats lf s) = uploaded s).
  { unfold commit_repo. now destruct (store_features (heap_next s) feats). }
  destruct (built_layer built) as [l|]; [|exact Hc].
  destruct (ema l) as [m|]; [|exact Hc].
  destruct (has_updateZoomStyles m); exact Hc.
Qed.


Lemma uploaded_force_roads s : uploaded (force_roads s) = uploaded s.
Proof.
  destruct (estep_force_roads s) as [Hp Hr | Hp Hu]; [|exact Hu].
  unfold force_roads in *.
  destruct (obj_get (repo s) roadsId) as [r|]; [|reflexivity].
  destruct (layer r) as [l|]; [|reflexivity].
  set (s1 := set_repo s (obj_set (repo s) roadsId (with_active r true))).
  destruct (frame_ema_setOpacity_opt l opacity_roads
              (ema_setActive_opt l true (if hasLayer s1 l then s1 else addTo l s1)))
    as (-> & _).
  destruct (frame_ema_setActive_opt l true (if hasLayer s1 l then s1 else addTo l s1))
    as (-> & _).
  destruct (hasLayer s1 l); [reflexivity|].
  now destruct (frame_addTo l s1) as (-> & _).
Qed.





(* ================================================================== *)
(** ** The layer panel *)

Lemma filter_none {A} (f : A -> bool) (l : list A) :
  (forall x, In x l -> f x = false) -> filter f l = [].
Proof.
  induction l as [|a l IH]; intros H; simpl; [reflexivity|].
  rewrite (H a (or_introl eq_refl)). apply IH. intros x Hx. apply H. now right.
Qed.

Lemma panel_block_plain config g :
  (forall n, builtin_member (group_id g) <> Some (Some (S n))) ->
  panel_block (fold_left bucket_added config []) g
  = Normal (if is_nil (shown_under config g) then [] else [(g, shown_under config g)]).
Proof.
  intros Hg. unfold panel_block, group_lookup, shown_under.
  rewrite obj_get_grouped.
  destruct (bucket_of config (group_id g)) as [|c l]; simpl.
  - destruct (builtin_member (group_id g)) as [[[|n]|]|]; try reflexivity.
    now elim (Hg n).
  - now destruct (if negb (type_is c "roads")
                  then c :: filter (fun cfg => negb (type_is cfg "roads")) l
                  else filter (fun cfg => negb (type_is cfg "roads")) l).
Qed.

Lemma panel_loop_plain config : forall groupOrder,
  (forall g n, In g groupOrder -> builtin_member (group_id g) <> Some (Some (S n))) ->
  panel_loop (fold_left bucket_added config []) groupOrder
  = (flat_map (fun g => if is_nil (shown_under config g) then []
                        else [(g, shown_under config g)])
              groupOrder,
     Normal tt).
Proof.
  induction groupOrder as [|g rest IH]; intros H; simpl; [reflexivity|].
  rewrite panel_block_plain by (intros n; apply H; now left).
  rewrite IH by (intros g0 n Hin; apply H; now right).
  reflexivity.
Qed.

(** When no config has a type, and no group an id, that makes the lookups
    of the panel answer with an inherited function, the panel is built to
    its end: it shows one block per entry of the group order under whose id
    a config other than roads counts, in the order of the group order, with
    those configs in registry order.  So a config is shown under a group
    exactly when the group is declared, the config's type is the group's id
    (a config whose type is absent or empty counts as "other") and the type
    is not roads; a config whose type no declared group has is shown
    nowhere, and no block is empty. *)
Theorem panel_shows_declared_groups
        (config : list LayerConfig) (groupOrder : list GroupDefinition) :
  (forall cfg t, In cfg config -> cfg_type cfg = Some t -> builtin_member t = None) ->
  (forall g n, In g groupOrder -> builtin_member (group_id g) <> Some (Some (S n))) ->
  render_panel config groupOrder
  = (flat_map (fun g => if is_nil (shown_under config g) then []
                        else [(g, shown_under config g)])
              groupOrder,
     Normal tt)
  /\ forall g cfg,
       (exists visible, In (g, visible) (panel_groups config groupOrder) /\ In cfg visible)
       <-> (In g groupOrder /\ In cfg config
            /\ ((cfg_type cfg = Some (group_id g) /\ group_id g <> "")
                \/ (group_id g = "other" /\ string_truthy (cfg_type cfg) = false))
            /\ cfg_type cfg <> Some "roads").
Proof.
  intros Hcfg Hgrp.
  assert (Hclosed : render_panel config groupOrder
                    = (flat_map (fun g => if is_nil (shown_under config g) then []
                                          else [(g, shown_under config g)])
                                groupOrder,
                       Normal tt)).
  { unfold render_panel. rewrite (groupRepoLayers_plain _ Hcfg).
    now apply panel_loop_plain. }
  split; [exact Hclosed|].
  assert (Hshown : forall g cfg,
             In cfg (shown_under config g)
             <-> (In cfg config
                  /\ ((cfg_type cfg = Some (group_id g) /\ group_id g <> "")
                      \/ (group_id g = "other" /\ string_truthy (cfg_type cfg) = false))
                  /\ cfg_type cfg <> Some "roads")).
  { intros g cfg. unfold shown_under, bucket_of. rewrite !filter_In.
    assert (Hf : falls_under (group_id g) cfg = true
                 <-> ((cfg_type cfg = Some (group_id g) /\ group_id g <> "")
                      \/ (group_id g = "other" /\ string_truthy (cfg_type cfg) = false))).
    { unfold falls_under, string_truthy.
      destruct (cfg_type cfg) as [x|].
      - destruct (str_empty x) eqn:Ex.
        + destruct x; [|discriminate Ex]. split.
          * intros H. apply String.eqb_eq in H. now right.
          * intros [[[= H] Hne]|[H _]]; [now elim Hne|]. now apply String.eqb_eq.
        + split.
          * intros H. apply String.eqb_eq in H. subst x. left.
            split; [reflexivity|]. intros E. rewrite E in Ex. discriminate.
          * intros [[[= H] _]|[_ H]]; [now apply String.eqb_eq|discriminate].
      - split.
        + intros H. apply String.eqb_eq in H. now right.
        + intros [[H _]|[H _]]; [discriminate|now apply String.eqb_eq]. }
    rewrite Hf. unfold type_is.
    assert (Hr : negb match cfg_type cfg with
                      | Some x => String.eqb x "roads"
                      | None => false
                      end = true <-> cfg_type cfg <> Some "roads").
    { destruct (cfg_type cfg) as [x|]; simpl; [|split; [discriminate|reflexivity]].
      rewrite negb_true_iff.
      destruct (String.eqb_spec x "roads") as [->|Hne]; split; congruence. }
    rewrite Hr. tauto. }
  intros g cfg. unfold panel_groups. rewrite Hclosed. simpl. split.
  - intros (visible & Hin & Hc).
    apply in_flat_map in Hin as (g0 & Hg0 & Hin).
    destruct (is_nil (shown_under config g0)); [destruct Hin|].
    destruct Hin as [[= <- <-]|[]].
    apply Hshown in Hc. tauto.
  - intros (Hg & Hrest).
    assert (Hs : In cfg (shown_under config g)) by (apply Hshown; exact Hrest).
    exists (shown_under config g). split; [|exact Hs].
    apply in_flat_map. exists g. split; [exact Hg|].
    destruct (shown_under config g); [destruct Hs|now left].
Qed.

Lemma panel_shows_declared_groups_witness :
  render_panel (demo_untyped :: demo_registry) demo_groups
  = ([ ({| group_id := "zone"; group_title := "Zones" |}, [demo_zones]);
       ({| group_id := "other"; group_title := "Other" |}, [demo_untyped; demo_broken]) ],
     Normal tt).
Proof.
  refine (proj1 (@panel_shows_declared_groups (demo_untyped :: demo_registry)
                   demo_groups _ _)).
  - intros cfg t [<-|[<-|[<-|[<-|[]]]]]; try discriminate; intros [= <-]; reflexivity.
  - intros g n [<-|[<-|[<-|[]]]]; discriminate.
Defined.

Lemma panel_loop_stops repoGroups g post e : forall pre,
  panel_block repoGroups g = Throw e ->
  snd (panel_loop repoGroups pre) = Normal tt ->
  panel_loop repoGroups (pre ++ g :: post) = (fst (panel_loop repoGroups pre), Throw e).
Proof.
  induction pre as [|g0 rest IH]; intros Hblock Hpre; simpl in *.
  - now rewrite Hblock.
  - destruct (panel_block repoGroups g0) as [b|x]; [|discriminate Hpre].
    destruct (panel_loop repoGroups rest) as [bs c]. simpl in *.
    now rewrite (IH Hblock Hpre).
Qed.

(** The panel cannot be built for every configuration.  A config whose type
    is the name of a member of [Object.prototype] makes the grouping throw:
    no block is shown at all.  And when the grouping succeeds, a group whose
    id is the name of an inherited function that takes parameters stops the
    loop: the blocks before it are shown, the exception escapes, and the
    groups after it are never looked at. *)
Theorem panel_build_dies_on_inherited_name
        (config : list LayerConfig) (pre post : list GroupDefinition)
        (g : GroupDefinition) :
  (forall cfg t a, In cfg config -> cfg_type cfg = Some t -> builtin_member t = Some a ->
     render_panel config (pre ++ g :: post)
     = ([], Throw "TypeError: groups[t].push is not a function"))
  /\ ((forall cfg t, In cfg config -> cfg_type cfg = Some t -> builtin_member t = None) ->
      (forall g0 n, In g0 pre -> builtin_member (group_id g0) <> Some (Some (S n))) ->
      (exists n, builtin_member (group_id g) = Some (Some (S n))) ->
      render_panel config (pre ++ g :: post)
      = (fst (render_panel config pre), Throw "TypeError: list.filter is not a function")).
Proof.
  split.
  - intros cfg t a Hin Ht Hb. unfold render_panel.
    now rewrite (groupRepoLayers_member _ _ Hin Ht Hb).
  - intros Hcfg Hpre [n Hg]. unfold render_panel.
    rewrite (groupRepoLayers_plain _ Hcfg).
    assert (Hblock : panel_block (fold_left bucket_added config []) g
                     = Throw "TypeError: list.filter is not a function").
    { unfold panel_block, group_lookup. rewrite obj_get_grouped.
      assert (Hempty : bucket_of config (group_id g) = []).
      { unfold bucket_of. apply filter_none. intros cfg Hin.
        rewrite <- group_key_by_type.
        destruct (String.eqb_spec (group_key cfg) (group_id g)) as [Heq|_];
          [|reflexivity].
        pose proof (group_key_plain cfg (fun t => Hcfg cfg t Hin)) as Hk.
        rewrite Heq in Hk. congruence. }
      rewrite Hempty. simpl. now rewrite Hg. }
    apply panel_loop_stops; [exact Hblock|].
    now rewrite (panel_loop_plain config pre Hpre).
Qed.

Lemma panel_build_dies_on_inherited_name_witness :
  render_panel [demo_zones; demo_cfg "census" "constructor" "census.geojson"] demo_groups
  = ([], Throw "TypeError: groups[t].push is not a function")
  /\ render_panel demo_registry
       [ {| group_id := "zone"; group_title := "Zones" |};
         {| group_id := "hasOwnProperty"; group_title := "Own" |};
         {| group_id := "other"; group_title := "Other" |} ]
     = ([({| group_id := "zone"; group_title := "Zones" |}, [demo_zones])],
        Throw "TypeError: list.filter is not a function").
Proof.
  split.
  - exact (proj1 (panel_build_dies_on_inherited_name
                    [demo_zones; demo_cfg "census" "constructor" "census.geojson"]
                    [] [ {| group_id := "roads"; group_title := "Roads" |};
                         {| group_id := "other"; group_title := "Other" |} ]
                    {| group_id := "zone"; group_title := "Zones" |})
                 (demo_cfg "census" "constructor" "census.geojson") "constructor" (Some 1)
                 (or_intror (or_introl eq_refl)) eq_refl eq_refl).
  - refine (proj2 (panel_build_dies_on_inherited_name demo_registry
                     [ {| group_id := "zone"; group_title := "Zones" |} ]
                     [ {| group_id := "other"; group_title := "Other" |} ]
                     {| group_id := "hasOwnProperty"; group_title := "Own" |}) _ _ _).
    + intros cfg t [<-|[<-|[<-|[]]]]; intros [= <-]; reflexivity.
    + intros g0 n [<-|[]]; discriminate.
    + now exists 0.
Defined.

(* ================================================================== *)
(** ** The markers of an uploaded CSV file *)

Lemma utmToLatLon32620_finite W e n ll :
  utmToLatLon32620 W e n = Normal (Some ll) ->
  Number_isFinite (lat ll) = true /\ Number_isFinite (lon ll) = true.
Proof.
  unfold utmToLatLon32620.
  destruct (proj4 W) as [p|]; [|discriminate].
  unfold try_catch.
  destruct (p utm20 wgs84 [e; n]) as [r|x]; simpl; [|discriminate].
  destruct (destructure_pair r) as [[lo la]|x]; simpl; [|discriminate].
  destruct (Number_isFinite la) eqn:Hla; destruct (Number_isFinite lo) eqn:Hlo;
    simpl; try discriminate.
  intros [= <-]. simpl. now split.
Qed.

Lemma csv_emitted_pairs W file rows :
  Forall2 (fun m f =>
             Number_isFinite (marker_lat m) = true
             /\ Number_isFinite (marker_lon m) = true
             /\ feature_coordinates f = Some (VArray [marker_lon m; marker_lat m])
             /\ exists r, In r rows
                          /\ marker_popup m = csv_popup W file r
                          /\ feature_properties f = csv_properties file r)
          (flat_map (csv_emitted_marker W file) rows)
          (flat_map (csv_emitted W file) rows).
Proof.
  assert (H : forall pre rows,
             Forall2 (fun m f =>
                        Number_isFinite (marker_lat m) = true
                        /\ Number_isFinite (marker_lon m) = true
                        /\ feature_coordinates f
                           = Some (VArray [marker_lon m; marker_lat m])
                        /\ exists r, In r (pre ++ rows)
                                     /\ marker_popup m = csv_popup W file r
                                     /\ feature_properties f = csv_properties file r)
                     (flat_map (csv_emitted_marker W file) rows)
                     (flat_map (csv_emitted W file) rows)).
  { intros pre rows0. revert pre.
    induction rows0 as [|r rest IH]; intros pre; simpl; [constructor|].
    specialize (IH (pre ++ [r])). rewrite <- app_assoc in IH. simpl in IH.
    unfold csv_emitted_marker at 1, csv_emitted at 1.
    destruct (csv_row W file r) as [[[m f]|]|x] eqn:Hrow; simpl; try exact IH.
    constructor; [|exact IH].
    apply csv_row_emits in Hrow as (_ & _ & ll & Hll & -> & ->).
    apply utmToLatLon32620_finite in Hll as [Hla Hlo].
    simpl. repeat split; try assumption.
    exists r. split; [apply in_or_app; right; now left|]. now split. }
  exact (H [] rows).
Qed.

(** Whenever the CSV handler returns a result, PapaParse was loaded and the
    layer of the result holds one marker per feature, in the same order: the
    marker stands at a finite latitude and longitude, the feature's
    coordinates are that position as [longitude, latitude], and both come
    from one row of the parsed file: the popup is the row's and the
    feature's properties are the row's with the two source tags. *)
Theorem handleCsvUpload_marker_per_feature
        (W : World) (file : File) (result : IngestResult) :
  snd (handleCsvUpload W file) = Normal (Some result) ->
  exists parse ms fs,
    Papa_parse W = Some parse
    /\ res_layer result = Some {| handle := new_layer_handle W (file_name file);
                                  markers := ms; ema := Some csv_ema |}
    /\ res_features result = VArray fs
    /\ Forall2 (fun m f =>
                  Number_isFinite (marker_lat m) = true
                  /\ Number_isFinite (marker_lon m) = true
                  /\ feature_coordinates f = Some (VArray [marker_lon m; marker_lat m])
                  /\ exists r, In r (parse (file_text file))
                               /\ marker_popup m = csv_popup W file r
                               /\ feature_properties f = csv_properties file r)
               ms fs.
Proof.
  unfold handleCsvUpload.
  destruct (Papa_parse W) as [parse|]; simpl; [|discriminate].
  rewrite csv_loop_emitted. simpl. intros [= <-].
  exists parse. do 2 eexists. split; [reflexivity|]. split; [reflexivity|].
  split; [reflexivity|apply csv_emitted_pairs].
Qed.

Lemma handleCsvUpload_marker_per_feature_witness :
  exists parse ms fs,
    Papa_parse demo_world = Some parse
    /\ Some {| handle := 10; markers := [csv_marker demo_world demo_file demo_row
                                           {| lat := VNumber 12; lon := VNumber 5 |};
                                         csv_marker demo_world demo_file demo_tagged_row
                                           {| lat := VNumber 12; lon := VNumber 5 |}];
               ema := Some csv_ema |}
       = Some {| handle := 10; markers := ms; ema := Some csv_ema |}
    /\ VArray [csv_feature demo_file demo_row {| lat := VNumber 12; lon := VNumber 5 |};
               csv_feature demo_file demo_tagged_row
                           {| lat := VNumber 12; lon := VNumber 5 |}]
       = VArray fs
    /\ Forall2 (fun m f =>
                  Number_isFinite (marker_lat m) = true
                  /\ Number_isFinite (marker_lon m) = true
                  /\ feature_coordinates f = Some (VArray [marker_lon m; marker_lat m])
                  /\ exists r, In r (parse (file_text demo_file))
                               /\ marker_popup m = csv_popup demo_world demo_file r
                               /\ feature_properties f = csv_properties demo_file r)
               ms fs.
Proof.
  exact (@handleCsvUpload_marker_per_feature demo_world demo_file
           {| res_layer :=
                Some {| handle := 10;
                        markers := [csv_marker demo_world demo_file demo_row
                                      {| lat := VNumber 12; lon := VNumber 5 |};
                                    csv_marker demo_world demo_file demo_tagged_row
                                      {| lat := VNumber 12; lon := VNumber 5 |}];
                        ema := Some csv_ema |};
              res_features :=
                VArray [csv_feature demo_file demo_row
                          {| lat := VNumber 12; lon := VNumber 5 |};
                        csv_feature demo_file demo_tagged_row
                          {| lat := VNumber 12; lon := VNumber 5 |}] |}
           eq_refl).
Defined.

(* ================================================================== *)
(** ** The upload click handler *)

Lemma frame_emit_all evs : forall s, frame s (fold_left (fun st ev => emit ev st) evs s).
Proof.
  induction evs as [|ev evs IH]; intros s; simpl; [apply frame_refl|].
  eapply frame_trans; [apply frame_emit|apply IH].
Qed.

(** The [try] block of a file always ends normally, with the file's outcome;
    when no panel event arrives in the meantime it leaves the registry as it
    was. *)
Lemma upload_try_outcome W H u s :
  exists s1, upload_try W H u s = (Normal (upload_outcome W H u), s1)
             /\ (up_meanwhile u = [] -> frame s s1).
Proof.
  unfold upload_try, upload_outcome, etry, ebind, emit_all, modify, lift, eret.
  destruct (ends_with (toLowerCase H (file_name (up_file u))) ".csv").
  - unfold handleCsvUpload.
    destruct (Papa_parse W) as [parse|]; simpl.
    + destruct (csv_loop W (up_file u) (parse (file_text (up_file u))) [] [])
        as [[ms fs]|e]; simpl;
        (eexists; split; [reflexivity|intros ->; simpl; repeat split]).
    + eexists; split; [reflexivity|intros _; repeat split].
  - destruct (ends_with (toLowerCase H (file_name (up_file u))) ".geojson"
              || ends_with (toLowerCase H (file_name (up_file u))) ".json").
    + destruct (handleGeoJsonUpload W H (up_file u) (up_cfg_uid u)) as [r|e]; simpl;
        (eexists; split; [reflexivity|intros ->; simpl; repeat split]).
    + destruct (ends_with (toLowerCase H (file_name (up_file u))) ".zip").
      * unfold handleShapefileZipUpload.
        destruct (shp H) as [convert|]; simpl.
        -- destruct (convert (file_text (up_file u))) as [data|e]; simpl;
             [|eexists; split; [reflexivity|intros ->; simpl; repeat split]].
           destruct (createLayerFromGeoJson W _ data) as [built|e]; simpl;
             [|eexists; split; [reflexivity|intros ->; simpl; repeat split]].
           destruct (built_result built data) as [r|e]; simpl;
             (eexists; split; [reflexivity|intros ->; simpl; repeat split]).
        -- eexists; split; [reflexivity|intros _; repeat split].
      * simpl. eexists; split; [reflexivity|intros _; repeat split].
Qed.

Lemma frame_commit_uploaded name id r lf s0 s :
  frame s0 s -> frame (commit_uploaded name id r lf s0) (commit_uploaded name id r lf s).
Proof.
  intros (Hu & Hr & Hn). unfold commit_uploaded. rewrite Hn.
  destruct (store_features (heap_next s0) (res_features r)) as [fs n].
  unfold frame. simpl. now rewrite Hu, Hr.
Qed.

Lemma upload_loop_commits W H : forall batch s0 s,
  (forall u, In u batch -> up_meanwhile u = []) ->
  (forall u r, In u batch -> upload_outcome W H u = Some r ->
               exists lf, computeLabelField W upload_cfg (res_features r) = Normal lf) ->
  frame s0 s ->
  fst (upload_loop W H batch s) = Normal tt
  /\ frame (commit_successes W H batch s0) (exec (upload_loop W H batch) s).
Proof.
  unfold commit_successes.
  induction batch as [|u rest IH]; intros s0 s Hseq Hlab Hfr; simpl.
  - split; [reflexivity|exact Hfr].
  - destruct (upload_try_outcome W H u s) as (s1 & Htry & Hs1).
    specialize (Hs1 (Hseq u (or_introl eq_refl))).
    unfold exec, ebind. rewrite Htry.
    assert (Hseq' : forall v, In v rest -> up_meanwhile v = [])
      by (intros v Hv; apply Hseq; now right).
    assert (Hlab' : forall v r, In v rest -> upload_outcome W H v = Some r ->
                      exists lf, computeLabelField W upload_cfg (res_features r) = Normal lf)
      by (intros v r Hv; apply Hlab; now right).
    destruct (upload_outcome W H u) as [r|] eqn:Hout.
    + destruct (Hlab u r (or_introl eq_refl) Hout) as [lf Hlf].
      pose proof (exec_upload_commit W (file_name (up_file u))
                                     (uid "upload" (up_id_uid u)) r s0) as Hc.
      unfold exec in Hc. rewrite Hc, Hlf.
      unfold upload_commit, ebind, lift, modify. rewrite Hlf.
      apply (IH (commit_uploaded _ _ r lf s0) (commit_uploaded _ _ r lf s1) Hseq' Hlab').
      apply frame_commit_uploaded. now apply frame_trans with s.
    + apply (IH s0 s1 Hseq' Hlab'). now apply frame_trans with s.
Qed.

(** A click on the upload button with files selected ends normally and
    leaves in the registry what committing the files that have a result, one
    after the other in batch order, leaves there: a file with an unsupported
    extension, a file whose handler throws and a file whose handler returns
    null add nothing and do not keep the files after them from being
    registered.  (No panel event arrives during the click, and label
    resolution does not throw.)  With no file selected the click only raises
    an alert. *)
Theorem upload_click_registers_successes
        (W : World) (H : UploadHost) (batch : list Upload) (s : State) :
  (forall u, In u batch -> up_meanwhile u = []) ->
  (forall u r, In u batch -> upload_outcome W H u = Some r ->
               exists lf, computeLabelField W upload_cfg (res_features r) = Normal lf) ->
  fst (onUploadClick W H batch s) = Normal tt
  /\ uploaded (exec (onUploadClick W H batch) s) = uploaded (commit_successes W H batch s)
  /\ repo (exec (onUploadClick W H batch) s) = repo s
  /\ (batch = [] ->
      exec (onUploadClick W H batch) s = emit (EvAlert "Please select at least one file.") s).
Proof.
  intros Hseq Hlab.
  assert (Hrepo : forall l st, repo (commit_successes W H l st) = repo st).
  { unfold commit_successes. induction l as [|u l IH]; intros st; simpl; [reflexivity|].
    rewrite IH. destruct (upload_outcome W H u) as [r|]; [|reflexivity].
    rewrite exec_upload_commit.
    destruct (computeLabelField W upload_cfg (res_features r)); [|reflexivity].
    unfold commit_uploaded. now destruct (store_features (heap_next st) (res_features r)). }
  unfold onUploadClick. destruct batch as [|u rest].
  - simpl. repeat split.
  - simpl is_nil. cbv iota.
    destruct (@upload_loop_commits W H (u :: rest) s s Hseq Hlab (frame_refl s))
      as (Hn & Hu & Hr & _).
    split; [exact Hn|]. split; [exact Hu|]. split; [|discriminate].
    rewrite Hr. apply Hrepo.
Qed.

Lemma upload_click_registers_successes_witness :
  fst (onUploadClick demo_world demo_host demo_batch init_state) = Normal tt
  /\ uploaded (exec (onUploadClick demo_world demo_host demo_batch) init_state)
     = uploaded (commit_successes demo_world demo_host demo_batch init_state)
  /\ map (upload_outcome demo_world demo_host) (firstn 3 demo_batch) = [None; None; None]
  /\ obj_keys (uploaded (commit_successes demo_world demo_host demo_batch init_state))
     = ["upload_1a2b3c_4"; "upload_1a2b3c_5"].
Proof.
  assert (Hseq : forall u, In u demo_batch -> up_meanwhile u = []).
  { intros u [<-|[<-|[<-|[<-|[<-|[]]]]]]; reflexivity. }
  assert (Hlab : forall u r, In u demo_batch ->
                   upload_outcome demo_world demo_host u = Some r ->
                   exists lf, computeLabelField demo_world upload_cfg (res_features r)
                              = Normal lf).
  { intros u r [<-|[<-|[<-|[<-|[<-|[]]]]]]; vm_compute; intros [= <-];
      eexists; reflexivity. }
  destruct (upload_click_registers_successes demo_world demo_host demo_batch
              init_state Hseq Hlab) as (H1 & H2 & _).
  split; [exact H1|]. split; [exact H2|]. split; reflexivity.
Defined.

Lemma upload_loop_throw_app W H : forall l1 l2 s e,
  fst (upload_loop W H l1 s) = Throw e ->
  upload_loop W H (l1 ++ l2) s = upload_loop W H l1 s.
Proof.
  induction l1 as [|u l1 IH]; intros l2 s e; simpl; [discriminate|].
  unfold ebind.
  destruct (upload_try W H u s) as [[[r|]|x] s1]; [| |reflexivity].
  - destruct (upload_commit W (file_name (up_file u)) (uid "upload" (up_id_uid u)) r s1)
      as [[[]|x] s2]; [apply IH|reflexivity].
  - apply IH.
Qed.

Lemma upload_loop_label_throw W H u r e :
  upload_outcome W H u = Some r ->
  computeLabelField W upload_cfg (res_features r) = Throw e ->
  forall pre s, exists e', fst (upload_loop W H (pre ++ [u]) s) = Throw e'.
Proof.
  intros Hout Hlab.
  induction pre as [|u0 pre IH]; intros s; simpl; unfold ebind.
  - destruct (upload_try_outcome W H u s) as (s1 & -> & _). rewrite Hout.
    unfold upload_commit, ebind, lift. rewrite Hlab. now exists e.
  - destruct (upload_try W H u0 s) as [[[r0|]|x] s1]; [| |now exists x].
    + destruct (upload_commit W (file_name (up_file u0)) (uid "upload" (up_id_uid u0))
                              r0 s1) as [[[]|x] s2]; [apply IH|now exists x].
    + apply IH.
Qed.

(** Label resolution runs outside the [try] block.  When it throws for a
    file, the file is not registered, the click handler dies with the
    exception, and the files after it in the batch are not looked at: the
    click leaves exactly what it leaves for the batch cut after that
    file. *)
Theorem label_failure_drops_rest_of_batch
        (W : World) (H : UploadHost) (pre post : list Upload) (u : Upload)
        (r : IngestResult) (e : Exn) (s : State) :
  upload_outcome W H u = Some r ->
  computeLabelField W upload_cfg (res_features r) = Throw e ->
  upload_loop W H (pre ++ u :: post) s = upload_loop W H (pre ++ [u]) s
  /\ (exists e', fst (upload_loop W H (pre ++ u :: post) s) = Throw e')
  /\ forall s1, exec (upload_commit W (file_name (up_file u))
                                    (uid "upload" (up_id_uid u)) r) s1 = s1.
Proof.
  intros Hout Hlab.
  destruct (upload_loop_label_throw W H u Hout Hlab pre s) as [e' He'].
  assert (Heq : upload_loop W H (pre ++ u :: post) s = upload_loop W H (pre ++ [u]) s).
  { replace (pre ++ u :: post) with ((pre ++ [u]) ++ post)
      by (rewrite <- app_assoc; reflexivity).
    now apply upload_loop_throw_app with e'. }
  split; [exact Heq|]. split.
  - exists e'. now rewrite Heq.
  - intros s1. rewrite exec_upload_commit. now rewrite Hlab.
Qed.

Lemma label_failure_drops_rest_of_batch_witness :
  upload_loop demo_strict_world demo_host demo_strict_batch init_state
  = upload_loop demo_strict_world demo_host (firstn 2 demo_strict_batch) init_state
  /\ obj_keys (uploaded (exec (upload_loop demo_strict_world demo_host demo_strict_batch)
                              init_state))
     = ["upload_1a2b3c_1"].
Proof.
  destruct (@label_failure_drops_rest_of_batch demo_strict_world demo_host
              [demo_upload_of "first.json" "first" "1"]
              [demo_upload_of "third.json" "third" "3"]
              (demo_upload_of "second.json" "odd" "2")
              _ "TypeError" init_state eq_refl eq_refl) as (H1 & _).
  split; [exact H1|reflexivity].
Defined.

(* ================================================================== *)
(** ** The shape of the registry *)

Lemma all_entries_set P o k e :
  all_entries P o -> P k e -> all_entries P (obj_set o k e).
Proof.
  intros Ho He k' e' Hg.
  destruct (String.eqb_spec k k') as [<-|Hne].
  - rewrite obj_get_set_same in Hg. now injection Hg as <-.
  - rewrite obj_get_set_other in Hg by exact Hne. now apply Ho.
Qed.

Lemma all_entries_delete P o k : all_entries P o -> all_entries P (obj_delete o k).
Proof.
  intros Ho k' e' Hg.
  destruct (String.eqb_spec k k') as [<-|Hne].
  - rewrite obj_get_delete_same in Hg. discriminate.
  - rewrite obj_get_delete_other in Hg by exact Hne. now apply Ho.
Qed.

Lemma registry_shaped_frame s s' : frame s s' -> registry_shaped s -> registry_shaped s'.
Proof.
  intros (Hu & Hr & _) [H1 H2]. unfold registry_shaped. now rewrite Hu, Hr.
Qed.

Lemma registry_shaped_set_uploaded s k e e' :
  registry_shaped s -> obj_get (uploaded s) k = Some e -> upload_shaped k e' ->
  registry_shaped (set_uploaded s (obj_set (uploaded s) k e')).
Proof.
  intros [H1 H2] _ He. split; simpl; [now apply all_entries_set|exact H2].
Qed.

Lemma registry_shaped_set_repo s k e' :
  registry_shaped s -> repo_shaped k e' ->
  registry_shaped (set_repo s (obj_set (repo s) k e')).
Proof.
  intros [H1 H2] He. split; simpl; [exact H1|now apply all_entries_set].
Qed.

Lemma run_op_shaped W op s : registry_shaped s -> registry_shaped (run_op W op s).
Proof.
  intros Hs. pose proof Hs as [H1 H2].
  destruct op as [name id r|id isOn slider|id val|id|cfg isOn slider|cfg val]; simpl.
  - rewrite exec_upload_commit.
    destruct (computeLabelField W upload_cfg (res_features r)) as [lf|x]; [|exact Hs].
    unfold commit_uploaded.
    destruct (store_features (heap_next s) (res_features r)) as [fs n].
    split; simpl; [|exact H2].
    apply all_entries_set; [exact H1|]. split; [reflexivity|now exists lf].
  - rewrite exec_toggle_uploaded.
    destruct (obj_get (uploaded s) id) as [e|] eqn:Hg;
      [|exact (registry_shaped_frame (proj1 (qframe_inherited_write _ _ s)) Hs)].
    cbv zeta.
    assert (Hs1 : registry_shaped
                    (set_uploaded s (obj_set (uploaded s) id (with_active e isOn))))
      by (apply registry_shaped_set_uploaded with e; [exact Hs|exact Hg|exact (H1 _ _ Hg)]).
    destruct (layer e) as [l|]; [|exact Hs1].
    destruct isOn.
    + eapply registry_shaped_frame; [|exact Hs1].
      eapply frame_trans; [apply frame_addTo|apply frame_ema_setOpacity_opt].
    + eapply registry_shaped_frame; [apply frame_removeLayer|exact Hs1].
  - rewrite exec_slider_uploaded.
    destruct (obj_get (uploaded s) id) as [e|] eqn:Hg;
      [|exact (registry_shaped_frame (proj1 (qframe_inherited_write _ _ s)) Hs)].
    cbv zeta.
    assert (Hs1 : registry_shaped
                    (set_uploaded s (obj_set (uploaded s) id (with_opacity e val))))
      by (apply registry_shaped_set_uploaded with e; [exact Hs|exact Hg|exact (H1 _ _ Hg)]).
    destruct (flag_truthy (active e)); [|exact Hs1].
    destruct (layer e) as [l|]; [|exact Hs1].
    eapply registry_shaped_frame; [apply frame_ema_setOpacity_opt|exact Hs1].
  - destruct (obj_get (uploaded s) id) as [e|] eqn:Hg.
    + destruct (@onRemove_present id e s Hg) as (Hu & Hr & _).
      unfold registry_shaped. rewrite Hu, Hr.
      split; [now apply all_entries_delete|exact H2].
    + rewrite exec_onRemove, Hg. exact Hs.
  - rewrite exec_toggle_repo.
    destruct (obj_get (repo s) (cfg_id cfg)) as [e|] eqn:Hg;
      [|destruct (found_truthy (lookup s (repo s) (cfg_id cfg)));
        [exact (registry_shaped_frame (proj1 (qframe_inherited_write _ _ s)) Hs)
        |exact (registry_shaped_frame (frame_emit _ s) Hs)]].
    cbv zeta.
    assert (Hs1 : registry_shaped
                    (set_repo s (obj_set (repo s) (cfg_id cfg) (with_active e isOn))))
      by (apply registry_shaped_set_repo; [exact Hs|exact (H2 _ _ Hg)]).
    destruct (layer e) as [l|]; [|exact Hs1].
    destruct isOn.
    + eapply registry_shaped_frame; [|exact Hs1].
      eapply frame_trans; [apply frame_addTo|apply frame_ema_setOpacity_opt].
    + eapply registry_shaped_frame; [apply frame_removeLayer|exact Hs1].
  - rewrite exec_slider_repo.
    destruct (obj_get (repo s) (cfg_id cfg)) as [e|] eqn:Hg;
      [|exact (registry_shaped_frame (proj1 (qframe_inherited_write _ _ s)) Hs)].
    cbv zeta.
    assert (Hs1 : registry_shaped
                    (set_repo s (obj_set (repo s) (cfg_id cfg) (with_opacity e val))))
      by (apply registry_shaped_set_repo; [exact Hs|exact (H2 _ _ Hg)]).
    destruct (flag_truthy (active e)); [|exact Hs1].
    destruct (layer e) as [l|]; [|exact Hs1].
    eapply registry_shaped_frame; [apply frame_ema_setOpacity_opt|exact Hs1].
Qed.

Lemma run_ops_shaped W ops : forall s, registry_shaped s -> registry_shaped (run_ops W ops s).
Proof.
  induction ops as [|op ops IH]; intros s Hs; simpl; [exact Hs|].
  apply IH. now apply run_op_shaped.
Qed.

Lemma preload_outcome_shaped W cfg resp s :
  registry_shaped s -> registry_shaped (preload_outcome W cfg resp s).
Proof.
  intros [H1 H2]. unfold registry_shaped.
  rewrite uploaded_preload_outcome, repo_preload_outcome. split; [exact H1|].
  destruct (preload_build W cfg resp) as [[[built feats] lf]|x]; [|exact H2].
  apply all_entries_set; [exact H2|]. split; [reflexivity|].
  now exists (cfg_type cfg), (cfg_url cfg), lf.
Qed.

Lemma preload_loop_shaped W registry : forall sched s,
  registry_shaped s -> registry_shaped (preload_loop W registry sched s).
Proof.
  induction registry as [|cfg rest IH]; intros sched s Hs; simpl; [exact Hs|].
  destruct (found_truthy (lookup s (repo s) (cfg_id cfg))); [now apply IH|].
  rewrite exec_preload_resume. apply IH, preload_outcome_shaped, run_ops_shaped.
  exact (registry_shaped_frame (frame_emit _ s) Hs).
Qed.

Lemma force_roads_shaped s : registry_shaped s -> registry_shaped (force_roads s).
Proof.
  intros [H1 H2]. unfold registry_shaped.
  rewrite uploaded_force_roads, repo_force_roads. split; [exact H1|].
  destruct (obj_get (repo s) roadsId) as [r|] eqn:Hg; [|exact H2].
  destruct (layer r); [|exact H2].
  apply all_entries_set; [exact H2|exact (H2 _ _ Hg)].
Qed.

(** In every state the page can reach from its start by uploads, panel
    events and preloader runs, interleaved in any way, no id occurs twice in
    a partition and every entry is stored under its own [id]: an uploaded
    entry carries the meta data of an upload, with the entry's name as file
    name, and a repo entry carries repo meta data. *)
Theorem registry_keyed_by_id (W : World) (acts : list Action) :
  wf_obj (uploaded (run_actions W acts init_state))
  /\ wf_obj (repo (run_actions W acts init_state))
  /\ all_entries upload_shaped (uploaded (run_actions W acts init_state))
  /\ all_entries repo_shaped (repo (run_actions W acts init_state)).
Proof.
  split; [exact (proj1 (wf_reachable W acts))|].
  split; [exact (proj2 (wf_reachable W acts))|].
  assert (H : forall s, registry_shaped s -> registry_shaped (run_actions W acts s)).
  { unfold run_actions. induction acts as [|a acts' IH]; intros s Hs; simpl; [exact Hs|].
    apply IH. destruct a as [op|registry sched]; simpl.
    - now apply run_op_shaped.
    - unfold preloadRepoLayers_sched, preload_finish.
      apply force_roads_shaped.
      eapply registry_shaped_frame;
        [eapply frame_trans; apply frame_emit|].
      now apply preload_loop_shaped. }
  apply H. split; intros k e Hg; discriminate Hg.
Qed.

(* ================================================================== *)
(** ** Uploading, using and removing a layer *)

Lemma obj_get_app_last {V} (o : JsObject V) k v :
  obj_get o k = None -> obj_get (o ++ [(k, v)]) k = Some v.
Proof.
  induction o as [|[k0 v0] r IH]; simpl; [now rewrite String.eqb_refl|].
  destruct (String.eqb k0 k); [discriminate|exact IH].
Qed.

Lemma obj_set_app_last {V} (o : JsObject V) k v v' :
  obj_get o k = None -> obj_set (o ++ [(k, v)]) k v' = o ++ [(k, v')].
Proof.
  induction o as [|[k0 v0] r IH]; simpl; [now rewrite String.eqb_refl|].
  destruct (String.eqb k0 k); [discriminate|]. intros H. now rewrite IH.
Qed.

Lemma obj_delete_app_last {V} (o : JsObject V) k v :
  obj_get o k = None -> obj_delete (o ++ [(k, v)]) k = o.
Proof.
  intros H. unfold obj_delete. rewrite filter_app. simpl. rewrite String.eqb_refl. simpl.
  rewrite app_nil_r. now apply obj_delete_absent.
Qed.

Lemma slider_uploaded_registry id val s e :
  obj_get (uploaded s) id = Some e ->
  uploaded (exec (slider_uploaded id val) s) = obj_set (uploaded s) id (with_opacity e val)
  /\ repo (exec (slider_uploaded id val) s) = repo s.
Proof.
  intros Hg. rewrite exec_slider_uploaded, Hg. cbv zeta.
  destruct (flag_truthy (active e)); [|now split].
  destruct (layer e) as [l|]; [|now split].
  now destruct (frame_ema_setOpacity_opt l val
                  (set_uploaded s (obj_set (uploaded s) id (with_opacity e val))))
    as (-> & -> & _).
Qed.

(** While the layer [id] is in the registry as the last entry added to what
    [o] held, the events of its row keep it there. *)
Lemma row_events_keep_last W id o r0 : forall ops s,
  obj_get o id = None ->
  forallb (on_upload_row id) ops = true ->
  (uploaded s = o \/ exists e, uploaded s = o ++ [(id, e)]) -> repo s = r0 ->
  (uploaded (run_ops W ops s) = o \/ exists e, uploaded (run_ops W ops s) = o ++ [(id, e)])
  /\ repo (run_ops W ops s) = r0.
Proof.
  induction ops as [|op ops IH]; intros s Hno Hops Hu Hr; simpl; [now split|].
  simpl in Hops. apply andb_true_iff in Hops as [Hop Hops].
  apply IH; [exact Hno|exact Hops| |].
  - destruct op as [name i r|i isOn slider|i val|i|cfg isOn slider|cfg val];
      try discriminate Hop; simpl in Hop; apply String.eqb_eq in Hop; subst i; simpl.
    + destruct Hu as [Hu|[e Hu]].
      * left. rewrite exec_toggle_uploaded, Hu, Hno, uploaded_inherited_write. exact Hu.
      * right.
        assert (Hg : obj_get (uploaded s) id = Some e)
          by (rewrite Hu; now apply obj_get_app_last).
        destruct (@toggle_uploaded_registry id isOn slider s e Hg) as (-> & _).
        exists (with_active e isOn). rewrite Hu. now apply obj_set_app_last.
    + destruct Hu as [Hu|[e Hu]].
      * left. rewrite exec_slider_uploaded, Hu, Hno, uploaded_inherited_write. exact Hu.
      * right.
        assert (Hg : obj_get (uploaded s) id = Some e)
          by (rewrite Hu; now apply obj_get_app_last).
        destruct (@slider_uploaded_registry id val s e Hg) as (-> & _).
        exists (with_opacity e val). rewrite Hu. now apply obj_set_app_last.
  - rewrite <- Hr, repo_run_op.
    destruct op as [name i r|i isOn slider|i val|i|cfg isOn slider|cfg val];
      try discriminate Hop; reflexivity.
Qed.

(** Uploading a file under an id the registry does not hold, using the
    layer's toggle and slider any number of times and then removing the
    layer leaves both partitions exactly as they were before the upload, so
    the aggregate query answers as before. *)
Theorem upload_use_remove_restores
        (W : World) (name id : string) (r : IngestResult) (ops : list Op) (s : State) :
  obj_get (uploaded s) id = None ->
  forallb (on_upload_row id) ops = true ->
  uploaded (run_ops W (OpUpload name id r :: ops ++ [OpRemove id]) s) = uploaded s
  /\ repo (run_ops W (OpUpload name id r :: ops ++ [OpRemove id]) s) = repo s
  /\ getAllActiveFeatures (run_ops W (OpUpload name id r :: ops ++ [OpRemove id]) s)
     = getAllActiveFeatures s.
Proof.
  intros Hno Hops.
  assert (H : uploaded (run_ops W (OpUpload name id r :: ops ++ [OpRemove id]) s)
              = uploaded s
              /\ repo (run_ops W (OpUpload name id r :: ops ++ [OpRemove id]) s) = repo s).
  { unfold run_ops. simpl. rewrite fold_left_app. simpl.
    set (s1 := exec (upload_commit W name id r) s).
    assert (H1 : (uploaded s1 = uploaded s \/ exists e, uploaded s1 = uploaded s ++ [(id, e)])
                 /\ repo s1 = repo s).
    { unfold s1. rewrite exec_upload_commit.
      destruct (computeLabelField W upload_cfg (res_features r)) as [lf|x];
        [|split; [now left|reflexivity]].
      unfold commit_uploaded.
      destruct (store_features (heap_next s) (res_features r)) as [fs n]. simpl.
      split; [|reflexivity]. right. eexists. now apply obj_set_absent. }
    destruct H1 as [Hu1 Hr1].
    destruct (@row_events_keep_last W id (uploaded s) (repo s) ops s1 Hno Hops Hu1 Hr1)
      as [Hu2 Hr2].
    fold (run_ops W ops s1) in *.
    set (s2 := run_ops W ops s1) in *.
    destruct Hu2 as [Hu2|[e Hu2]].
    - rewrite exec_onRemove, Hu2, Hno. now split.
    - assert (Hg : obj_get (uploaded s2) id = Some e)
        by (rewrite Hu2; now apply obj_get_app_last).
      destruct (@onRemove_present id e s2 Hg) as (-> & -> & _).
      rewrite Hu2. split; [now apply obj_delete_app_last|exact Hr2]. }
  destruct H as [Hu Hr]. split; [exact Hu|]. split; [exact Hr|].
  now apply getAllActiveFeatures_registry.
Qed.

Lemma upload_use_remove_restores_witness :
  uploaded (run_ops demo_world
              [ OpUpload "sites.csv" "upload_2b_40" demo_upload;
                OpToggleUploaded "upload_2b_40" true opacity_default;
                OpSliderUploaded "upload_2b_40" opacity_roads;
                OpRemove "upload_2b_40" ]
              demo_loaded_state)
  = uploaded demo_loaded_state
  /\ obj_keys (uploaded (run_ops demo_world
                           [ OpUpload "sites.csv" "upload_2b_40" demo_upload;
                             OpToggleUploaded "upload_2b_40" true opacity_default;
                             OpSliderUploaded "upload_2b_40" opacity_roads ]
                           demo_loaded_state))
     = ["upload_1a_17"; "upload_2b_40"].
Proof.
  split; [|reflexivity].
  exact (proj1 (@upload_use_remove_restores demo_world "sites.csv" "upload_2b_40"
                  demo_upload
                  [ OpToggleUploaded "upload_2b_40" true opacity_default;
                    OpSliderUploaded "upload_2b_40" opacity_roads ]
                  demo_loaded_state eq_refl eq_refl)).
Defined.

(* ================================================================== *)
(** ** Configs the preloader never attempts *)

Lemma found_truthy_builtin s part k a :
  builtin_member k = Some a -> found_truthy (lookup s part k) = true.
Proof.
  intros Hb. unfold lookup.
  destruct (obj_get part k); [reflexivity|].
  now rewrite (proto_value_builtin s _ Hb), Hb.
Qed.

Lemma preload_loop_passes_over W cfg a post : forall pre sched s,
  builtin_member (cfg_id cfg) = Some a ->
  preload_loop W (pre ++ cfg :: post) sched s = preload_loop W (pre ++ post) sched s.
Proof.
  induction pre as [|c pre IH]; intros sched s Hb; simpl.
  - now rewrite (found_truthy_builtin s (repo s) _ Hb).
  - destruct (found_truthy (lookup s (repo s) (cfg_id c))); now rewrite IH.
Qed.

Lemma preload_loop_no_entry W k a registry : forall sched s,
  builtin_member k = Some a ->
  obj_get (repo s) k = None ->
  obj_get (repo (preload_loop W registry sched s)) k = None.
Proof.
  induction registry as [|cfg rest IH]; intros sched s Hb Hk; simpl; [exact Hk|].
  destruct (found_truthy (lookup s (repo s) (cfg_id cfg))) eqn:Hhas; [now apply IH|].
  rewrite exec_preload_resume. apply IH; [exact Hb|].
  assert (Hne : cfg_id cfg <> k).
  { intros Heq. rewrite Heq, (found_truthy_builtin s (repo s) _ Hb) in Hhas.
    discriminate. }
  rewrite repo_preload_outcome_other by exact Hne.
  apply (touch_get_none k (run_ops_repo_touch W _ _)). exact Hk.
Qed.

(** The check [repo[cfg.id]] that skips a config already loaded reads
    through the prototype chain.  A config whose id is the name of a
    built-in member of [Object.prototype] is therefore passed over in every
    run: the run does exactly what it does for the registry without that
    config (no fetch, no warning), and no entry is ever created under the
    id, whatever configs the registry holds and whatever the panel delivers
    meanwhile. *)
Theorem preload_passes_over_inherited_ids
        (W : World) (pre post : list LayerConfig) (cfg : LayerConfig) (a : option nat)
        (sched : list (list Op)) (s : State) :
  builtin_member (cfg_id cfg) = Some a ->
  preloadRepoLayers_sched W (pre ++ cfg :: post) sched s
  = preloadRepoLayers_sched W (pre ++ post) sched s
  /\ (obj_get (repo s) (cfg_id cfg) = None ->
      obj_get (repo (preloadRepoLayers_sched W (pre ++ cfg :: post) sched s)) (cfg_id cfg)
      = None).
Proof.
  intros Hb. unfold preloadRepoLayers_sched.
  split; [now rewrite (preload_loop_passes_over W cfg post pre sched s Hb)|].
  intros Hnone. rewrite repo_preload_finish.
  apply (touch_get_none _ (force_roads_touch _)).
  now apply preload_loop_no_entry with a.
Qed.

Lemma preload_passes_over_inherited_ids_witness :
  preloadRepoLayers demo_world
    [demo_zones; demo_cfg "constructor" "other" "census.geojson"] init_state
  = preloadRepoLayers demo_world [demo_zones] init_state
  /\ obj_keys (repo (preloadRepoLayers demo_world
                       [demo_zones; demo_cfg "constructor" "other" "census.geojson"]
                       init_state))
     = ["zones"]
  /\ log (preloadRepoLayers demo_world
            [demo_zones; demo_cfg "constructor" "other" "census.geojson"] init_state)
     = [ EvFetch "zones.geojson"; EvLog "✅ Repo layers preloaded";
         EvDispatch "layers:repoPreloaded" ].
Proof.
  split; [|split; reflexivity].
  exact (proj1 (@preload_passes_over_inherited_ids demo_world [demo_zones] []
                  (demo_cfg "constructor" "other" "census.geojson") (Some 1) []
                  init_state eq_refl)).
Defined.

(** C5, the defect: the check that is to keep one entry per id reads
    [repo[cfg.id]] through the prototype chain.  A config whose id is the
    name of a built-in member of [Object.prototype] is taken to be loaded
    already: however often the preloader runs, the registry holds no entry
    under that id, where the claim has exactly one. *)
Theorem preload_twice_inherited_id_has_no_entry
        (W : World) (registry : list LayerConfig) (cfg : LayerConfig) (a : option nat)
        (s : State) :
  In cfg registry ->
  builtin_member (cfg_id cfg) = Some a ->
  obj_get (repo s) (cfg_id cfg) = None ->
  count_occ string_dec
            (obj_keys (repo (preloadRepoLayers W registry (preloadRepoLayers W registry s))))
            (cfg_id cfg) = 0.
Proof.
  intros _ Hb Hnone.
  assert (Hrun : forall s0, obj_get (repo s0) (cfg_id cfg) = None ->
                            obj_get (repo (preloadRepoLayers W registry s0)) (cfg_id cfg)
                            = None).
  { intros s0 H0. unfold preloadRepoLayers, preloadRepoLayers_sched.
    rewrite repo_preload_finish.
    apply (touch_get_none _ (force_roads_touch _)).
    now apply preload_loop_no_entry with a. }
  apply count_occ_not_In. apply obj_get_None_keys. now apply Hrun, Hrun.
Qed.

Lemma preload_twice_inherited_id_has_no_entry_witness :
  (exists built feats labelField,
      preload_build demo_world (demo_cfg "constructor" "other" "census.geojson")
                    (fetch demo_world "census.geojson")
      = Normal (built, feats, labelField))
  /\ count_occ string_dec
               (obj_keys (repo (preloadRepoLayers demo_world
                                  [demo_zones;
                                   demo_cfg "constructor" "other" "census.geojson"]
                                  (preloadRepoLayers demo_world
                                     [demo_zones;
                                      demo_cfg "constructor" "other" "census.geojson"]
                                     init_state))))
               "constructor" = 0.
Proof.
  split; [do 3 eexists; reflexivity|].
  apply (@preload_twice_inherited_id_has_no_entry demo_world
           [demo_zones; demo_cfg "constructor" "other" "census.geojson"]
           (demo_cfg "constructor" "other" "census.geojson") (Some 1) init_state).
  - right. now left.
  - reflexivity.
  - reflexivity.
Defined.
